(** * Raft consensus node: a shallow embedding of [raft/raft.go]

    The consensus node of the repository is a Go struct guarded by one
    mutex.  Every handler and every reply continuation runs with the mutex
    held, so a handler is modelled as one atomic transformation of the node:
    a computation in the monad [M], which threads the node, collects the
    signals and goroutines the code starts, and can fault where Go panics. *)

From Stdlib Require Import ZArith Lia.
From stdpp Require Import base option list gmap strings.

Local Open Scope Z_scope.

(** ** Machine integers *)

(** [uint64] values are integers in [0, 2^64); arithmetic wraps. *)
Definition wrap64 (x : Z) : Z := x mod 2 ^ 64.

(** The Go conversion [int64(x)] of a [uint64] (and [int(x)], 64 bits wide). *)
Definition int64 (x : Z) : Z := (x + 2 ^ 63) mod 2 ^ 64 - 2 ^ 63.

(** The value of the Go conversion [float64(x)] for a non-negative integer
    [x]: round to nearest, ties to even, on a 53-bit significand.  The
    result of rounding an integer is again an integer. *)
Definition float64 (x : Z) : Z :=
  if x <? 2 ^ 53 then x
  else
    let e := Z.log2 x - 52 in
    let q := Z.shiftr x e in
    let r := Z.land x (Z.ones e) in
    let half := Z.shiftl 1 (e - 1) in
    let q' :=
      if r <? half then q
      else if half <? r then q + 1
      else if Z.even q then q else q + 1 in
    Z.shiftl q' e.

(** ** Data model *)

Inductive NodeState : Set := Follower | Candidate | Leader | Dead.

#[global] Instance NodeState_eq_dec : EqDecision NodeState.
Proof. solve_decision. Defined.

(** The dynamic type of a [Command interface{}] value.  [Write], [Read],
    [AddServer] and [RemoveServers] are the structs of the command surface;
    [Other] stands for a value of any other Go type, and [Nil] is the nil
    interface value, which no case of a type switch matches. *)
(** Modelled from the spec: the struct [RemoveServer] (field [ServerId]) is
    used by [LeaveCluster], [AppendEntries] and [newLogEntry] and declared in
    no source file; it is the membership-removal variant of the command. *)
Inductive command : Type :=
  | Write (Key : string) (Val : Z)
  | Read (Key : string)
  | AddServer (ServerId : Z) (Addr : string)
  | RemoveServer (ServerId : Z)
  | RemoveServers (ServerIds : list Z)
  | Other (tag : string)
  | Nil.

Module LogEntry.
Record t : Type := mk { Command : command; Term : Z }.
End LogEntry.

(** [LogEntry{}], the zero value: what a cell of a new array holds. *)
Definition zeroEntry : LogEntry.t := LogEntry.mk Nil 0.

Module CommitEntry.
Record t : Type := mk { Command : command; Term : Z; Index : Z }.
End CommitEntry.

Module RequestVoteArgs.
Record t : Type :=
  mk { Term : Z; CandidateId : Z; LastLogIndex : Z; LastLogTerm : Z }.
End RequestVoteArgs.

Module RequestVoteReply.
Record t : Type := mk { Term : Z; VoteGranted : bool }.
End RequestVoteReply.

Module AppendEntriesArgs.
Record t : Type :=
  mk { Term : Z; LeaderId : Z; LastLogIndex : Z; LastLogTerm : Z;
       Entries : list LogEntry.t; LeaderCommit : Z }.
End AppendEntriesArgs.

Module AppendEntriesReply.
Record t : Type :=
  mk { Term : Z; Success : bool; RecoveryIndex : Z; RecoveryTerm : Z }.
End AppendEntriesReply.

Module LeaveClusterArgs.
Record t : Type := mk { ServerId : Z }.
End LeaveClusterArgs.

Module LeaveClusterReply.
Record t : Type := mk { Success : bool }.
End LeaveClusterReply.

(** Modelled from the spec: the peer set [Set] (its file is not among the
    sources): a set of server identifiers with insert, remove, membership
    test, size and iteration, backed by the map [peerSet]. *)
Module PeerSet.
Abbreviation t := (gset Z) (only parsing).
Definition Exists (s : t) (k : Z) : bool := bool_decide (k ∈ s).
Definition Add (s : t) (k : Z) : t := {[k]} ∪ s.
Definition Remove (s : t) (k : Z) : t := s ∖ {[k]}.
Definition Size (s : t) : Z := Z.of_nat (size s).
End PeerSet.

(** Modelled from the spec: the byte-keyed store [Database] (its file is not
    among the sources): [Set(name, bytes)], [Get(name)] returning the bytes
    and a found flag, over one flat map. *)
Module Database.
Abbreviation t := (gmap string (list Byte.byte)) (only parsing).
Definition Get (d : t) (k : string) : option (list Byte.byte) := d !! k.
Definition Set_ (d : t) (k : string) (v : list Byte.byte) : t := <[k:=v]> d.
Definition HasData (d : t) : bool := negb (bool_decide (d = ∅)).
End Database.

(** A channel that the code closes is open or closed. *)
Inductive chan : Set := Open | Closed.

(** The node.  The mutex, the server handle, [commitChan] and [trigger] are
    not data: the mutex is the atomicity of a computation in [M], the
    channels and the server receive the [Effect]s below.  Of
    [newCommitReady] the node keeps whether [Stop] has closed it.
    [electionResetEvent] is a time stamp, counted in clock ticks; code that
    reads the clock takes the reading as its argument [now], one reading for
    one pass under the mutex.

    A Go slice is a window on an array: [log] holds the elements of
    [node.log], and [logSpare] the cells of its backing array behind them,
    so that [cap(node.log) = len(log) + len(logSpare)]. *)
Record Node : Type := mkNode {
  id : Z;
  peerList : PeerSet.t;
  db : Database.t;
  currentTerm : Z;
  votedFor : Z;
  log : list LogEntry.t;
  commitLength : Z;
  lastApplied : Z;
  state : NodeState;
  electionResetEvent : Z;
  nextIndex : gmap Z Z;
  matchedIndex : gmap Z Z;
  logSpare : list LogEntry.t;
  newCommitReady : chan
}.

Definition set_peerList (v : PeerSet.t) (n : Node) : Node :=
  mkNode (id n) v (db n) (currentTerm n) (votedFor n) (log n) (commitLength n)
    (lastApplied n) (state n) (electionResetEvent n) (nextIndex n)
    (matchedIndex n) (logSpare n) (newCommitReady n).
Definition set_db (v : Database.t) (n : Node) : Node :=
  mkNode (id n) (peerList n) v (currentTerm n) (votedFor n) (log n)
    (commitLength n) (lastApplied n) (state n) (electionResetEvent n)
    (nextIndex n) (matchedIndex n) (logSpare n) (newCommitReady n).
Definition set_currentTerm (v : Z) (n : Node) : Node :=
  mkNode (id n) (peerList n) (db n) v (votedFor n) (log n) (commitLength n)
    (lastApplied n) (state n) (electionResetEvent n) (nextIndex n)
    (matchedIndex n) (logSpare n) (newCommitReady n).
Definition set_votedFor (v : Z) (n : Node) : Node :=
  mkNode (id n) (peerList n) (db n) (currentTerm n) v (log n) (commitLength n)
    (lastApplied n) (state n) (electionResetEvent n) (nextIndex n)
    (matchedIndex n) (logSpare n) (newCommitReady n).
Definition set_log (v : list LogEntry.t) (n : Node) : Node :=
  mkNode (id n) (peerList n) (db n) (currentTerm n) (votedFor n) v
    (commitLength n) (lastApplied n) (state n) (electionResetEvent n)
    (nextIndex n) (matchedIndex n) (logSpare n) (newCommitReady n).
Definition set_commitLength (v : Z) (n : Node) : Node :=
  mkNode (id n) (peerList n) (db n) (currentTerm n) (votedFor n) (log n) v
    (lastApplied n) (state n) (electionResetEvent n) (nextIndex n)
    (matchedIndex n) (logSpare n) (newCommitReady n).
Definition set_lastApplied (v : Z) (n : Node) : Node :=
  mkNode (id n) (peerList n) (db n) (currentTerm n) (votedFor n) (log n)
    (commitLength n) v (state n) (electionResetEvent n) (nextIndex n)
    (matchedIndex n) (logSpare n) (newCommitReady n).
Definition set_state (v : NodeState) (n : Node) : Node :=
  mkNode (id n) (peerList n) (db n) (currentTerm n) (votedFor n) (log n)
    (commitLength n) (lastApplied n) v (electionResetEvent n) (nextIndex n)
    (matchedIndex n) (logSpare n) (newCommitReady n).
Definition set_electionResetEvent (v : Z) (n : Node) : Node :=
  mkNode (id n) (peerList n) (db n) (currentTerm n) (votedFor n) (log n)
    (commitLength n) (lastApplied n) (state n) v (nextIndex n)
    (matchedIndex n) (logSpare n) (newCommitReady n).
Definition set_nextIndex (v : gmap Z Z) (n : Node) : Node :=
  mkNode (id n) (peerList n) (db n) (currentTerm n) (votedFor n) (log n)
    (commitLength n) (lastApplied n) (state n) (electionResetEvent n) v
    (matchedIndex n) (logSpare n) (newCommitReady n).
Definition set_matchedIndex (v : gmap Z Z) (n : Node) : Node :=
  mkNode (id n) (peerList n) (db n) (currentTerm n) (votedFor n) (log n)
    (commitLength n) (lastApplied n) (state n) (electionResetEvent n)
    (nextIndex n) v (logSpare n) (newCommitReady n).
Definition set_logSpare (v : list LogEntry.t) (n : Node) : Node :=
  mkNode (id n) (peerList n) (db n) (currentTerm n) (votedFor n) (log n)
    (commitLength n) (lastApplied n) (state n) (electionResetEvent n)
    (nextIndex n) (matchedIndex n) v (newCommitReady n).
Definition set_newCommitReady (v : chan) (n : Node) : Node :=
  mkNode (id n) (peerList n) (db n) (currentTerm n) (votedFor n) (log n)
    (commitLength n) (lastApplied n) (state n) (electionResetEvent n)
    (nextIndex n) (matchedIndex n) (logSpare n) v.

(** [len(node.log)] as a [uint64]. *)
Definition len (l : list LogEntry.t) : Z := Z.of_nat (length l).

(** A read [m[k]] of a Go map: the zero value when the key is absent. *)
Definition mapGet (m : gmap Z Z) (k : Z) : Z := default 0 (m !! k).

(** ** Effects *)

(** What a computation leaves behind besides the new node: sends on the
    node's channels, calls into the server, goroutines started.  The code
    that sends records the send; whether the send waits for room in the
    buffer is not part of the model.  A send on [newCommitReady] after
    [Stop] has closed the channel is a panic of the process: the handler
    records the send as any other, and [step], which runs an action of a
    node, faults on it. *)
Inductive Effect : Type :=
  | SendNewCommitReady
  | SendTrigger
  | SendCommitChan (c : CommitEntry.t)
  | ConnectToPeer (peerId : Z) (addr : string)
  | GoRunElectionTimer
  | GoCountVotes (votesReceived : Z)
  | GoRequestVote (peer : Z) (candidacyTerm : Z)
  | GoHeartbeat
  | GoNewLogEntry (cmd : command)
  | CloseNewCommitReady.

(** The monad of the code under the mutex: state [Node], a log of effects,
    and [None] for a Go run-time panic. *)
Definition M (A : Type) : Type := Node → option (A * Node * list Effect).

#[global] Instance M_ret : MRet M := λ A a n, Some (a, n, []).

#[global] Instance M_bind : MBind M := λ A B f m n,
  match m n with
  | Some (a, n1, o1) =>
      match f a n1 with
      | Some (b, n2, o2) => Some (b, n2, o1 ++ o2)
      | None => None
      end
  | None => None
  end.

Definition get : M Node := λ n, Some (n, n, []).
Definition modify (f : Node → Node) : M unit := λ n, Some (tt, f n, []).
Definition emit (e : Effect) : M unit := λ _n, Some (tt, _n, [e]).
Definition panic {A : Type} : M A := λ _, None.
Definition when (b : bool) (m : M unit) : M unit := if b then m else mret tt.

(** [s[i]] on a slice, for an unsigned [i]: panics out of range. *)
Definition index (l : list LogEntry.t) (i : Z) : M LogEntry.t :=
  if (0 <=? i) && (i <? len l) then
    match l !! Z.to_nat i with Some e => mret e | None => panic end
  else panic.

(** [s[lo:hi]] on the slice with the elements [l] and the spare cells
    [spare], for unsigned bounds: Go admits [hi] up to the capacity, a
    number of cells, and the result shows the cells of the array from [lo]
    to [hi], spare ones included. *)
Definition slice (l spare : list LogEntry.t) (lo hi : Z) : M (list LogEntry.t) :=
  if (0 <=? lo) && (lo <=? hi)
     && (Z.to_nat hi <=? length l + length spare)%nat then
    mret (take (Z.to_nat (hi - lo)) (drop (Z.to_nat lo) (l ++ spare)))
  else panic.

(** [append] writes into the backing array when the capacity suffices, and
    otherwise moves the elements to a new, larger array.  How large is the
    choice of the run time, outside the repository, and a parameter here:
    [growslice cap needed] is the capacity of the array allocated for a
    slice of capacity [cap] that has to hold [needed] elements. *)
Class Runtime : Type := { growslice : nat → nat → nat }.

(** The spare cells of [append(s, xs...)], for the slice [s] with the
    elements [l] and the spare cells [spare]; its elements are [l ++ xs].
    The cells of a new array behind the elements hold the zero value. *)
Definition appendSpare `{Runtime} (l spare xs : list LogEntry.t)
    : list LogEntry.t :=
  let needed := (length l + length xs)%nat in
  let cap := (length l + length spare)%nat in
  if (needed <=? cap)%nat then drop (length xs) spare
  else replicate (growslice cap needed - needed) zeroEntry.

(** [for i := a; i <= b; i++ { body }] runs [body] at [a], [a+1], ...:
    [forRange body a count] with [count = b - a + 1] iterations (none when
    [b < a]).  The bound [b] is a slice length, so [i++] does not wrap. *)
Fixpoint forRange (body : Z → M unit) (i : Z) (count : nat) : M unit :=
  match count with
  | O => mret tt
  | S k => body i ;; forRange body (i + 1) k
  end.

(** [for _, x := range xs { body }]. *)
Fixpoint forEach {A : Type} (xs : list A) (body : A → M unit) : M unit :=
  match xs with
  | [] => mret tt
  | x :: xs' => body x ;; forEach xs' body
  end.

(** ** Persistence *)

(** The [encoding/gob] codec is a library outside the repository: its
    encoder for the three persisted values and its decoder into an [int] are
    parameters of the development.  An [Encode] error ends the process
    ([log.Fatal]); the model describes the runs that go on, so the encoders
    are functions.  A decoder returns [None] for a decode error.  The
    decoder of a slice fills the array of the variable or a new one:
    [gobDecodeLogSpare cells bytes] are the cells it leaves behind the
    decoded elements, for a variable whose array held [cells]. *)
Class Gob : Type := {
  gobEncodeUint64 : Z → list Byte.byte;
  gobEncodeInt64 : Z → list Byte.byte;
  gobEncodeLog : list LogEntry.t → list Byte.byte;
  gobDecodeInt : list Byte.byte → option Z;
  gobDecodeUint64 : list Byte.byte → option Z;
  gobDecodeInt64 : list Byte.byte → option Z;
  gobDecodeLog : list Byte.byte → option (list LogEntry.t);
  gobDecodeLogSpare : list LogEntry.t → list Byte.byte → list LogEntry.t
}.

Inductive error : Type :=
  | DecodeError
  | KeyNotFound (key : string)
  | CannotBeRemoved (serverId : Z) (peer : Z).

Module SetReply.
Definition AE_Term (v : Z) (r : AppendEntriesReply.t) : AppendEntriesReply.t :=
  AppendEntriesReply.mk v (AppendEntriesReply.Success r)
    (AppendEntriesReply.RecoveryIndex r) (AppendEntriesReply.RecoveryTerm r).
Definition AE_Success (v : bool) (r : AppendEntriesReply.t) : AppendEntriesReply.t :=
  AppendEntriesReply.mk (AppendEntriesReply.Term r) v
    (AppendEntriesReply.RecoveryIndex r) (AppendEntriesReply.RecoveryTerm r).
Definition AE_RecoveryIndex (v : Z) (r : AppendEntriesReply.t) : AppendEntriesReply.t :=
  AppendEntriesReply.mk (AppendEntriesReply.Term r) (AppendEntriesReply.Success r)
    v (AppendEntriesReply.RecoveryTerm r).
Definition AE_RecoveryTerm (v : Z) (r : AppendEntriesReply.t) : AppendEntriesReply.t :=
  AppendEntriesReply.mk (AppendEntriesReply.Term r) (AppendEntriesReply.Success r)
    (AppendEntriesReply.RecoveryIndex r) v.
Definition RV_Term (v : Z) (r : RequestVoteReply.t) : RequestVoteReply.t :=
  RequestVoteReply.mk v (RequestVoteReply.VoteGranted r).
Definition RV_VoteGranted (v : bool) (r : RequestVoteReply.t) : RequestVoteReply.t :=
  RequestVoteReply.mk (RequestVoteReply.Term r) v.
End SetReply.

Section Handlers.
Context `{Gob} `{Runtime}.

(** [persistToStorage]: the three blobs, written in the order of the code. *)
Definition persistToStorage : M unit :=
  modify (λ n,
    let d1 := Database.Set_ (db n) "currentTerm" (gobEncodeUint64 (currentTerm n)) in
    let d2 := Database.Set_ d1 "votedFor" (gobEncodeInt64 (votedFor n)) in
    let d3 := Database.Set_ d2 "log" (gobEncodeLog (log n)) in
    set_db d3 n).

(** [readFromStorage(key, &value)] with [var value int]: the value left in
    [value] (the zero value when nothing was decoded) and the error. *)
Definition readFromStorage (key : string) (n : Node) : Z * option error :=
  match Database.Get (db n) key with
  | Some bytes =>
      match gobDecodeInt bytes with
      | Some v => (v, None)
      | None => (0, Some DecodeError)
      end
  | None => (0, Some (KeyNotFound key))
  end.

(** ** Role changes *)

(** [becomeFollower(newTerm)], at clock reading [now]. *)
Definition becomeFollower (now : Z) (newTerm : Z) : M unit :=
  modify (set_state Follower) ;;
  modify (set_currentTerm newTerm) ;;
  modify (set_votedFor (-1)) ;;
  modify (set_electionResetEvent now) ;;
  emit GoRunElectionTimer.

(** [lastLogIndexAndTerm]: for a non-empty log the position [len-1] of the
    last entry and its term, otherwise [(0, 0)]. *)
Definition lastLogIndexAndTerm : M (Z * Z) :=
  node ← get;
  if 0 <? len (log node) then
    let lastIndex := len (log node) - 1 in
    e ← index (log node) lastIndex;
    mret (lastIndex, LogEntry.Term e)
  else mret (0, 0).

(** ** The [RequestVote] handler *)

Definition RequestVote (now : Z) (args : RequestVoteArgs.t)
    (reply : RequestVoteReply.t) : M RequestVoteReply.t :=
  node ← get;
  if bool_decide (state node = Dead)
     || negb (PeerSet.Exists (peerList node) (RequestVoteArgs.CandidateId args))
  then mret reply
  else
    '(lastLogIndex, lastLogTerm) ← lastLogIndexAndTerm;
    when (currentTerm node <? RequestVoteArgs.Term args)
      (becomeFollower now (RequestVoteArgs.Term args)) ;;
    node ← get;
    reply ←
      (if (RequestVoteArgs.Term args =? currentTerm node)
          && ((votedFor node =? -1)
              || (votedFor node =? int64 (RequestVoteArgs.CandidateId args)))
          && ((lastLogTerm <? RequestVoteArgs.LastLogTerm args)
              || ((RequestVoteArgs.LastLogTerm args =? lastLogTerm)
                  && (lastLogIndex <=? RequestVoteArgs.LastLogIndex args)))
       then
         modify (set_votedFor (int64 (RequestVoteArgs.CandidateId args))) ;;
         modify (set_electionResetEvent now) ;;
         mret (SetReply.RV_VoteGranted true reply)
       else mret (SetReply.RV_VoteGranted false reply));
    node ← get;
    persistToStorage ;;
    mret (SetReply.RV_Term (currentTerm node) reply).

(** ** The [AppendEntries] handler *)

(** The body of the loop over [args.Entries] that applies membership
    commands. *)
Definition applyMembership (entry : LogEntry.t) : M unit :=
  node ← get;
  match LogEntry.Command entry with
  | AddServer sid addr =>
      when (negb (id node =? sid)) (emit (ConnectToPeer sid addr))
  | RemoveServer sid =>
      when (negb (id node =? sid) && PeerSet.Exists (peerList node) sid)
        (modify (set_peerList (PeerSet.Remove (peerList node) sid)))
  | _ => mret tt
  end.

(** The backward scan for the recovery index:
    [for i := k; i > 0; i-- { if log[i-1].Term != rt { return i+1 } }], and
    [1] when the loop runs out.  [i] is the loop variable; inside the loop
    [0 < i <= k], so neither [i-1] nor [i+1] wraps. *)
Fixpoint recoveryScan (l : list LogEntry.t) (rt : Z) (i : nat) : M Z :=
  match i with
  | O => mret 1
  | S j =>
      e ← index l (Z.of_nat i - 1);
      if negb (LogEntry.Term e =? rt) then mret (Z.of_nat i + 1)
      else recoveryScan l rt j
  end.

(** The log-consistency test of the handler,
    [args.LastLogIndex == 0 || args.LastLogIndex <= len(log) &&
     args.LastLogTerm == log[args.LastLogIndex-1].Term], evaluated left to
    right.  [args.LastLogIndex - 1] is computed only where
    [args.LastLogIndex] is not zero, so it does not wrap. *)
Definition AppendEntries_consistent (args : AppendEntriesArgs.t) : M bool :=
  node ← get;
  let lastLogIndex := AppendEntriesArgs.LastLogIndex args in
  if lastLogIndex =? 0 then mret true
  else if lastLogIndex <=? len (log node) then
    e ← index (log node) (lastLogIndex - 1);
    mret (AppendEntriesArgs.LastLogTerm args =? LogEntry.Term e)
  else mret false.

(** The branch of the handler taken when the test succeeds.
    [args.LastLogIndex] is at most [len(log)] here, so the slice expression
    [node.log[:args.LastLogIndex]] does not fault; it keeps the array, and
    [append] writes behind it.  The minimum of the two floats is at most
    [float64(len(log))], an integer in the range of [uint64], so the
    conversion back is exact. *)
Definition AppendEntries_accept (args : AppendEntriesArgs.t)
    (reply : AppendEntriesReply.t) : M AppendEntriesReply.t :=
  let reply := SetReply.AE_Success true reply in
  modify (λ n,
    let k := Z.to_nat (AppendEntriesArgs.LastLogIndex args) in
    set_logSpare
      (appendSpare (take k (log n)) (drop k (log n ++ logSpare n))
         (AppendEntriesArgs.Entries args))
      (set_log (take k (log n) ++ AppendEntriesArgs.Entries args) n)) ;;
  forEach (AppendEntriesArgs.Entries args) applyMembership ;;
  node ← get;
  when (commitLength node <? AppendEntriesArgs.LeaderCommit args)
    (modify (set_commitLength
               (Z.min (float64 (AppendEntriesArgs.LeaderCommit args))
                      (float64 (len (log node))))) ;;
     emit SendNewCommitReady) ;;
  mret reply.

(** The branch taken when the test fails: the recovery hints.  A slice
    length is an [int], so [len(log)+1] does not wrap. *)
Definition AppendEntries_reject (args : AppendEntriesArgs.t)
    (reply : AppendEntriesReply.t) : M AppendEntriesReply.t :=
  node ← get;
  let lastLogIndex := AppendEntriesArgs.LastLogIndex args in
  if len (log node) <? lastLogIndex then
    mret (SetReply.AE_RecoveryTerm 0
            (SetReply.AE_RecoveryIndex (len (log node) + 1) reply))
  else
    e ← index (log node) (lastLogIndex - 1);
    let reply := SetReply.AE_RecoveryTerm (LogEntry.Term e) reply in
    ri ← recoveryScan (log node) (AppendEntriesReply.RecoveryTerm reply)
           (Z.to_nat (lastLogIndex - 1));
    mret (SetReply.AE_RecoveryIndex ri reply).

Definition AppendEntries (now : Z) (args : AppendEntriesArgs.t)
    (reply : AppendEntriesReply.t) : M AppendEntriesReply.t :=
  node ← get;
  if bool_decide (state node = Dead)
     || negb (PeerSet.Exists (peerList node) (AppendEntriesArgs.LeaderId args))
  then mret reply
  else
    when (currentTerm node <? AppendEntriesArgs.Term args)
      (becomeFollower now (AppendEntriesArgs.Term args)) ;;
    let reply := SetReply.AE_Success false reply in
    node ← get;
    reply ←
      (if AppendEntriesArgs.Term args =? currentTerm node then
         when (negb (bool_decide (state node = Follower)))
           (becomeFollower now (AppendEntriesArgs.Term args)) ;;
         modify (set_electionResetEvent now) ;;
         ok ← AppendEntries_consistent args;
         if ok : bool then AppendEntries_accept args reply
         else AppendEntries_reject args reply
       else mret reply);
    node ← get;
    let reply := SetReply.AE_Term (currentTerm node) reply in
    persistToStorage ;;
    mret reply.

(** ** Elections *)

(** [becomeLeader].  A slice length is an [int], so [len(log)+1] does not
    wrap. *)
Definition becomeLeader : M unit :=
  modify (set_state Leader) ;;
  node ← get;
  forEach (elements (peerList node)) (λ peer,
    modify (λ n, set_nextIndex (<[peer := len (log n) + 1]> (nextIndex n)) n) ;;
    modify (λ n, set_matchedIndex (<[peer := 0]> (matchedIndex n)) n)) ;;
  emit GoHeartbeat.

(** [startElection], at clock reading [now].  The vote counter
    [votesReceived] lives in the closure shared by the goroutines started
    here; they are started, not run. *)
Definition startElection (now : Z) : M unit :=
  modify (set_state Candidate) ;;
  modify (λ n, set_currentTerm (wrap64 (currentTerm n + 1)) n) ;;
  node ← get;
  let candidacyTerm := currentTerm node in
  modify (set_electionResetEvent now) ;;
  modify (set_votedFor (int64 (id node))) ;;
  emit (GoCountVotes 1) ;;
  forEach (elements (peerList node)) (λ peer, emit (GoRequestVote peer candidacyTerm)) ;;
  emit GoRunElectionTimer.

(** The first goroutine of [startElection]: a candidate without peers wins
    at once. *)
Definition startElection_count (votesReceived : Z) : M unit :=
  node ← get;
  when (bool_decide (state node = Candidate)
        && (PeerSet.Size (peerList node) + 1 <? votesReceived * 2))
    becomeLeader.

(** The continuation of [startElection] on a [RequestVote] reply; it
    returns the vote counter. *)
Definition startElection_reply (now : Z) (candidacyTerm : Z)
    (reply : RequestVoteReply.t) (votesReceived : Z) : M Z :=
  node ← get;
  if negb (bool_decide (state node = Candidate)) then mret votesReceived
  else if candidacyTerm <? RequestVoteReply.Term reply then
    becomeFollower now (RequestVoteReply.Term reply) ;; mret votesReceived
  else if (RequestVoteReply.Term reply =? candidacyTerm)
          && RequestVoteReply.VoteGranted reply then
    let votesReceived := votesReceived + 1 in
    when (PeerSet.Size (peerList node) + 1 <? votesReceived * 2) becomeLeader ;;
    mret votesReceived
  else mret votesReceived.

(** ** Replication at the leader *)

(** The body of the commit loop of a leader without peers; the loop starts
    at [commitLength + 1], which is at most [len(log)] here. *)
Definition commitAloneBody (i : Z) : M unit :=
  node ← get;
  e ← index (log node) (i - 1);
  when (LogEntry.Term e =? currentTerm node) (modify (set_commitLength i)).

(** The first goroutine of [leaderSendAppendEntries]: with an empty peer
    set every entry of the current term above [commitLength] is committed. *)
Definition leaderSendAppendEntries_alone : M unit :=
  node ← get;
  when (PeerSet.Size (peerList node) =? 0)
    (when (commitLength node <? len (log node))
       (let commitLengthSaved := commitLength node in
        forRange commitAloneBody (commitLength node + 1)
          (Z.to_nat (len (log node) - commitLength node)) ;;
        node ← get;
        when (negb (commitLengthSaved =? commitLength node))
          (emit SendNewCommitReady ;; emit SendTrigger))).

(** What a peer goroutine of [leaderSendAppendEntries] computes under the
    mutex before it sends: the saved [nextIndex], the entries, the
    arguments.  [lastLogIndexSaved] is an [int].  The entries are a slice
    of the array of the log, and the request is encoded after the mutex is
    released; the model takes them as they are when the slice is taken. *)
Definition leaderSendAppendEntries_args (peer : Z) (leadershipTerm : Z)
    : M (Z * list LogEntry.t * AppendEntriesArgs.t) :=
  node ← get;
  let nextIndexSaved := mapGet (nextIndex node) peer in
  let lastLogIndexSaved := int64 (int64 nextIndexSaved - 1) in
  lastLogTermSaved ←
    (if 0 <? lastLogIndexSaved then
       e ← index (log node) (lastLogIndexSaved - 1); mret (LogEntry.Term e)
     else mret 0);
  entries ← slice (log node) (logSpare node) (wrap64 (nextIndexSaved - 1))
              (len (log node));
  mret (nextIndexSaved, entries,
        AppendEntriesArgs.mk leadershipTerm (id node) (wrap64 lastLogIndexSaved)
          lastLogTermSaved entries (commitLength node)).

(** [matchCount] after the loop over the peer set, for index [i]. *)
Definition matchCount (i : Z) (node : Node) : Z :=
  set_fold (λ p c, if i <=? mapGet (matchedIndex node) p then c + 1 else c)
    1 (peerList node).

(** The body of the commit loop after a successful reply.  The loop starts
    at [commitLength + 1], which wraps to 0 when [commitLength] is the
    largest [uint64]; then [i-1] wraps to an index beyond every slice, and
    [index] faults on [0 - 1] just the same. *)
Definition commitQuorumBody (i : Z) : M unit :=
  node ← get;
  e ← index (log node) (i - 1);
  when (LogEntry.Term e =? currentTerm node)
    (when (PeerSet.Size (peerList node) + 1 <? matchCount i node * 2)
       (modify (set_commitLength i))).

(** The search of the leader's log for the last entry of the recovery term:
    [for i := len; i > 0; i-- { if log[i-1].Term == rt { return i } }], and
    [0] when there is none. *)
Fixpoint lastIndexOfTerm (l : list LogEntry.t) (rt : Z) (i : nat) : M Z :=
  match i with
  | O => mret 0
  | S j =>
      e ← index l (Z.of_nat i - 1);
      if LogEntry.Term e =? rt then mret (Z.of_nat i)
      else lastIndexOfTerm l rt j
  end.

(** The continuation of a peer goroutine of [leaderSendAppendEntries] on a
    reply (the call returned no error).  [nextIndexSaved] and [entries] are
    the values captured before the send.  [lastLogIndex] is at most
    [len(log)], so [lastLogIndex + 1] does not wrap. *)
Definition leaderSendAppendEntries_reply (now : Z) (peer : Z) (leadershipTerm : Z)
    (nextIndexSaved : Z) (entries : list LogEntry.t)
    (reply : AppendEntriesReply.t) : M unit :=
  node ← get;
  if leadershipTerm <? AppendEntriesReply.Term reply then
    becomeFollower now (AppendEntriesReply.Term reply)
  else
    when (bool_decide (state node = Leader)
          && (leadershipTerm =? AppendEntriesReply.Term reply))
      (if AppendEntriesReply.Success reply then
         modify (λ n, set_nextIndex
                        (<[peer := wrap64 (nextIndexSaved + len entries)]> (nextIndex n)) n) ;;
         modify (λ n, set_matchedIndex
                        (<[peer := wrap64 (mapGet (nextIndex n) peer - 1)]> (matchedIndex n)) n) ;;
         node ← get;
         let commitLengthSaved := commitLength node in
         let first := wrap64 (commitLength node + 1) in
         forRange commitQuorumBody first (Z.to_nat (len (log node) - first + 1)) ;;
         node ← get;
         when (negb (commitLengthSaved =? commitLength node))
           (emit SendNewCommitReady ;; emit SendTrigger)
       else if AppendEntriesReply.RecoveryTerm reply =? 0 then
         modify (λ n, set_nextIndex
                        (<[peer := AppendEntriesReply.RecoveryIndex reply]> (nextIndex n)) n)
       else
         lastLogIndex ←
           lastIndexOfTerm (log node) (AppendEntriesReply.RecoveryTerm reply)
             (length (log node));
         if lastLogIndex =? 0 then
           modify (λ n, set_nextIndex
                          (<[peer := AppendEntriesReply.RecoveryIndex reply]> (nextIndex n)) n)
         else
           modify (λ n, set_nextIndex
                          (<[peer := lastLogIndex + 1]> (nextIndex n)) n)).

(** ** The commit dispatcher *)

(** One round of the loop of [sendCommit], for one signal on
    [newCommitReady].  The records go out on [commitChan] after the mutex is
    released, in this order; no other code sends on that channel.  The
    round is one step of the model: the entries are those of the array when
    the slice is taken, and where [commitLength] is above [len(log)] they
    are cells behind the log.  An index [lastAppliedSaved + i + 1] is at
    most [commitLength], so the sum does not wrap. *)
Definition sendCommit : M unit :=
  node ← get;
  let lastAppliedSaved := lastApplied node in
  let currentTermSaved := currentTerm node in
  pendingCommitEntries ←
    (if lastApplied node <? commitLength node then
       es ← slice (log node) (logSpare node) (lastApplied node)
              (commitLength node);
       modify (set_lastApplied (commitLength node)) ;;
       mret es
     else mret []);
  forEach
    (imap (λ i entry,
       CommitEntry.mk (LogEntry.Command entry) currentTermSaved
         (lastAppliedSaved + Z.of_nat i + 1))
       pendingCommitEntries)
    (λ c, emit (SendCommitChan c)).

(** ** Client commands and membership *)

Definition appendCommand (cmd : command) : M unit :=
  modify (λ n,
    let entry := LogEntry.mk cmd (currentTerm n) in
    set_logSpare (appendSpare (log n) (logSpare n) [entry])
      (set_log (log n ++ [entry]) n)).

(** [newLogEntry]: the three results are the success flag, the value (an
    [int] for a read, otherwise [nil]) and the error. *)
Definition newLogEntry (cmd : command) : M (bool * option Z * option error) :=
  node ← get;
  if bool_decide (state node = Leader) then
    match cmd with
    | Read key =>
        let '(value, readErr) := readFromStorage key node in
        mret (true, Some value, readErr)
    | AddServer _ _ =>
        appendCommand cmd ;; persistToStorage ;; emit SendTrigger ;;
        mret (true, None, None)
    | RemoveServer sid =>
        if negb (PeerSet.Exists (peerList node) sid) || (id node =? sid) then
          mret (false, None, Some (CannotBeRemoved sid (id node)))
        else
          appendCommand cmd ;;
          modify (λ n, set_peerList (PeerSet.Remove (peerList n) sid) n) ;;
          persistToStorage ;; emit SendTrigger ;;
          mret (true, None, None)
    | _ =>
        appendCommand cmd ;; persistToStorage ;; emit SendTrigger ;;
        mret (true, None, None)
    end
  else
    match cmd with
    | Read key =>
        let '(value, readErr) := readFromStorage key node in
        mret (true, Some value, readErr)
    | _ => mret (false, None, None)
    end.

(** [LeaveCluster]: the entry is appended by a goroutine that runs
    [newLogEntry] later; its results are dropped. *)
Definition LeaveCluster (args : LeaveClusterArgs.t)
    (reply : LeaveClusterReply.t) : M LeaveClusterReply.t :=
  node ← get;
  if negb (bool_decide (state node = Leader)) then
    mret (LeaveClusterReply.mk false)
  else
    let reply := LeaveClusterReply.mk true in
    if negb (PeerSet.Exists (peerList node) (LeaveClusterArgs.ServerId args)) then
      mret reply
    else
      emit (GoNewLogEntry (RemoveServer (LeaveClusterArgs.ServerId args))) ;;
      mret reply.

Definition addPeer (peerId : Z) : M unit :=
  modify (λ n, set_peerList (PeerSet.Add (peerList n) peerId) n) ;;
  modify (λ n, set_nextIndex (<[peerId := len (log n) + 1]> (nextIndex n)) n) ;;
  modify (λ n, set_matchedIndex (<[peerId := 0]> (matchedIndex n)) n).

Definition removePeer (peerId : Z) : M unit :=
  node ← get;
  when (PeerSet.Exists (peerList node) peerId)
    (modify (set_peerList (PeerSet.Remove (peerList node) peerId))).

Definition joinAsPeer (now : Z) (leaderId : Z) (term : Z) (peerSet : gset Z) : M unit :=
  modify (λ n, set_peerList (PeerSet.Add (peerList n) leaderId) n) ;;
  becomeFollower now term ;;
  node ← get;
  forEach (elements peerSet) (λ peerId,
    when (negb (peerId =? id node))
      (modify (λ n, set_peerList (PeerSet.Add (peerList n) peerId) n))).

(** [Stop]: closing a channel that is closed is a run-time panic. *)
Definition Stop : M unit :=
  modify (set_state Dead) ;;
  node ← get;
  match newCommitReady node with
  | Closed => panic
  | Open => modify (set_newCommitReady Closed) ;; emit CloseNewCommitReady
  end.

(** ** Start-up *)

(** [restoreFromStorage]: [None] when a blob is missing or does not decode
    ([log.Fatal]). *)
Definition restoreFromStorage (n : Node) : option Node :=
  t ← Database.Get (db n) "currentTerm" ≫= gobDecodeUint64;
  v ← Database.Get (db n) "votedFor" ≫= gobDecodeInt64;
  bytes ← Database.Get (db n) "log";
  l ← gobDecodeLog bytes;
  Some (set_logSpare (gobDecodeLogSpare (log n ++ logSpare n) bytes)
          (set_log l (set_votedFor v (set_currentTerm t n)))).

(** [CreateNode], at clock reading [now]: [make] gives an empty log
    without capacity and an open channel. *)
Definition CreateNode (now : Z) (serverId : Z) (peerList : PeerSet.t)
    (db : Database.t) : option Node :=
  let node :=
    mkNode serverId peerList db 0 (-1) [] 0 0 Follower now ∅ ∅ [] Open in
  if Database.HasData db then restoreFromStorage node else Some node.

End Handlers.

(** ** Specification vocabulary *)

(** The range of a [uint64], and of a slice length (a non-negative [int]). *)
Definition uint64 (x : Z) : Prop := 0 ≤ x < 2 ^ 64.
Definition sliceLen (l : list LogEntry.t) : Prop := len l < 2 ^ 63.

(** The entry at a 1-based log index. *)
Definition logAt (l : list LogEntry.t) (i : Z) : option LogEntry.t :=
  if 1 <=? i then l !! Z.to_nat (i - 1) else None.

(** The term of the entry at a 1-based log index, when there is one. *)
Definition termAt (l : list LogEntry.t) (i : Z) : option Z :=
  LogEntry.Term <$> logAt l i.

(** [wp m n Q]: run from [n], the computation [m] does not panic and its
    result, final node and effects satisfy [Q]. *)
Definition wp {A : Type} (m : M A) (n : Node)
    (Q : A → Node → list Effect → Prop) : Prop :=
  match m n with
  | Some (a, n', o) => Q a n' o
  | None => False
  end.

(** The log-consistency condition of the specification, for a previous
    index [i] and term [t]. *)
Definition consistentWith (l : list LogEntry.t) (i t : Z) : Prop :=
  i = 0 ∨ (i ≤ len l ∧ termAt l i = Some t).

(** [ri] is one plus the closest index at or below [k] whose term differs
    from [rt], and [1] when there is no such index. *)
Definition scanResult (l : list LogEntry.t) (rt : Z) (k ri : Z) : Prop :=
  (∃ i, 1 ≤ i ≤ k ∧ (∃ t, termAt l i = Some t ∧ t ≠ rt) ∧
        (∀ j, i < j ≤ k → termAt l j = Some rt) ∧ ri = i + 1)
  ∨ ((∀ j, 1 ≤ j ≤ k → termAt l j = Some rt) ∧ ri = 1).

(** The recovery hints of the specification for a failed check. *)
Definition hintsFor (l : list LogEntry.t) (lastLogIndex : Z)
    (r : AppendEntriesReply.t) : Prop :=
  if len l <? lastLogIndex then
    AppendEntriesReply.RecoveryIndex r = len l + 1 ∧
    AppendEntriesReply.RecoveryTerm r = 0
  else
    termAt l lastLogIndex = Some (AppendEntriesReply.RecoveryTerm r) ∧
    scanResult l (AppendEntriesReply.RecoveryTerm r) (lastLogIndex - 1)
      (AppendEntriesReply.RecoveryIndex r).

(** What [lastLogIndexAndTerm] reports for a log: the 0-based position and
    the term of the last entry, and [(0, 0)] for the empty log. *)
Definition lastOf (l : list LogEntry.t) (index term : Z) : Prop :=
  match last l with
  | Some e => index = len l - 1 ∧ term = LogEntry.Term e
  | None => index = 0 ∧ term = 0
  end.

(** The number of peers whose [matchedIndex] is at least [i]. *)
Definition matched (node : Node) (i : Z) : Z :=
  Z.of_nat (size (filter (λ p, i ≤ mapGet (matchedIndex node) p) (peerList node))).

(** The quorum condition of the specification at index [i]: the count
    [1 + matched] exceeds half of [peerSet.size + 1]. *)
Definition quorumAt (node : Node) (i : Z) : Prop :=
  PeerSet.Size (peerList node) + 1 < 2 * (1 + matched node i).

(** Nodes and messages for the examples. *)
Definition exampleEntry (name : string) (term : Z) : LogEntry.t :=
  LogEntry.mk (Other name) term.

(** Node 2, a follower of node 1 in term 1, with two entries. *)
Definition exampleFollower : Node :=
  mkNode 2 {[1]} ∅ 1 (-1) [exampleEntry "x" 1; exampleEntry "y" 1]
    0 0 Follower 0 ∅ ∅ [] Open.

(** Node 1, the leader of term 2 in the cluster {1, 2, 3}. *)
Definition exampleLeader : Node :=
  mkNode 1 {[2; 3]} ∅ 2 1 [exampleEntry "x" 1; exampleEntry "y" 2]
    0 0 Leader 0 (<[2:=1]> (<[3:=1]> ∅)) ∅ [] Open.

(** Node 1, the leader of term 1 in a cluster of its own. *)
Definition exampleAlone : Node :=
  mkNode 1 ∅ ∅ 1 1 [exampleEntry "x" 1] 0 0 Leader 0 ∅ ∅ [] Open.

(** A request that extends the log of [exampleFollower], and one whose
    previous term does not match. *)
Definition exampleAppend : AppendEntriesArgs.t :=
  AppendEntriesArgs.mk 1 1 2 1 [exampleEntry "z" 1] 0.
Definition exampleConflict : AppendEntriesArgs.t :=
  AppendEntriesArgs.mk 1 1 2 5 [exampleEntry "z" 5] 0.

(** Replies of node 2 to [exampleLeader]: a success and a failure with a
    recovery term. *)
Definition exampleSuccess : AppendEntriesReply.t := AppendEntriesReply.mk 2 true 0 0.
Definition exampleFailure : AppendEntriesReply.t := AppendEntriesReply.mk 2 false 1 1.

(** A codec for the examples: it stores nothing and decodes an [int] as 0. *)
Definition exampleGob : Gob :=
  {| gobEncodeUint64 := λ _, [];
     gobEncodeInt64 := λ _, [];
     gobEncodeLog := λ _, [];
     gobDecodeInt := λ _, Some 0;
     gobDecodeUint64 := λ _, None;
     gobDecodeInt64 := λ _, None;
     gobDecodeLog := λ _, None;
     gobDecodeLogSpare := λ _ _, [] |}.

(** A run time for the examples: a new array has room for twice the old
    capacity, or for what is needed if that is more. *)
Definition exampleRuntime : Runtime :=
  {| growslice := λ cap needed, Nat.max needed (2 * cap) |}.

(** ** Runs of a node *)

(** The atomic actions of a node: every piece of code of the package that
    writes to the node, with its inputs.  ([JoinCluster], [FetchPeerList]
    and [Report] only read the node.) *)
Inductive Action : Type :=
  | DoRequestVote (now : Z) (args : RequestVoteArgs.t) (reply : RequestVoteReply.t)
  | DoAppendEntries (now : Z) (args : AppendEntriesArgs.t)
      (reply : AppendEntriesReply.t)
  | DoStartElection (now : Z)
  | DoCountVotes (votesReceived : Z)
  | DoVoteReply (now : Z) (candidacyTerm : Z) (reply : RequestVoteReply.t)
      (votesReceived : Z)
  | DoCommitAlone
  | DoAppendReply (now : Z) (peer : Z) (leadershipTerm : Z) (nextIndexSaved : Z)
      (entries : list LogEntry.t) (reply : AppendEntriesReply.t)
  | DoSendCommit
  | DoNewLogEntry (cmd : command)
  | DoLeaveCluster (args : LeaveClusterArgs.t) (reply : LeaveClusterReply.t)
  | DoAddPeer (peerId : Z)
  | DoRemovePeer (peerId : Z)
  | DoJoinAsPeer (now : Z) (leaderId : Z) (term : Z) (peerSet : gset Z)
  | DoStop.

Definition perform `{Gob} `{Runtime} (a : Action) : M unit :=
  match a with
  | DoRequestVote now args reply => RequestVote now args reply ;; mret tt
  | DoAppendEntries now args reply => AppendEntries now args reply ;; mret tt
  | DoStartElection now => startElection now
  | DoCountVotes votes => startElection_count votes
  | DoVoteReply now term reply votes =>
      startElection_reply now term reply votes ;; mret tt
  | DoCommitAlone => leaderSendAppendEntries_alone
  | DoAppendReply now peer term next entries reply =>
      leaderSendAppendEntries_reply now peer term next entries reply
  | DoSendCommit => sendCommit
  | DoNewLogEntry cmd => newLogEntry cmd ;; mret tt
  | DoLeaveCluster args reply => LeaveCluster args reply ;; mret tt
  | DoAddPeer peer => addPeer peer
  | DoRemovePeer peer => removePeer peer
  | DoJoinAsPeer now leader term peers => joinAsPeer now leader term peers
  | DoStop => Stop
  end.

(** An action sends on [newCommitReady] under the mutex, and only [Stop]
    closes the channel: the channel is closed at the send when it was at
    the start of the action. *)
Definition isSendNewCommitReady (e : Effect) : bool :=
  match e with SendNewCommitReady => true | _ => false end.
Definition sendsOnClosed (n : Node) (o : list Effect) : bool :=
  match newCommitReady n with
  | Closed => existsb isSendNewCommitReady o
  | Open => false
  end.

(** One action of a node in a run: the code of the action, and the panic
    of a send on the closed channel. *)
Definition step `{Gob} `{Runtime} (a : Action) : M unit := λ n,
  match perform a n with
  | Some (r, n', o) => if sendsOnClosed n o then None else Some (r, n', o)
  | None => None
  end.

(** A run: actions in sequence, each atomic, with the effects in the order
    they occur. *)
Definition run `{Gob} `{Runtime} (actions : list Action) : M unit :=
  forEach actions step.

(** A run of a follower, node 2 of the cluster {1, 2, 3}: the leader of
    term 1 (node 1) replicates [a]; the leader of term 2 (node 3) replicates
    [b] and reports both committed; the dispatcher runs. *)
Definition exampleReply : AppendEntriesReply.t := AppendEntriesReply.mk 0 false 0 0.
Definition exampleTermChange : list Action :=
  [ DoAppendEntries 1
      (AppendEntriesArgs.mk 1 1 0 0 [LogEntry.mk (Other "a") 1] 0) exampleReply;
    DoAppendEntries 2
      (AppendEntriesArgs.mk 2 3 1 1 [LogEntry.mk (Other "b") 2] 2) exampleReply;
    DoSendCommit ].

(** A run of a follower, node 2 of the cluster {1, 2}, in which a request
    of the leader overtakes an earlier one: the leader (node 1, term 1) sends
    [a], then [a, b]; the second request arrives first, the leader learns
    that both entries are stored, commits them and says so in a heartbeat;
    the dispatcher runs; then the first request arrives. *)
Definition exampleOvertaken : list Action :=
  [ DoAppendEntries 1
      (AppendEntriesArgs.mk 1 1 0 0
         [LogEntry.mk (Other "a") 1; LogEntry.mk (Other "b") 1] 0) exampleReply;
    DoAppendEntries 2 (AppendEntriesArgs.mk 1 1 2 1 [] 2) exampleReply;
    DoSendCommit;
    DoAppendEntries 3
      (AppendEntriesArgs.mk 1 1 0 0 [LogEntry.mk (Other "a") 1] 0) exampleReply ].

(** The run [exampleOvertaken] with the dispatcher late: the overtaken
    request arrives before the dispatcher has read the signal of the
    heartbeat. *)
Definition exampleLateDispatch : list Action :=
  [ DoAppendEntries 1
      (AppendEntriesArgs.mk 1 1 0 0
         [LogEntry.mk (Other "a") 1; LogEntry.mk (Other "b") 1] 0) exampleReply;
    DoAppendEntries 2 (AppendEntriesArgs.mk 1 1 2 1 [] 2) exampleReply;
    DoAppendEntries 3
      (AppendEntriesArgs.mk 1 1 0 0 [LogEntry.mk (Other "a") 1] 0) exampleReply;
    DoSendCommit ].

(** A run of node 1 of the cluster {1, 2, 3}: it wins the election of term
    1 with the vote of node 2 and sends its heartbeats; node 2 stands in
    term 2 and node 1 grants it the vote.  The run goes on: the reply of
    node 3 to the heartbeat of term 1 arrives, carrying term 2; node 3
    stands in term 2 too and asks for the vote. *)
Definition exampleVoted : list Action :=
  [ DoStartElection 0;
    DoVoteReply 1 1 (RequestVoteReply.mk 1 true) 1;
    DoRequestVote 2 (RequestVoteArgs.mk 2 2 0 0) (RequestVoteReply.mk 0 false) ].
Definition exampleVotedAgain : list Action :=
  exampleVoted ++
  [ DoAppendReply 3 3 1 1 [] (AppendEntriesReply.mk 2 false 0 0);
    DoRequestVote 4 (RequestVoteArgs.mk 2 3 0 0) (RequestVoteReply.mk 0 false) ].

(** A run of node 1 of the cluster {1, 2}: it wins the election of term 1
    and sends its heartbeat; it is stopped; the reply of node 2 arrives,
    carrying term 2.  Then node 2, leader of term 2, replicates [a] and
    reports it committed. *)
Definition exampleRevived : list Action :=
  [ DoStartElection 0;
    DoVoteReply 1 1 (RequestVoteReply.mk 1 true) 1;
    DoStop;
    DoAppendReply 2 2 1 1 [] (AppendEntriesReply.mk 2 false 0 0) ].
Definition exampleRevivedAppend : AppendEntriesArgs.t :=
  AppendEntriesArgs.mk 2 2 0 0 [LogEntry.mk (Other "a") 2] 1.

(** The calls that a [Dead] node answers without a change. *)
Definition droppedWhenDead (a : Action) : bool :=
  match a with
  | DoRequestVote _ _ _ | DoAppendEntries _ _ _ | DoCountVotes _
  | DoVoteReply _ _ _ _ | DoNewLogEntry _ | DoLeaveCluster _ _ => true
  | _ => false
  end.

(** The records sent on the commit channel, in order. *)
Definition delivered (o : list Effect) : list CommitEntry.t :=
  omap (λ e, match e with SendCommitChan c => Some c | _ => None end) o.
Arguments delivered : simpl never.

(** The indices [1, 2, ..., k]. *)
Definition indicesTo (k : Z) : list Z := seqZ 1 k.

(** The records one round of the dispatcher sends, from a node with
    [lastApplied < commitLength]: one for each cell of the array of the log
    from [lastApplied] to [commitLength]. *)
Definition pendingRecords (n : Node) : list CommitEntry.t :=
  imap (λ i entry,
     CommitEntry.mk (LogEntry.Command entry) (currentTerm n)
       (lastApplied n + Z.of_nat i + 1))
    (take (Z.to_nat (commitLength n - lastApplied n))
       (drop (Z.to_nat (lastApplied n)) (log n ++ logSpare n))).

(** [preserves R E m]: whenever [m] returns, the nodes before and after
    are related by [R] and the effects satisfy [E]. *)
Definition preserves {A : Type} (R : Node → Node → Prop)
    (E : list Effect → Prop) (m : M A) : Prop :=
  ∀ n, match m n with
       | Some (_, n', o) => R n n' ∧ E o
       | None => True
       end.

(** A relation and an effect predicate that compose along a computation. *)
Class Frame (R : Node → Node → Prop) (E : list Effect → Prop) : Prop := {
  frame_refl : ∀ n, R n n;
  frame_trans : ∀ n1 n2 n3, R n1 n2 → R n2 n3 → R n1 n3;
  frame_nil : E [];
  frame_app : ∀ o1 o2, E o1 → E o2 → E (o1 ++ o2)
}.

(** The dispatcher's view of the other code: it leaves [lastApplied] alone
    and sends nothing on the commit channel. *)
Definition sameApplied (n n' : Node) : Prop := lastApplied n' = lastApplied n.
Definition noDelivery (o : list Effect) : Prop := delivered o = [].

(** How a computation may treat the vote: it keeps [currentTerm] and
    [votedFor], or leaves [votedFor] at the sentinel, or leaves it at [c]. *)
Definition voteRule (c : Z) (n n' : Node) : Prop :=
  (currentTerm n' = currentTerm n ∧ votedFor n' = votedFor n)
  ∨ votedFor n' = -1 ∨ votedFor n' = c.
Definition anyEffects (o : list Effect) : Prop := True.

(** ** The election timer *)

(** [electionTimeout], in milliseconds.  [forced] is the test of the
    environment variable; [r3] and [r1500] are what [rand.Intn(3)] and
    [rand.Intn(1500)] return where the code calls them. *)
Definition electionTimeout (forced : bool) (r3 r1500 : Z) : Z :=
  if forced && (0 <? r3) then 1500 else 1500 + r1500.

(** One round of the loop of [runElectionTimer], on a tick of the ticker at
    clock reading [now]; [timeoutDuration] and [termStarted] are the values
    taken before the loop.  The result tells whether the loop goes on. *)
Definition runElectionTimer_tick (timeoutDuration termStarted now : Z) : M bool :=
  node ← get;
  if negb (bool_decide (state node = Candidate))
     && negb (bool_decide (state node = Follower))
  then mret false
  else if negb (termStarted =? currentTerm node) then mret false
  else if timeoutDuration <=? now - electionResetEvent node then
    startElection now ;; mret false
  else mret true.

(** ** The server side of the node *)

Module JoinClusterArgs.
Record t : Type := mk { ServerId : Z; ServerAddr : string }.
End JoinClusterArgs.

Module JoinClusterReply.
Record t : Type := mk { Success : bool; LeaderId : Z; Term : Z }.
End JoinClusterReply.

Module FetchPeerListArgs.
Record t : Type := mk { Term : Z }.
End FetchPeerListArgs.

(** [PeerSet] and [PeerAddress] are Go maps: [None] is the nil map of a
    reply nobody filled in. *)
Module FetchPeerListReply.
Record t : Type :=
  mk { Success : bool; Term : Z; PeerSet : option (gset Z);
       PeerAddress : option (gmap Z string) }.
End FetchPeerListReply.

(** The errors of the server and of the handlers that return one. *)
Inductive rpcError : Type :=
  | DialError
  | CloseError
  | PeerClosed (server : Z) (peer : Z)
  | NotLeader (node : Z) (term : Z)
  | ConnectFailed (peer : Z).

(** The part of [Server] the node uses: the connections, [nil] or a client
    handle for each peer id, and the addresses.  A client handle is a
    number. *)
Module Server.
Record t : Type := mk {
  id : Z;
  peers : gmap Z (option Z);
  peerAddress : gmap Z string
}.

(** [server.peers[peerId]]: [nil] for an absent key too. *)
Definition peer (s : t) (peerId : Z) : option Z := default None (peers s !! peerId).

(** [ConnectToPeer]; [dial] is what [rpc.Dial] returns, [None] for an
    error. *)
Definition ConnectToPeer (dial : option Z) (peerId : Z) (addr : string) (s : t)
    : t * option rpcError :=
  match dial with
  | None => (s, Some DialError)
  | Some client =>
      (mk (id s) (<[peerId := Some client]> (peers s))
          (<[peerId := addr]> (peerAddress s)), None)
  end.

(** [DisconnectPeer]; [closed] is what [peer.Close()] returns. *)
Definition DisconnectPeer (closed : option rpcError) (peerId : Z) (s : t)
    : t * option rpcError :=
  match peer s peerId with
  | Some _ =>
      (mk (id s) (<[peerId := None]> (peers s))
          (<[peerId := String.EmptyString]> (peerAddress s)), closed)
  | None => (s, None)
  end.

(** [DisconnectAll]: every connection that is not [nil] is closed and set
    to [nil]; the keys stay. *)
Definition DisconnectAll (s : t) : t :=
  mk (id s) ((λ _ : option Z, None) <$> peers s) (peerAddress s).

(** [RPC]: the client the call goes out on, or the error for a closed
    peer. *)
Definition RPC (peerId : Z) (s : t) : Z + rpcError :=
  match peer s peerId with
  | Some client => inl client
  | None => inr (PeerClosed (id s) peerId)
  end.

(** [getPeerAddress]: a copy of the address map. *)
Definition getPeerAddress (s : t) : gmap Z string := peerAddress s.
End Server.

(** [JoinCluster], the handler of the node; [dial] is the outcome of the
    dial inside [ConnectToPeer].  Besides the reply it returns the error of
    the handler and the server as the handler leaves it. *)
Definition JoinCluster (dial : option Z) (args : JoinClusterArgs.t)
    (reply : JoinClusterReply.t) (srv : Server.t)
    : M (JoinClusterReply.t * option rpcError * Server.t) :=
  node ← get;
  if negb (bool_decide (state node = Leader)) then
    mret (JoinClusterReply.mk false 0 (currentTerm node),
          Some (NotLeader (id node) (currentTerm node)), srv)
  else
    let reply :=
      JoinClusterReply.mk (JoinClusterReply.Success reply) (id node)
        (currentTerm node) in
    match Server.ConnectToPeer dial (JoinClusterArgs.ServerId args)
            (JoinClusterArgs.ServerAddr args) srv with
    | (srv', Some _) =>
        mret (JoinClusterReply.mk false (JoinClusterReply.LeaderId reply)
                (JoinClusterReply.Term reply),
              Some (ConnectFailed (JoinClusterArgs.ServerId args)), srv')
    | (srv', None) =>
        emit (GoNewLogEntry (AddServer (JoinClusterArgs.ServerId args)
                               (JoinClusterArgs.ServerAddr args))) ;;
        mret (JoinClusterReply.mk true (JoinClusterReply.LeaderId reply)
                (JoinClusterReply.Term reply), None, srv')
    end.

(** [FetchPeerList]. *)
Definition FetchPeerList (args : FetchPeerListArgs.t)
    (reply : FetchPeerListReply.t) (srv : Server.t) : M FetchPeerListReply.t :=
  node ← get;
  if (currentTerm node =? FetchPeerListArgs.Term args)
     && bool_decide (state node = Leader)
  then
    mret (FetchPeerListReply.mk true (currentTerm node) (Some (peerList node))
            (Some (Server.getPeerAddress srv)))
  else
    mret (FetchPeerListReply.mk false (currentTerm node)
            (FetchPeerListReply.PeerSet reply)
            (FetchPeerListReply.PeerAddress reply)).

(** [Report]: the id and the term as [int]s, and whether the node leads. *)
Definition Report : M (Z * Z * bool) :=
  node ← get;
  mret (int64 (id node), int64 (currentTerm node),
        bool_decide (state node = Leader)).

(** ** A codec that round-trips *)

(** A stand-in for [encoding/gob] in the examples: a value is numbered by
    its [Countable] instance and the number is written bit by bit, one byte
    a bit. *)
#[global] Instance command_eq_dec : EqDecision command.
Proof. solve_decision. Defined.

Definition command_to_sum (c : command)
    : (string * Z) + (string + ((Z * string) + (Z + (list Z + option string)))) :=
  match c with
  | Write k v => inl (k, v)
  | Read k => inr (inl k)
  | AddServer i a => inr (inr (inl (i, a)))
  | RemoveServer i => inr (inr (inr (inl i)))
  | RemoveServers ids => inr (inr (inr (inr (inl ids))))
  | Other t => inr (inr (inr (inr (inr (Some t)))))
  | Nil => inr (inr (inr (inr (inr None))))
  end.

Definition command_of_sum
    (s : (string * Z) + (string + ((Z * string) + (Z + (list Z + option string)))))
    : command :=
  match s with
  | inl (k, v) => Write k v
  | inr (inl k) => Read k
  | inr (inr (inl (i, a))) => AddServer i a
  | inr (inr (inr (inl i))) => RemoveServer i
  | inr (inr (inr (inr (inl ids)))) => RemoveServers ids
  | inr (inr (inr (inr (inr (Some t))))) => Other t
  | inr (inr (inr (inr (inr None)))) => Nil
  end.

#[global] Instance command_countable : Countable command.
Proof.
  apply (inj_countable' command_to_sum command_of_sum). by intros [].
Defined.

#[global] Instance LogEntry_eq_dec : EqDecision LogEntry.t.
Proof. solve_decision. Defined.

#[global] Instance LogEntry_countable : Countable LogEntry.t.
Proof.
  apply (inj_countable' (λ e, (LogEntry.Command e, LogEntry.Term e))
           (λ p, LogEntry.mk p.1 p.2)).
  by intros [].
Defined.

Fixpoint bytesOfPositive (p : positive) : list Byte.byte :=
  match p with
  | xH => []
  | xO q => Byte.x00 :: bytesOfPositive q
  | xI q => Byte.x01 :: bytesOfPositive q
  end.

Fixpoint positiveOfBytes (bs : list Byte.byte) : option positive :=
  match bs with
  | [] => Some xH
  | b :: bs' =>
      q ← positiveOfBytes bs';
      if Byte.eqb b Byte.x00 then Some (xO q)
      else if Byte.eqb b Byte.x01 then Some (xI q)
      else None
  end.

Definition bitEncode {A : Type} `{Countable A} (x : A) : list Byte.byte :=
  bytesOfPositive (encode x).
Definition bitDecode {A : Type} `{Countable A} (bs : list Byte.byte) : option A :=
  positiveOfBytes bs ≫= decode.

Definition bitGob : Gob :=
  {| gobEncodeUint64 := bitEncode;
     gobEncodeInt64 := bitEncode;
     gobEncodeLog := bitEncode;
     gobDecodeInt := bitDecode;
     gobDecodeUint64 := bitDecode;
     gobDecodeInt64 := bitDecode;
     gobDecodeLog := bitDecode;
     gobDecodeLogSpare := λ _ _, [] |}.

(** The codec gives back what it was given. *)
Definition roundTrips (G : Gob) : Prop :=
  (∀ t, gobDecodeUint64 (gobEncodeUint64 t) = Some t) ∧
  (∀ v, gobDecodeInt64 (gobEncodeInt64 v) = Some v) ∧
  (∀ l, gobDecodeLog (gobEncodeLog l) = Some l).

(** ** More vocabulary *)

(** The ids a batch of entries removes from the peer set of node [self]:
    those of its [RemoveServer] commands, [self] excepted. *)
Definition removedBy (self : Z) (es : list LogEntry.t) : gset Z :=
  list_to_set
    (omap (λ e, match LogEntry.Command e with
                | RemoveServer sid => if sid =? self then None else Some sid
                | _ => None
                end) es).

(** The node as [AppendEntries] has it when it reaches the consistency
    check with a call of term [term]: a follower of that term, stepped down
    if the term is new or the node was no follower, its timer reset. *)
Definition stepsDown (term : Z) (n : Node) : bool :=
  (currentTerm n <? term) || negb (bool_decide (state n = Follower)).
Definition adoptLeader (now term : Z) (n : Node) : Node :=
  set_electionResetEvent now
    (if stepsDown term n
     then set_votedFor (-1) (set_currentTerm term (set_state Follower n))
     else n).

(** The log, the peer set and the [commitLength] after a request passed the
    consistency check. *)
Definition acceptedLog (args : AppendEntriesArgs.t) (n : Node) : list LogEntry.t :=
  take (Z.to_nat (AppendEntriesArgs.LastLogIndex args)) (log n)
  ++ AppendEntriesArgs.Entries args.
Definition acceptedCommit (args : AppendEntriesArgs.t) (n : Node) : Z :=
  if commitLength n <? AppendEntriesArgs.LeaderCommit args
  then Z.min (float64 (AppendEntriesArgs.LeaderCommit args))
             (float64 (len (acceptedLog args n)))
  else commitLength n.
Definition acceptedSpare `{Runtime} (args : AppendEntriesArgs.t) (n : Node) :
    list LogEntry.t :=
  let k := Z.to_nat (AppendEntriesArgs.LastLogIndex args) in
  appendSpare (take k (log n)) (drop k (log n ++ logSpare n))
    (AppendEntriesArgs.Entries args).
Definition accepted `{Runtime} (args : AppendEntriesArgs.t) (n : Node) : Node :=
  set_commitLength (acceptedCommit args n)
    (set_peerList (peerList n ∖ removedBy (id n) (AppendEntriesArgs.Entries args))
       (set_logSpare (acceptedSpare args n) (set_log (acceptedLog args n) n))).

(** The connections a batch of entries asks the server of node [self] for:
    one for each [AddServer] command, in order, those naming [self]
    excepted. *)
Definition connectsOf (self : Z) (es : list LogEntry.t) : list Effect :=
  omap (λ e, match LogEntry.Command e with
             | AddServer sid addr =>
                 if self =? sid then None else Some (ConnectToPeer sid addr)
             | _ => None
             end) es.

(** What [persistToStorage] leaves in the store of a node. *)
Definition persisted `{Gob} (n : Node) : gmap string (list Byte.byte) :=
  <["log" := gobEncodeLog (log n)]>
    (<["votedFor" := gobEncodeInt64 (votedFor n)]>
       (<["currentTerm" := gobEncodeUint64 (currentTerm n)]> (db n))).

(** The store of the node holds the encodings of its [currentTerm],
    [votedFor] and [log]. *)
Definition stored `{Gob} (n : Node) : Prop :=
  db n !! "currentTerm" = Some (gobEncodeUint64 (currentTerm n)) ∧
  db n !! "votedFor" = Some (gobEncodeInt64 (votedFor n)) ∧
  db n !! "log" = Some (gobEncodeLog (log n)).

(** The node as [becomeFollower] leaves it. *)
Definition follower (now term : Z) (n : Node) : Node :=
  set_electionResetEvent now
    (set_votedFor (-1) (set_currentTerm term (set_state Follower n))).

(** The node as [startElection] leaves it, and as [becomeLeader] leaves
    it. *)
Definition candidate (now : Z) (n : Node) : Node :=
  set_votedFor (int64 (id n))
    (set_electionResetEvent now
       (set_currentTerm (wrap64 (currentTerm n + 1)) (set_state Candidate n))).
Definition leader (n : Node) : Node :=
  set_matchedIndex (gset_to_gmap 0 (peerList n) ∪ matchedIndex n)
    (set_nextIndex (gset_to_gmap (len (log n) + 1) (peerList n) ∪ nextIndex n)
       (set_state Leader n)).

(** More nodes and messages for the examples: node 2 with the peers 1 and
    3; node 1 as a candidate of term 3; a server that is about to join; a
    request that carries membership entries and one that reports two
    entries committed; a heartbeat of term 3 and a request of term 1 from
    node 2; requests for a vote in term 3. *)
Definition exampleMember : Node :=
  mkNode 2 {[1; 3]} ∅ 1 (-1) [exampleEntry "x" 1; exampleEntry "y" 1]
    0 0 Follower 0 ∅ ∅ [] Open.
Definition exampleCandidate : Node :=
  mkNode 1 {[2; 3]} ∅ 3 1 [exampleEntry "x" 1; exampleEntry "y" 2]
    0 0 Candidate 0 ∅ ∅ [] Open.
Definition exampleJoiner : Node :=
  mkNode 4 ∅ ∅ 0 (-1) [] 0 0 Follower 0 ∅ ∅ [] Open.
Definition exampleMembership : AppendEntriesArgs.t :=
  AppendEntriesArgs.mk 1 1 2 1
    [LogEntry.mk (AddServer 4 "d") 1; LogEntry.mk (RemoveServer 3) 1] 0.
Definition exampleCommit : AppendEntriesArgs.t :=
  AppendEntriesArgs.mk 1 1 2 1 [exampleEntry "z" 1] 2.
Definition exampleHeartbeat : AppendEntriesArgs.t :=
  AppendEntriesArgs.mk 3 2 0 0 [] 0.
Definition exampleStale : AppendEntriesArgs.t :=
  AppendEntriesArgs.mk 1 2 2 1 [] 0.
Definition exampleVote : RequestVoteArgs.t := RequestVoteArgs.mk 3 2 1 2.
Definition exampleRival : RequestVoteArgs.t := RequestVoteArgs.mk 3 3 1 2.
Definition exampleServer : Server.t := Server.mk 1 ∅ ∅.

(** ** Rules of the program logic *)

Lemma wp_elim {A} (m : M A) n Q :
  wp m n Q → ∃ a n' o, m n = Some (a, n', o) ∧ Q a n' o.
Proof.
  unfold wp. destruct (m n) as [[[a n'] o]|]; [|done]. eauto.
Qed.

Lemma wp_intro {A} (m : M A) n (Q : A → Node → list Effect → Prop) a n' o :
  m n = Some (a, n', o) → Q a n' o → wp m n Q.
Proof. unfold wp. by intros ->. Qed.

Lemma wp_mono {A} (m : M A) n (Q Q' : A → Node → list Effect → Prop) :
  wp m n Q → (∀ a n' o, Q a n' o → Q' a n' o) → wp m n Q'.
Proof.
  unfold wp. destruct (m n) as [[[a n'] o]|]; [|done]. auto.
Qed.

Lemma wp_ret {A} (a : A) n (Q : A → Node → list Effect → Prop) :
  Q a n [] → wp (mret a) n Q.
Proof. done. Qed.

Lemma wp_bind {A B} (m : M A) (f : A → M B) n Q :
  wp m n (λ a n1 o1, wp (f a) n1 (λ b n2 o2, Q b n2 (o1 ++ o2))) →
  wp (m ≫= f) n Q.
Proof.
  unfold wp, mbind, M_bind. destruct (m n) as [[[a n1] o1]|]; [|done].
  by destruct (f a n1) as [[[b n2] o2]|].
Qed.

Lemma wp_get n (Q : Node → Node → list Effect → Prop) :
  Q n n [] → wp get n Q.
Proof. done. Qed.

Lemma wp_modify f n (Q : unit → Node → list Effect → Prop) :
  Q tt (f n) [] → wp (modify f) n Q.
Proof. done. Qed.

Lemma wp_emit e n (Q : unit → Node → list Effect → Prop) :
  Q tt n [e] → wp (emit e) n Q.
Proof. done. Qed.

Lemma wp_when (b : bool) m n (Q : unit → Node → list Effect → Prop) :
  (b = true → wp m n Q) → (b = false → Q tt n []) → wp (when b m) n Q.
Proof. destruct b; simpl; intros Ht Hf; [by apply Ht | by apply wp_ret, Hf]. Qed.

Lemma wp_index l i n (Q : LogEntry.t → Node → list Effect → Prop) :
  0 ≤ i < len l →
  (∀ e, l !! Z.to_nat i = Some e → Q e n []) →
  wp (index l i) n Q.
Proof.
  intros Hi HQ. unfold wp, index, len in *.
  rewrite (proj2 (Z.leb_le 0 i)) by lia.
  rewrite (proj2 (Z.ltb_lt i _)) by lia. simpl.
  destruct (lookup_lt_is_Some_2 l (Z.to_nat i)) as [e He]; [lia|].
  rewrite He. simpl. by apply HQ.
Qed.

Lemma wp_slice l spare lo hi n
    (Q : list LogEntry.t → Node → list Effect → Prop) :
  0 ≤ lo ≤ hi → hi ≤ len l + len spare →
  Q (take (Z.to_nat (hi - lo)) (drop (Z.to_nat lo) (l ++ spare))) n [] →
  wp (slice l spare lo hi) n Q.
Proof.
  intros [Hlo Hhi] Hlen HQ. unfold wp, slice, len in *.
  rewrite (proj2 (Z.leb_le 0 lo)), (proj2 (Z.leb_le lo hi)),
    (proj2 (Nat.leb_le (Z.to_nat hi) _)) by lia.
  done.
Qed.

(** [s[lo:]] shows the elements from [lo] on and no spare cell. *)
Lemma slice_to_len (l spare : list LogEntry.t) lo :
  0 ≤ lo ≤ len l →
  take (Z.to_nat (len l - lo)) (drop (Z.to_nat lo) (l ++ spare))
  = drop (Z.to_nat lo) l.
Proof.
  unfold len. intros Hlo. rewrite drop_app_le by lia.
  apply take_app_length'. rewrite length_drop. lia.
Qed.

(** The capacity check of a slice expression, on integers. *)
Lemma capacity_check hi (l spare : list LogEntry.t) :
  0 ≤ hi →
  (Z.to_nat hi <=? length l + length spare)%nat = (hi <=? len l + len spare).
Proof.
  intros Hhi. unfold len.
  destruct (Z.leb_spec hi (Z.of_nat (length l) + Z.of_nat (length spare))).
  - apply Nat.leb_le. lia.
  - apply Nat.leb_gt. lia.
Qed.

(** One step of symbolic execution of straight-line code. *)
Ltac wp_step :=
  lazymatch goal with
  | |- wp (_ ≫= _) _ _ => apply wp_bind
  | |- wp (mret _) _ _ => apply wp_ret
  | |- wp get _ _ => apply wp_get
  | |- wp (modify _) _ _ => apply wp_modify
  | |- wp (emit _) _ _ => apply wp_emit
  end; cbv beta.

Ltac wp_run := repeat wp_step.

(** ** Facts about log indices *)

Lemma logAt_lookup l i e :
  1 ≤ i → l !! Z.to_nat (i - 1) = Some e → logAt l i = Some e.
Proof. intros Hi He. unfold logAt. by rewrite (proj2 (Z.leb_le 1 i)). Qed.

Lemma termAt_lookup l i e :
  1 ≤ i → l !! Z.to_nat (i - 1) = Some e → termAt l i = Some (LogEntry.Term e).
Proof. intros Hi He. unfold termAt. by rewrite (logAt_lookup l i e). Qed.

Lemma termAt_Some_range l i t : termAt l i = Some t → 1 ≤ i ≤ len l.
Proof.
  unfold termAt, logAt, len. destruct (Z.leb_spec 1 i); [|done].
  destruct (l !! Z.to_nat (i - 1)) eqn:E; [|done].
  apply lookup_lt_Some in E. lia.
Qed.

Lemma classic_consistent l i t : consistentWith l i t ∨ ¬ consistentWith l i t.
Proof.
  unfold consistentWith.
  destruct (decide (i = 0)); [by left; left|].
  destruct (decide (i ≤ len l)); [|right; intros [?|[? _]]; done].
  destruct (decide (termAt l i = Some t)); [by left; right|].
  right. intros [?|[_ ?]]; done.
Qed.

Lemma delivered_app o1 o2 : delivered (o1 ++ o2) = delivered o1 ++ delivered o2.
Proof. apply omap_app. Qed.

Section Verification.
Context `{Gob} `{Runtime}.

(** ** The [AppendEntries] handler *)

Lemma wp_AppendEntries_consistent args n :
  uint64 (AppendEntriesArgs.LastLogIndex args) →
  wp (AppendEntries_consistent args) n (λ ok n' o,
    n' = n ∧ o = [] ∧
    (ok = true ↔ consistentWith (log n) (AppendEntriesArgs.LastLogIndex args)
                   (AppendEntriesArgs.LastLogTerm args))).
Proof.
  intros [Hi _]. unfold AppendEntries_consistent, consistentWith. wp_run.
  destruct (Z.eqb_spec (AppendEntriesArgs.LastLogIndex args) 0) as [E0|E0].
  { wp_run. tauto. }
  destruct (Z.leb_spec (AppendEntriesArgs.LastLogIndex args) (len (log n)))
    as [Hle|Hgt].
  - wp_step. apply wp_index; [lia|]. intros e He. wp_run.
    apply termAt_lookup in He; [|lia]. rewrite He.
    split_and!; [done..|]. rewrite Z.eqb_eq. split.
    + intros ->. auto.
    + intros [?|[_ [= ?]]]; done.
  - wp_run. split_and!; [done..|]. split; [done|]. intros [?|[? _]]; lia.
Qed.

Lemma wp_recoveryScan l rt k n :
  Z.of_nat k ≤ len l →
  wp (recoveryScan l rt k) n (λ ri n' o,
    n' = n ∧ o = [] ∧ scanResult l rt (Z.of_nat k) ri).
Proof.
  induction k as [|k IH]; intros Hk.
  - simpl. wp_run. split_and!; [done..|]. right. split; [|done]. lia.
  - cbn [recoveryScan]. wp_step. apply wp_index; [lia|]. intros e He.
    apply termAt_lookup in He; [|lia].
    destruct (Z.eqb_spec (LogEntry.Term e) rt) as [Et|Et]; cbn [negb].
    + eapply wp_mono; [apply IH; lia|]. intros ri n' o (-> & -> & Hs).
      split_and!; [done..|].
      destruct Hs as [(i & Hi & Hd & Ha & ->)|[Ha ->]]; [left|right].
      * exists i. split; [lia|]. split; [done|]. split; [|done]. intros j Hj.
        destruct (decide (j = Z.of_nat (S k))) as [->|]; [by rewrite He, Et|].
        apply Ha. lia.
      * split; [|done]. intros j Hj.
        destruct (decide (j = Z.of_nat (S k))) as [->|]; [by rewrite He, Et|].
        apply Ha. lia.
    + wp_run. split_and!; [done..|]. left. exists (Z.of_nat (S k)).
      split; [lia|]. split; [eauto|]. split; [intros; lia|done].
Qed.

Lemma wp_AppendEntries_reject args reply n :
  uint64 (AppendEntriesArgs.LastLogIndex args) →
  ¬ consistentWith (log n) (AppendEntriesArgs.LastLogIndex args)
      (AppendEntriesArgs.LastLogTerm args) →
  wp (AppendEntries_reject args reply) n (λ r n' o,
    n' = n ∧ o = [] ∧
    AppendEntriesReply.Success r = AppendEntriesReply.Success reply ∧
    AppendEntriesReply.Term r = AppendEntriesReply.Term reply ∧
    hintsFor (log n) (AppendEntriesArgs.LastLogIndex args) r).
Proof.
  intros [Hi _] Hno. unfold AppendEntries_reject, hintsFor. wp_run.
  assert (AppendEntriesArgs.LastLogIndex args ≠ 0) as Hnz.
  { intros E. apply Hno. by left. }
  destruct (Z.ltb_spec (len (log n)) (AppendEntriesArgs.LastLogIndex args))
    as [Hgt|Hle].
  - wp_run. done.
  - wp_step. apply wp_index; [lia|]. intros e He. wp_step.
    eapply wp_mono; [apply wp_recoveryScan; lia|].
    intros ri n' o (-> & -> & Hs). wp_run. cbn.
    split_and!; [done..| |].
    + apply termAt_lookup in He; [done|lia].
    + by rewrite Z2Nat.id in Hs by lia.
Qed.

(** Applying the membership commands of a batch changes the peer set only,
    and its only effects are connections to new peers. *)
Lemma wp_applyMembership es n :
  wp (forEach es applyMembership) n (λ _ n' o,
    n' = set_peerList (peerList n') n ∧ delivered o = []).
Proof.
  revert n. induction es as [|e es IH]; intros n; simpl.
  { apply wp_ret. by destruct n. }
  assert (Hk : ∀ n1 o1, n1 = set_peerList (peerList n1) n → delivered o1 = [] →
            wp (forEach es applyMembership) n1 (λ _ n2 o2,
              n2 = set_peerList (peerList n2) n ∧ delivered (o1 ++ o2) = [])).
  { intros n1 o1 Hn1 Ho1. eapply wp_mono; [apply IH|].
    intros _ n2 o2 [Hn2 Ho2]. split.
    - rewrite Hn2 at 1. by rewrite Hn1 at 1.
    - by rewrite delivered_app, Ho1, Ho2. }
  apply wp_bind. unfold applyMembership. wp_step. wp_step.
  destruct (LogEntry.Command e);
    try (wp_step; apply Hk; [by destruct n | done]);
    (apply wp_when; intros _; [wp_step|]; (apply Hk; [by destruct n|done])).
Qed.

Lemma wp_AppendEntries_accept args reply n :
  wp (AppendEntries_accept args reply) n (λ r n' o,
    r = SetReply.AE_Success true reply ∧
    log n' = take (Z.to_nat (AppendEntriesArgs.LastLogIndex args)) (log n)
             ++ AppendEntriesArgs.Entries args ∧
    n' = set_commitLength (commitLength n')
           (set_peerList (peerList n')
              (set_logSpare (logSpare n') (set_log (log n') n))) ∧
    commitLength n' =
      (if commitLength n <? AppendEntriesArgs.LeaderCommit args
       then Z.min (float64 (AppendEntriesArgs.LeaderCommit args))
                  (float64 (len (log n')))
       else commitLength n) ∧
    delivered o = []).
Proof.
  unfold AppendEntries_accept. wp_step. wp_step. wp_step.
  eapply wp_mono; [apply wp_applyMembership|].
  intros _ n1 o1 [Hn1 Ho1]. wp_step. wp_step. wp_step.
  rewrite Hn1. cbn [commitLength set_peerList set_log set_logSpare log].
  destruct (commitLength n <? AppendEntriesArgs.LeaderCommit args);
    cbn [when]; wp_run; cbn; rewrite ?delivered_app, Ho1; by destruct n.
Qed.

(** The state in which the handler reaches the consistency check, when the
    call is not dropped and its term is not stale. *)
Lemma wp_AppendEntries_live now args reply n :
  state n ≠ Dead →
  AppendEntriesArgs.LeaderId args ∈ peerList n →
  currentTerm n ≤ AppendEntriesArgs.Term args →
  uint64 (AppendEntriesArgs.LastLogIndex args) →
  wp (AppendEntries now args reply) n (λ r n' o,
    AppendEntriesReply.Term r = AppendEntriesArgs.Term args ∧
    currentTerm n' = AppendEntriesArgs.Term args ∧
    state n' = Follower ∧ electionResetEvent n' = now ∧
    lastApplied n' = lastApplied n ∧ delivered o = [] ∧
    (consistentWith (log n) (AppendEntriesArgs.LastLogIndex args)
       (AppendEntriesArgs.LastLogTerm args) →
     AppendEntriesReply.Success r = true ∧
     AppendEntriesReply.RecoveryIndex r = AppendEntriesReply.RecoveryIndex reply ∧
     AppendEntriesReply.RecoveryTerm r = AppendEntriesReply.RecoveryTerm reply ∧
     log n' = take (Z.to_nat (AppendEntriesArgs.LastLogIndex args)) (log n)
              ++ AppendEntriesArgs.Entries args ∧
     commitLength n' =
       (if commitLength n <? AppendEntriesArgs.LeaderCommit args
        then Z.min (float64 (AppendEntriesArgs.LeaderCommit args))
                   (float64 (len (log n')))
        else commitLength n)) ∧
    (¬ consistentWith (log n) (AppendEntriesArgs.LastLogIndex args)
         (AppendEntriesArgs.LastLogTerm args) →
     AppendEntriesReply.Success r = false ∧
     log n' = log n ∧ commitLength n' = commitLength n ∧
     peerList n' = peerList n ∧
     hintsFor (log n) (AppendEntriesArgs.LastLogIndex args) r)).
Proof.
  intros Hd Hp Ht Hi. unfold AppendEntries. wp_step. wp_step.
  rewrite bool_decide_eq_false_2 by done.
  unfold PeerSet.Exists. rewrite bool_decide_eq_true_2 by done.
  cbn [orb negb]. wp_step.
  (* the two step-downs leave a follower of the term of the call *)
  set (n1 := if currentTerm n <? AppendEntriesArgs.Term args
             then set_electionResetEvent now (set_votedFor (-1)
                    (set_currentTerm (AppendEntriesArgs.Term args)
                       (set_state Follower n)))
             else n).
  assert (Hn1 : log n1 = log n ∧ commitLength n1 = commitLength n ∧
                lastApplied n1 = lastApplied n ∧ peerList n1 = peerList n ∧
                currentTerm n1 = AppendEntriesArgs.Term args).
  { subst n1. destruct (Z.ltb_spec (currentTerm n) (AppendEntriesArgs.Term args));
      cbn; split_and!; try done. lia. }
  destruct Hn1 as (Hl1 & Hc1 & Ha1 & Hp1 & Ht1).
  apply (wp_mono _ _ (λ _ n' o, n' = n1 ∧ delivered o = [])).
  { subst n1. apply wp_when; intros ->; [|done].
    unfold becomeFollower. wp_run. done. }
  intros _ ? o1 [-> Ho1]. wp_step. wp_step. wp_step.
  rewrite Ht1, Z.eqb_refl. wp_step.
  set (n2 := if negb (bool_decide (state n1 = Follower))
             then set_electionResetEvent now (set_votedFor (-1)
                    (set_currentTerm (AppendEntriesArgs.Term args)
                       (set_state Follower n1)))
             else n1).
  assert (Hn2 : log n2 = log n ∧ commitLength n2 = commitLength n ∧
                lastApplied n2 = lastApplied n ∧ peerList n2 = peerList n ∧
                currentTerm n2 = AppendEntriesArgs.Term args ∧
                state n2 = Follower).
  { subst n2. case_bool_decide as Hs; cbn; split_and!; done. }
  destruct Hn2 as (Hl2 & Hc2 & Ha2 & Hp2 & Ht2 & Hs2).
  apply (wp_mono _ _ (λ _ n' o, n' = n2 ∧ delivered o = [])).
  { subst n2. apply wp_when; intros ->; [|done].
    unfold becomeFollower. wp_run. done. }
  intros _ ? o2 [-> Ho2]. wp_step. wp_step. wp_step.
  eapply wp_mono; [by apply wp_AppendEntries_consistent|].
  cbn [log set_electionResetEvent]. rewrite Hl2.
  intros ok ? ? (-> & -> & Hok).
  destruct ok.
  - eapply wp_mono; [apply wp_AppendEntries_accept|].
    cbn [log commitLength set_electionResetEvent]. rewrite Hl2, Hc2.
    intros r n3 o3 (-> & Hl3 & Hn3 & Hc3 & Ho3).
    wp_step. wp_step. unfold persistToStorage. wp_run.
    rewrite Hn3. cbn. rewrite Hl3.
    split_and!; try done.
    + by rewrite !delivered_app, Ho1, Ho2, Ho3.
    + intros _. split_and!; try done. by rewrite <- Hl3.
    + intros Hno. destruct Hno. by apply Hok.
  - eapply wp_mono; [apply wp_AppendEntries_reject; [done|]|].
    { cbn [log set_electionResetEvent]. rewrite Hl2. intros Hc.
      by apply Hok in Hc. }
    cbn [log set_electionResetEvent]. rewrite Hl2.
    intros r ? ? (-> & -> & Hsr & Htr & Hh).
    wp_step. wp_step. unfold persistToStorage. wp_run. cbn.
    split_and!; try done.
    + by rewrite !delivered_app, Ho1, Ho2.
    + intros Hc. apply Hok in Hc. done.
Qed.

(** C1.  An [AppendEntries] call received by a node that is not [Dead] and
    has the sender in its peer set, with [args.Term] equal to the node's
    [currentTerm], returns, and its reply has [Success = true] exactly when
    [args.LastLogIndex = 0], or [args.LastLogIndex <= len(log)] and the entry
    at the 1-based index [args.LastLogIndex] has term [args.LastLogTerm]; on
    success the log of the node becomes its prefix of length
    [args.LastLogIndex] followed by [args.Entries]. *)
Theorem AppendEntries_success_iff_consistent now args reply node :
  state node ≠ Dead →
  AppendEntriesArgs.LeaderId args ∈ peerList node →
  AppendEntriesArgs.Term args = currentTerm node →
  uint64 (AppendEntriesArgs.LastLogIndex args) →
  ∃ reply' node' out,
    AppendEntries now args reply node = Some (reply', node', out) ∧
    (AppendEntriesReply.Success reply' = true ↔
       AppendEntriesArgs.LastLogIndex args = 0 ∨
       (AppendEntriesArgs.LastLogIndex args ≤ len (log node) ∧
        termAt (log node) (AppendEntriesArgs.LastLogIndex args)
          = Some (AppendEntriesArgs.LastLogTerm args))) ∧
    (AppendEntriesReply.Success reply' = true →
       log node' = take (Z.to_nat (AppendEntriesArgs.LastLogIndex args)) (log node)
                   ++ AppendEntriesArgs.Entries args).
Proof.
  intros Hd Hp Ht Hi.
  destruct (wp_elim _ _ _ (wp_AppendEntries_live now args reply node Hd Hp
              ltac:(lia) Hi))
    as (r & n' & o & Hrun & _ & _ & _ & _ & _ & _ & Hyes & Hno).
  exists r, n', o. split; [done|]. fold (consistentWith (log node)
    (AppendEntriesArgs.LastLogIndex args) (AppendEntriesArgs.LastLogTerm args)).
  split.
  - split.
    + intros Hs. destruct (classic_consistent (log node)
        (AppendEntriesArgs.LastLogIndex args) (AppendEntriesArgs.LastLogTerm args))
        as [Hc|Hc]; [done|].
      apply Hno in Hc as [Hf _]. congruence.
    + intros Hc. by apply Hyes in Hc as [? _].
  - intros Hs. destruct (classic_consistent (log node)
      (AppendEntriesArgs.LastLogIndex args) (AppendEntriesArgs.LastLogTerm args))
      as [Hc|Hc].
    + by apply Hyes in Hc as (_ & _ & _ & ? & _).
    + apply Hno in Hc as [Hf _]. congruence.
Qed.

(** C4.  When such a call fails the log-consistency check: if
    [args.LastLogIndex] exceeds the length of the log, the reply carries
    [RecoveryIndex = len(log)+1] and [RecoveryTerm = 0]; otherwise
    [RecoveryTerm] is the term of the local entry at [args.LastLogIndex], and
    [RecoveryIndex] is one plus the closest index below [args.LastLogIndex]
    whose term differs from [RecoveryTerm], and 1 when no index below has a
    different term. *)
Theorem AppendEntries_recovery_hints now args reply node :
  state node ≠ Dead →
  AppendEntriesArgs.LeaderId args ∈ peerList node →
  AppendEntriesArgs.Term args = currentTerm node →
  uint64 (AppendEntriesArgs.LastLogIndex args) →
  ¬ (AppendEntriesArgs.LastLogIndex args = 0 ∨
     (AppendEntriesArgs.LastLogIndex args ≤ len (log node) ∧
      termAt (log node) (AppendEntriesArgs.LastLogIndex args)
        = Some (AppendEntriesArgs.LastLogTerm args))) →
  ∃ reply' node' out,
    AppendEntries now args reply node = Some (reply', node', out) ∧
    AppendEntriesReply.Success reply' = false ∧
    (len (log node) < AppendEntriesArgs.LastLogIndex args →
       AppendEntriesReply.RecoveryIndex reply' = len (log node) + 1 ∧
       AppendEntriesReply.RecoveryTerm reply' = 0) ∧
    (AppendEntriesArgs.LastLogIndex args ≤ len (log node) →
       let rt := AppendEntriesReply.RecoveryTerm reply' in
       termAt (log node) (AppendEntriesArgs.LastLogIndex args) = Some rt ∧
       ((∃ i, 1 ≤ i < AppendEntriesArgs.LastLogIndex args ∧
              (∃ t, termAt (log node) i = Some t ∧ t ≠ rt) ∧
              (∀ j, i < j < AppendEntriesArgs.LastLogIndex args →
                    termAt (log node) j = Some rt) ∧
              AppendEntriesReply.RecoveryIndex reply' = i + 1)
        ∨ ((∀ j, 1 ≤ j < AppendEntriesArgs.LastLogIndex args →
                 termAt (log node) j = Some rt) ∧
           AppendEntriesReply.RecoveryIndex reply' = 1))).
Proof.
  intros Hd Hp Ht Hi Hc.
  destruct (wp_elim _ _ _ (wp_AppendEntries_live now args reply node Hd Hp
              ltac:(lia) Hi))
    as (r & n' & o & Hrun & _ & _ & _ & _ & _ & _ & _ & Hno).
  destruct (Hno Hc) as (Hf & _ & _ & _ & Hh).
  exists r, n', o. split; [done|]. split; [done|].
  unfold hintsFor in Hh.
  destruct (Z.ltb_spec (len (log node)) (AppendEntriesArgs.LastLogIndex args))
    as [Hgt|Hle].
  - split; [done|]. intros; lia.
  - split; [intros; lia|]. intros _. cbv zeta. destruct Hh as [Hrt Hs].
    split; [done|].
    destruct Hs as [(i & Hir & Hd' & Ha & Hri)|[Ha Hri]]; [left|right].
    + exists i. split; [lia|]. split; [done|]. split; [|done].
      intros j Hj. apply Ha. lia.
    + split; [|done]. intros j Hj. apply Ha. lia.
Qed.

(** ** The [RequestVote] handler *)

Lemma lastOf_index l i t : lastOf l i t → i = Z.max 0 (len l - 1).
Proof.
  unfold lastOf, len. destruct (last l) as [e|] eqn:E; intros [-> _].
  - apply last_Some in E as [l' ->]. rewrite length_app. simpl. lia.
  - apply last_None in E as ->. done.
Qed.

Lemma wp_lastLogIndexAndTerm n :
  wp lastLogIndexAndTerm n (λ r n' o,
    n' = n ∧ o = [] ∧ lastOf (log n) r.1 r.2).
Proof.
  unfold lastLogIndexAndTerm, lastOf. wp_run. rewrite last_lookup.
  destruct (Z.ltb_spec 0 (len (log n))) as [Hpos|Hemp].
  - wp_step. apply wp_index; [lia|]. intros e He. wp_run.
    unfold len in *.
    replace (Z.to_nat (Z.of_nat (length (log n)) - 1))
      with (pred (length (log n))) in He by lia.
    by rewrite He.
  - wp_run. unfold len in *. destruct (log n); [done|simpl in *; lia].
Qed.

(** C2, as amended.  A [RequestVote] call received by a node that is not
    [Dead] and has the candidate in its peer set returns.  With [term1] and
    [vote1] the [currentTerm] and [votedFor] of the node after the step-down
    on a higher [args.Term] (if any), and [lastLogIndex], [lastLogTerm] the
    local values of [lastLogIndexAndTerm], the vote is granted exactly when
    [args.Term = term1], [vote1] is [-1] or the candidate (as stored,
    [int64] of its id), and [args.LastLogTerm > lastLogTerm], or the two are
    equal and [args.LastLogIndex >= lastLogIndex].  The local
    [lastLogIndex] is the 0-based position [len(log) - 1] of the last entry,
    and 0 for the empty log: it is one less than the 1-based index of the
    last entry, which is the number of entries.  On a grant [votedFor] is the
    candidate and [electionResetEvent] is the time of the call. *)
Theorem RequestVote_grant_iff now args reply node :
  state node ≠ Dead →
  RequestVoteArgs.CandidateId args ∈ peerList node →
  ∃ reply' node' out lastLogIndex lastLogTerm,
    RequestVote now args reply node = Some (reply', node', out) ∧
    lastLogIndexAndTerm node = Some ((lastLogIndex, lastLogTerm), node, []) ∧
    lastOf (log node) lastLogIndex lastLogTerm ∧
    lastLogIndex = Z.max 0 (len (log node) - 1) ∧
    let term1 := Z.max (currentTerm node) (RequestVoteArgs.Term args) in
    let vote1 :=
      if currentTerm node <? RequestVoteArgs.Term args then -1
      else votedFor node in
    let candidate := int64 (RequestVoteArgs.CandidateId args) in
    (RequestVoteReply.VoteGranted reply' = true ↔
       RequestVoteArgs.Term args = term1 ∧
       (vote1 = -1 ∨ vote1 = candidate) ∧
       (lastLogTerm < RequestVoteArgs.LastLogTerm args ∨
        (RequestVoteArgs.LastLogTerm args = lastLogTerm ∧
         lastLogIndex ≤ RequestVoteArgs.LastLogIndex args))) ∧
    (RequestVoteReply.VoteGranted reply' = true →
       votedFor node' = candidate ∧ electionResetEvent node' = now) ∧
    currentTerm node' = term1 ∧ RequestVoteReply.Term reply' = term1.
Proof.
  intros Hd Hp.
  destruct (wp_elim _ _ _ (wp_lastLogIndexAndTerm node))
    as ([i t] & ? & ? & Hlast & -> & -> & Hof). cbn [fst snd] in Hof.
  cut (wp (RequestVote now args reply) node (λ reply' node' _,
    let term1 := Z.max (currentTerm node) (RequestVoteArgs.Term args) in
    let vote1 :=
      if currentTerm node <? RequestVoteArgs.Term args then -1
      else votedFor node in
    let candidate := int64 (RequestVoteArgs.CandidateId args) in
    (RequestVoteReply.VoteGranted reply' = true ↔
       RequestVoteArgs.Term args = term1 ∧
       (vote1 = -1 ∨ vote1 = candidate) ∧
       (t < RequestVoteArgs.LastLogTerm args ∨
        (RequestVoteArgs.LastLogTerm args = t ∧
         i ≤ RequestVoteArgs.LastLogIndex args))) ∧
    (RequestVoteReply.VoteGranted reply' = true →
       votedFor node' = candidate ∧ electionResetEvent node' = now) ∧
    currentTerm node' = term1 ∧ RequestVoteReply.Term reply' = term1)).
  { intros (r & n' & o & Hrun & HQ)%wp_elim. exists r, n', o, i, t.
    split_and!; try done. by apply lastOf_index in Hof. }
  unfold RequestVote. wp_step. wp_step.
  rewrite bool_decide_eq_false_2 by done.
  unfold PeerSet.Exists. rewrite bool_decide_eq_true_2 by done.
  cbn [orb negb]. wp_step.
  apply (wp_intro _ _ _ _ _ _ Hlast). wp_step.
  set (n1 := if currentTerm node <? RequestVoteArgs.Term args
             then set_electionResetEvent now (set_votedFor (-1)
                    (set_currentTerm (RequestVoteArgs.Term args)
                       (set_state Follower node)))
             else node).
  apply (wp_mono _ _ (λ _ n' _, n' = n1)).
  { subst n1. apply wp_when; intros ->; [|done].
    unfold becomeFollower. wp_run. done. }
  intros _ ? _ ->. wp_step. wp_step. wp_step.
  assert (Hn1 : currentTerm n1
                = Z.max (currentTerm node) (RequestVoteArgs.Term args) ∧
                votedFor n1 = (if currentTerm node <? RequestVoteArgs.Term args
                               then -1 else votedFor node)).
  { subst n1. destruct (Z.ltb_spec (currentTerm node) (RequestVoteArgs.Term args));
      cbn; split; try done; lia. }
  destruct Hn1 as [Ht1 Hv1]. cbv zeta. rewrite <- Ht1, <- Hv1.
  destruct ((RequestVoteArgs.Term args =? currentTerm n1)
            && ((votedFor n1 =? -1)
                || (votedFor n1 =? int64 (RequestVoteArgs.CandidateId args)))
            && ((t <? RequestVoteArgs.LastLogTerm args)
                || ((RequestVoteArgs.LastLogTerm args =? t)
                    && (i <=? RequestVoteArgs.LastLogIndex args)))) eqn:Hc.
  - unfold persistToStorage. wp_run. cbn.
    apply andb_prop in Hc as [[Ha Hb]%andb_prop Hu].
    apply Z.eqb_eq in Ha. apply orb_prop in Hb. apply orb_prop in Hu.
    split_and!; try done. split; [intros _|done].
    split_and!; [done| |].
    + destruct Hb as [?%Z.eqb_eq|?%Z.eqb_eq]; auto.
    + destruct Hu as [?%Z.ltb_lt|[?%Z.eqb_eq ?%Z.leb_le]%andb_prop]; lia.
  - unfold persistToStorage. wp_run. cbn.
    split_and!; try done. split; [done|]. intros (Ha & Hb & Hu).
    apply not_true_iff_false in Hc. destruct Hc.
    apply andb_true_intro. split; [apply andb_true_intro; split|].
    + by apply Z.eqb_eq.
    + apply orb_true_intro. destruct Hb; [left|right]; by apply Z.eqb_eq.
    + apply orb_true_intro. destruct Hu as [?|[? ?]]; [left|right].
      * apply Z.ltb_lt. lia.
      * apply andb_true_intro. split; [by apply Z.eqb_eq|apply Z.leb_le; lia].
Qed.

(** ** Commit advancement at the leader *)

Lemma matchCount_matched i node : matchCount i node = 1 + matched node i.
Proof.
  unfold matchCount, matched.
  apply (set_fold_ind_L (λ r (X : gset Z),
    r = 1 + Z.of_nat (size (filter (λ p, i ≤ mapGet (matchedIndex node) p) X)))).
  - rewrite filter_empty_L by apply _. by rewrite size_empty.
  - intros x X r Hx ->. rewrite filter_union_L by apply _.
    rewrite size_union.
    + rewrite filter_singleton_L by apply _.
      destruct (Z.leb_spec i (mapGet (matchedIndex node) x)) as [Hle|Hgt].
      * rewrite decide_True by done. rewrite size_singleton. lia.
      * rewrite decide_False by lia. rewrite size_empty. lia.
    + intros y [_ ->%elem_of_singleton]%elem_of_filter [_ ?]%elem_of_filter.
      done.
Qed.

Lemma set_commitLength_id n : set_commitLength (commitLength n) n = n.
Proof. by destruct n. Qed.

(** A commit loop over [i, i + count) from a node [n0] whose [commitLength]
    is [c]: each round either moves [commitLength] to its index (when [P]
    holds there) or leaves the node alone.  After the loop [commitLength] is
    the last index of the range with [P], or [c] when there is none. *)
Lemma wp_forRange_commit (body : Z → M unit) (P : Z → Prop) n0 lo hi :
  (∀ i c, lo ≤ i < hi →
     wp (body i) (set_commitLength c n0) (λ _ n' o,
       o = [] ∧ ((P i ∧ n' = set_commitLength i n0)
                 ∨ (¬ P i ∧ n' = set_commitLength c n0)))) →
  ∀ count i c,
    lo ≤ i → i + Z.of_nat count ≤ hi →
    wp (forRange body i count) (set_commitLength c n0) (λ _ n' o,
      o = [] ∧ ∃ c', n' = set_commitLength c' n0 ∧
      ((c' = c ∧ ∀ j, i ≤ j < i + Z.of_nat count → ¬ P j)
       ∨ (i ≤ c' < i + Z.of_nat count ∧ P c' ∧
          ∀ j, c' < j < i + Z.of_nat count → ¬ P j))).
Proof.
  intros Hbody. induction count as [|count IH]; intros i c Hlo Hhi.
  - simpl. wp_run. split; [done|]. exists c. split; [done|]. left.
    split; [done|]. lia.
  - cbn [forRange]. wp_step.
    eapply wp_mono; [apply (Hbody i c); lia|].
    intros _ n1 o1 [-> Hcase].
    destruct Hcase as [[HPi ->]|[HPi ->]].
    + eapply wp_mono; [apply (IH (i + 1) i); lia|].
      intros _ n2 o2 (-> & c' & -> & Hres). split; [done|].
      exists c'. split; [done|]. right.
      destruct Hres as [[-> Hnone]|(Hr & HP & Hafter)].
      * split; [lia|]. split; [done|]. intros j Hj. apply Hnone. lia.
      * split; [lia|]. split; [done|]. intros j Hj. apply Hafter. lia.
    + eapply wp_mono; [apply (IH (i + 1) c); lia|].
      intros _ n2 o2 (-> & c' & -> & Hres). split; [done|].
      exists c'. split; [done|].
      destruct Hres as [[-> Hnone]|(Hr & HP & Hafter)]; [left|right].
      * split; [done|]. intros j Hj.
        destruct (decide (j = i)) as [->|]; [done|]. apply Hnone. lia.
      * split; [lia|]. split; [done|]. intros j Hj. apply Hafter. lia.
Qed.

Lemma wp_commitQuorumBody n0 i c :
  1 ≤ i ≤ len (log n0) →
  wp (commitQuorumBody i) (set_commitLength c n0) (λ _ n' o,
    o = [] ∧
    (((termAt (log n0) i = Some (currentTerm n0) ∧ quorumAt n0 i) ∧
      n' = set_commitLength i n0)
     ∨ (¬ (termAt (log n0) i = Some (currentTerm n0) ∧ quorumAt n0 i) ∧
        n' = set_commitLength c n0))).
Proof.
  intros Hi. unfold commitQuorumBody. wp_run. cbn [log set_commitLength].
  apply wp_index; [lia|]. intros e He. apply termAt_lookup in He; [|lia].
  cbn [currentTerm peerList set_commitLength].
  rewrite matchCount_matched. unfold quorumAt.
  replace (matched (set_commitLength c n0) i) with (matched n0 i) by done.
  destruct (Z.eqb_spec (LogEntry.Term e) (currentTerm n0)) as [Et|Et];
    cbn [when].
  - destruct (Z.ltb_spec (PeerSet.Size (peerList n0) + 1)
                ((1 + matched n0 i) * 2)) as [Hq|Hq]; cbn [when]; wp_run.
    + split; [done|]. left. split; [|by destruct n0].
      rewrite He, Et. split; [done|lia].
    + split; [done|]. right. split; [|done]. intros [_ ?]. lia.
  - wp_run. split; [done|]. right. split; [|done]. rewrite He.
    intros [[= ?] _]. done.
Qed.

Lemma wp_commitAloneBody n0 i c :
  1 ≤ i ≤ len (log n0) →
  wp (commitAloneBody i) (set_commitLength c n0) (λ _ n' o,
    o = [] ∧
    ((termAt (log n0) i = Some (currentTerm n0) ∧ n' = set_commitLength i n0)
     ∨ (¬ termAt (log n0) i = Some (currentTerm n0) ∧
        n' = set_commitLength c n0))).
Proof.
  intros Hi. unfold commitAloneBody. wp_run. cbn [log set_commitLength].
  apply wp_index; [lia|]. intros e He. apply termAt_lookup in He; [|lia].
  cbn [currentTerm set_commitLength].
  destruct (Z.eqb_spec (LogEntry.Term e) (currentTerm n0)) as [Et|Et];
    cbn [when]; wp_run.
  - split; [done|]. left. split; [|by destruct n0]. by rewrite He, Et.
  - split; [done|]. right. split; [|done]. rewrite He. intros [= ?]. done.
Qed.

(** The whole commit loop, from [commitLength + 1] to [len(log)]. *)
Lemma wp_commit_loop (body : Z → M unit) (P : Z → Prop) n0 c :
  (∀ i c, 1 ≤ i < len (log n0) + 1 →
     wp (body i) (set_commitLength c n0) (λ _ n' o,
       o = [] ∧ ((P i ∧ n' = set_commitLength i n0)
                 ∨ (¬ P i ∧ n' = set_commitLength c n0)))) →
  c = commitLength n0 → 0 ≤ c →
  wp (forRange body (c + 1) (Z.to_nat (len (log n0) - c))) n0 (λ _ n' o,
      o = [] ∧ ∃ c', n' = set_commitLength c' n0 ∧
      ((c' = c ∧ ∀ j, c < j ≤ len (log n0) → ¬ P j)
       ∨ (c < c' ≤ len (log n0) ∧ P c' ∧
          ∀ j, c' < j ≤ len (log n0) → ¬ P j))).
Proof.
  intros Hbody Hcn Hc.
  cut (wp (forRange body (c + 1) (Z.to_nat (len (log n0) - c)))
         (set_commitLength c n0) (λ _ n' o,
      o = [] ∧ ∃ c', n' = set_commitLength c' n0 ∧
      ((c' = c ∧ ∀ j, c < j ≤ len (log n0) → ¬ P j)
       ∨ (c < c' ≤ len (log n0) ∧ P c' ∧
          ∀ j, c' < j ≤ len (log n0) → ¬ P j)))).
  { by rewrite Hcn, set_commitLength_id. }
  clear Hcn.
  destruct (Z.le_gt_cases (len (log n0)) c) as [Hle|Hgt].
  - replace (Z.to_nat (len (log n0) - c)) with O by lia. simpl. wp_run.
    split; [done|]. exists c. split; [done|]. left. split; [done|]. lia.
  - eapply wp_mono.
    { apply (wp_forRange_commit body P n0 1 (len (log n0) + 1) Hbody); lia. }
    intros _ n' o (-> & c' & -> & Hres). split; [done|]. exists c'.
    split; [done|].
    destruct Hres as [[-> Hnone]|(Hr & HP & Hafter)]; [left|right].
    + split; [done|]. intros j Hj. apply Hnone. lia.
    + split; [lia|]. split; [done|]. intros j Hj. apply Hafter. lia.
Qed.

Lemma mapGet_insert (m : gmap Z Z) k v : mapGet (<[k:=v]> m) k = v.
Proof. unfold mapGet. by rewrite lookup_insert_eq. Qed.

Lemma wrap64_small x : 0 ≤ x < 2 ^ 64 → wrap64 x = x.
Proof. apply Z.mod_small. Qed.

(** The node after a successful reply from [peer], before the commit loop. *)
Lemma wp_leaderSendAppendEntries_reply_success
    now peer leadershipTerm nextIndexSaved entries reply n :
  state n = Leader →
  AppendEntriesReply.Term reply = leadershipTerm →
  AppendEntriesReply.Success reply = true →
  0 ≤ commitLength n < 2 ^ 64 - 1 →
  let next := wrap64 (nextIndexSaved + len entries) in
  let n1 := set_matchedIndex (<[peer := wrap64 (next - 1)]> (matchedIndex n))
              (set_nextIndex (<[peer := next]> (nextIndex n)) n) in
  let P i := termAt (log n) i = Some (currentTerm n) ∧ quorumAt n1 i in
  wp (leaderSendAppendEntries_reply now peer leadershipTerm nextIndexSaved
        entries reply) n (λ _ n' o,
    delivered o = [] ∧ ∃ c', n' = set_commitLength c' n1 ∧
    ((c' = commitLength n ∧ ∀ j, commitLength n < j ≤ len (log n) → ¬ P j)
     ∨ (commitLength n < c' ≤ len (log n) ∧ P c' ∧
        ∀ j, c' < j ≤ len (log n) → ¬ P j))).
Proof.
  intros Hs Ht Hok Hc next n1 P.
  unfold leaderSendAppendEntries_reply. wp_step. wp_step.
  rewrite <- Ht, Z.ltb_irrefl, Z.eqb_refl, Hs.
  rewrite bool_decide_eq_true_2 by done. cbn [andb when]. rewrite Hok.
  wp_step. wp_step. wp_step. wp_step. wp_step. wp_step.
  cbn [nextIndex set_nextIndex matchedIndex commitLength log
       set_matchedIndex]. rewrite mapGet_insert.
  fold next. fold n1.
  rewrite (wrap64_small (commitLength n + 1)) by lia.
  replace (len (log n) - (commitLength n + 1) + 1)
    with (len (log n1) - commitLength n) by (subst n1; cbn; lia).
  wp_step. eapply wp_mono.
  { apply (wp_commit_loop commitQuorumBody P n1); [|done|lia].
    intros i c Hi. eapply wp_mono; [apply wp_commitQuorumBody; lia|].
    intros _ n' o [-> Hcase]. split; [done|]. subst P. done. }
  intros _ n' o (-> & c' & -> & Hres). wp_step. wp_step.
  cbn [commitLength set_commitLength].
  apply wp_when; intros _; wp_run; (split; [done|]); by exists c'.
Qed.

(** The commit loop of a leader without peers. *)
Lemma wp_leaderSendAppendEntries_alone n :
  peerList n = ∅ →
  0 ≤ commitLength n →
  let P i := termAt (log n) i = Some (currentTerm n) in
  wp leaderSendAppendEntries_alone n (λ _ n' o,
    delivered o = [] ∧ ∃ c', n' = set_commitLength c' n ∧
    ((c' = commitLength n ∧ ∀ j, commitLength n < j ≤ len (log n) → ¬ P j)
     ∨ (commitLength n < c' ≤ len (log n) ∧ P c' ∧
        ∀ j, c' < j ≤ len (log n) → ¬ P j))).
Proof.
  intros Hp Hc P. unfold leaderSendAppendEntries_alone. wp_step. wp_step.
  unfold PeerSet.Size. rewrite Hp, size_empty.
  change (Z.of_nat 0 =? 0) with true. cbn [when].
  destruct (Z.ltb_spec (commitLength n) (len (log n))) as [Hlt|Hge];
    cbn [when].
  - wp_step. eapply wp_mono.
    { apply (wp_commit_loop commitAloneBody P n); [|done|lia].
      intros i c Hi. apply wp_commitAloneBody. lia. }
    intros _ n' o (-> & c' & -> & Hres). wp_step. wp_step.
    cbn [commitLength set_commitLength].
    apply wp_when; intros _; wp_run; (split; [done|]); by exists c'.
  - wp_run. split; [done|]. exists (commitLength n).
    split; [by rewrite set_commitLength_id|]. left. split; [done|]. lia.
Qed.

(** C3.  At the leader, after a successful [AppendEntries] reply,
    [commitLength] moves to an index [i] only if [i] lies in
    [(commitLength, len(log)]], the entry at [i] has the term [currentTerm],
    and the count [1 + |{p : matchedIndex[p] >= i}|] (with [matchedIndex] as
    updated by the reply) exceeds half of [peerSet.size + 1]; it moves to the
    largest such index.  In a cluster without peers the commit loop moves
    [commitLength] to the largest index in [(commitLength, len(log)]] whose
    entry has the term [currentTerm], with no count.  ([commitLength] is
    taken below the largest [uint64], as it is wherever it is bounded by the
    length of a slice: there [commitLength + 1] does not wrap.) *)
Theorem leader_commit_advancement :
  (∀ now peer leadershipTerm nextIndexSaved entries reply node,
     state node = Leader →
     AppendEntriesReply.Term reply = leadershipTerm →
     AppendEntriesReply.Success reply = true →
     0 ≤ commitLength node < 2 ^ 64 - 1 →
     ∃ node' out,
       leaderSendAppendEntries_reply now peer leadershipTerm nextIndexSaved
         entries reply node = Some (tt, node', out) ∧
       log node' = log node ∧ currentTerm node' = currentTerm node ∧
       peerList node' = peerList node ∧
       (commitLength node' ≠ commitLength node →
          commitLength node < commitLength node' ≤ len (log node) ∧
          termAt (log node) (commitLength node') = Some (currentTerm node) ∧
          PeerSet.Size (peerList node) + 1
            < 2 * (1 + matched node' (commitLength node'))) ∧
       (∀ i, commitLength node < i ≤ len (log node) →
             termAt (log node) i = Some (currentTerm node) →
             PeerSet.Size (peerList node) + 1 < 2 * (1 + matched node' i) →
             i ≤ commitLength node'))
  ∧
  (∀ node,
     peerList node = ∅ →
     0 ≤ commitLength node →
     ∃ node' out,
       leaderSendAppendEntries_alone node = Some (tt, node', out) ∧
       log node' = log node ∧ currentTerm node' = currentTerm node ∧
       (commitLength node' ≠ commitLength node →
          commitLength node < commitLength node' ≤ len (log node) ∧
          termAt (log node) (commitLength node') = Some (currentTerm node)) ∧
       (∀ i, commitLength node < i ≤ len (log node) →
             termAt (log node) i = Some (currentTerm node) →
             i ≤ commitLength node')).
Proof.
  split.
  - intros now peer lt saved entries reply node Hs Ht Hok Hc.
    destruct (wp_elim _ _ _ (wp_leaderSendAppendEntries_reply_success
                now peer lt saved entries reply node Hs Ht Hok Hc))
      as ([] & n' & o & Hrun & _ & c' & -> & Hres).
    eexists _, o. split; [done|]. cbn. split_and!; [done..| |].
    + intros Hne. destruct Hres as [[-> _]|(Hr & [Hterm Hq] & _)]; [done|].
      split; [lia|]. split; [done|]. apply Hq.
    + intros i Hi Hterm Hq.
      destruct Hres as [[-> Hnone]|(Hr & _ & Hafter)].
      * destruct (Hnone i Hi). split; [done|]. apply Hq.
      * destruct (Z.le_gt_cases i c') as [?|Hgt]; [done|].
        destruct (Hafter i ltac:(lia)). split; [done|]. apply Hq.
  - intros node Hp Hc.
    destruct (wp_elim _ _ _ (wp_leaderSendAppendEntries_alone node Hp Hc))
      as ([] & n' & o & Hrun & _ & c' & -> & Hres).
    eexists _, o. split; [done|]. cbn. split_and!; [done..| |].
    + intros Hne. destruct Hres as [[-> _]|(Hr & Hterm & _)]; [done|].
      split; [lia|done].
    + intros i Hi Hterm.
      destruct Hres as [[-> Hnone]|(Hr & _ & Hafter)].
      * by destruct (Hnone i Hi).
      * destruct (Z.le_gt_cases i c') as [?|Hgt]; [done|].
        by destruct (Hafter i ltac:(lia)).
Qed.

(** ** Index bookkeeping at the leader *)

Lemma wp_lastIndexOfTerm l rt k n :
  Z.of_nat k ≤ len l →
  wp (lastIndexOfTerm l rt k) n (λ r n' o,
    n' = n ∧ o = [] ∧
    ((r = 0 ∧ ∀ j, 1 ≤ j ≤ Z.of_nat k → termAt l j ≠ Some rt)
     ∨ (1 ≤ r ≤ Z.of_nat k ∧ termAt l r = Some rt ∧
        ∀ j, r < j ≤ Z.of_nat k → termAt l j ≠ Some rt))).
Proof.
  induction k as [|k IH]; intros Hk.
  - simpl. wp_run. split_and!; [done..|]. left. split; [done|]. lia.
  - cbn [lastIndexOfTerm]. wp_step. apply wp_index; [lia|]. intros e He.
    apply termAt_lookup in He; [|lia].
    destruct (Z.eqb_spec (LogEntry.Term e) rt) as [Et|Et].
    + wp_run. split_and!; [done..|]. right.
      split; [lia|]. split; [by rewrite He, Et|]. lia.
    + eapply wp_mono; [apply IH; lia|]. intros r n' o (-> & -> & Hs).
      split_and!; [done..|].
      assert (termAt l (Z.of_nat (S k)) ≠ Some rt) as Hlast.
      { rewrite He. intros [= ?]. done. }
      destruct Hs as [[-> Ha]|(Hr & Hterm & Ha)]; [left|right].
      * split; [done|]. intros j Hj.
        destruct (decide (j = Z.of_nat (S k))) as [->|]; [done|].
        apply Ha. lia.
      * split; [lia|]. split; [done|]. intros j Hj.
        destruct (decide (j = Z.of_nat (S k))) as [->|]; [done|].
        apply Ha. lia.
Qed.

Lemma wp_leaderSendAppendEntries_reply_failure
    now peer leadershipTerm nextIndexSaved entries reply n :
  state n = Leader →
  AppendEntriesReply.Term reply = leadershipTerm →
  AppendEntriesReply.Success reply = false →
  let rt := AppendEntriesReply.RecoveryTerm reply in
  wp (leaderSendAppendEntries_reply now peer leadershipTerm nextIndexSaved
        entries reply) n (λ _ n' o,
    delivered o = [] ∧
    ∃ v, n' = set_nextIndex (<[peer := v]> (nextIndex n)) n ∧
    ((rt = 0 ∧ v = AppendEntriesReply.RecoveryIndex reply)
     ∨ (rt ≠ 0 ∧
        ((v = AppendEntriesReply.RecoveryIndex reply ∧
          ∀ j, 1 ≤ j ≤ len (log n) → termAt (log n) j ≠ Some rt)
         ∨ (∃ r, v = r + 1 ∧ 1 ≤ r ≤ len (log n) ∧
                 termAt (log n) r = Some rt ∧
                 ∀ j, r < j ≤ len (log n) → termAt (log n) j ≠ Some rt))))).
Proof.
  intros Hs Ht Hok rt.
  unfold leaderSendAppendEntries_reply. wp_step. wp_step.
  rewrite <- Ht, Z.ltb_irrefl, Z.eqb_refl, Hs.
  rewrite bool_decide_eq_true_2 by done. cbn [andb when]. rewrite Hok.
  fold rt. destruct (Z.eqb_spec rt 0) as [E0|E0].
  - wp_run. split; [done|]. eexists. split; [done|]. by left.
  - wp_step. eapply wp_mono; [apply wp_lastIndexOfTerm; unfold len; lia|].
    fold (len (log n)). intros r ? ? (-> & -> & Hres).
    destruct Hres as [[-> Ha]|(Hr & Hterm & Ha)].
    + cbn [Z.eqb]. wp_run. split; [done|]. eexists. split; [done|].
      right. split; [done|]. by left.
    + destruct (Z.eqb_spec r 0) as [?|_]; [lia|]. wp_run.
      split; [done|]. eexists. split; [done|]. right. split; [done|].
      right. by exists r.
Qed.

(** C5.  When the leader processes an [AppendEntries] reply that carries
    its leadership term while it is still [Leader]: on success
    [nextIndex[p]] becomes the saved [nextIndex] plus the number of entries
    sent, and [matchedIndex[p]] becomes [nextIndex[p] - 1]; on failure with
    [RecoveryTerm = 0], [nextIndex[p]] becomes [RecoveryIndex]; on failure
    with another [RecoveryTerm], [nextIndex[p]] becomes one plus the last
    local index whose term is [RecoveryTerm] when there is one, and
    [RecoveryIndex] otherwise.  (The saved [nextIndex] is at least 1 and the
    sum fits a [uint64] whenever the request could be built, see
    [leaderSendAppendEntries_args_range]; [commitLength] is taken below the
    largest [uint64], so that the commit loop after a success starts
    without wrapping.) *)
Theorem leader_reply_indices
    now peer leadershipTerm nextIndexSaved entries reply node :
  state node = Leader →
  AppendEntriesReply.Term reply = leadershipTerm →
  (AppendEntriesReply.Success reply = true →
   0 ≤ commitLength node < 2 ^ 64 - 1 →
   1 ≤ nextIndexSaved → nextIndexSaved + len entries < 2 ^ 64 →
   ∃ node' out,
     leaderSendAppendEntries_reply now peer leadershipTerm nextIndexSaved
       entries reply node = Some (tt, node', out) ∧
     mapGet (nextIndex node') peer = nextIndexSaved + len entries ∧
     mapGet (matchedIndex node') peer = mapGet (nextIndex node') peer - 1)
  ∧
  (AppendEntriesReply.Success reply = false →
   let rt := AppendEntriesReply.RecoveryTerm reply in
   ∃ node' out,
     leaderSendAppendEntries_reply now peer leadershipTerm nextIndexSaved
       entries reply node = Some (tt, node', out) ∧
     (rt = 0 →
        mapGet (nextIndex node') peer = AppendEntriesReply.RecoveryIndex reply) ∧
     (rt ≠ 0 →
        (∀ i, termAt (log node) i = Some rt →
              (∀ j, i < j → termAt (log node) j ≠ Some rt) →
              mapGet (nextIndex node') peer = i + 1) ∧
        ((∀ i, termAt (log node) i ≠ Some rt) →
         mapGet (nextIndex node') peer = AppendEntriesReply.RecoveryIndex reply))).
Proof.
  intros Hs Ht. split.
  - intros Hok Hc Hsaved Hsum.
    destruct (wp_elim _ _ _ (wp_leaderSendAppendEntries_reply_success
                now peer leadershipTerm nextIndexSaved entries reply node
                Hs Ht Hok Hc))
      as ([] & n' & o & Hrun & _ & c' & -> & _).
    eexists _, o. split; [done|]. cbn. rewrite !mapGet_insert.
    assert (0 ≤ len entries) by (unfold len; lia).
    rewrite !wrap64_small; lia.
  - intros Hok rt.
    destruct (wp_elim _ _ _ (wp_leaderSendAppendEntries_reply_failure
                now peer leadershipTerm nextIndexSaved entries reply node
                Hs Ht Hok))
      as ([] & n' & o & Hrun & _ & v & -> & Hres).
    eexists _, o. split; [done|]. cbn. rewrite !mapGet_insert. fold rt in Hres.
    split.
    + intros E0. destruct Hres as [[_ ->]|[? _]]; done.
    + intros Hnz. destruct Hres as [[? _]|[_ Hres]]; [done|]. split.
      * intros i Hi Hlast. destruct Hres as [[_ Hnone]|(r & -> & Hr & Hterm & Ha)].
        { destruct (Hnone i); [|done]. by apply termAt_Some_range in Hi. }
        pose proof (termAt_Some_range _ _ _ Hi) as Hir.
        destruct (Z.lt_trichotomy i r) as [Hlt|[->|Hgt]]; [|done|].
        -- by destruct (Hlast r Hlt).
        -- by destruct (Ha i ltac:(lia)).
      * intros Hnone. destruct Hres as [[-> _]|(r & _ & _ & Hterm & _)]; [done|].
        by destruct (Hnone r).
Qed.

(** ** Frame rules *)

Section Frames.
Context {R : Node → Node → Prop} {E : list Effect → Prop} `{!Frame R E}.

Lemma pres_ret {A} (a : A) : preserves R E (mret a).
Proof. intros n. split; [apply frame_refl|apply frame_nil]. Qed.

Lemma pres_bind {A B} (m : M A) (f : A → M B) :
  preserves R E m → (∀ a, preserves R E (f a)) → preserves R E (m ≫= f).
Proof.
  intros Hm Hf n. unfold mbind, M_bind. specialize (Hm n).
  destruct (m n) as [[[a n1] o1]|]; [|done]. destruct Hm as [HR1 HE1].
  specialize (Hf a n1). destruct (f a n1) as [[[b n2] o2]|]; [|done].
  destruct Hf as [HR2 HE2]. split.
  - by apply (frame_trans _ n1).
  - by apply frame_app.
Qed.

Lemma pres_get : preserves R E get.
Proof. intros n. split; [apply frame_refl|apply frame_nil]. Qed.

Lemma pres_panic {A} : preserves R E (@panic A).
Proof. done. Qed.

Lemma pres_modify f : (∀ n, R n (f n)) → preserves R E (modify f).
Proof. intros Hf n. split; [apply Hf|apply frame_nil]. Qed.

Lemma pres_emit e : E [e] → preserves R E (emit e).
Proof. intros He n. split; [apply frame_refl|done]. Qed.

Lemma pres_when b m : preserves R E m → preserves R E (when b m).
Proof. destruct b; [done|]. intros _. apply pres_ret. Qed.

Lemma pres_index l i : preserves R E (index l i).
Proof.
  unfold index. destruct (_ && _); [|apply pres_panic].
  destruct (l !! _); [apply pres_ret|apply pres_panic].
Qed.

Lemma pres_slice l spare lo hi : preserves R E (slice l spare lo hi).
Proof. unfold slice. destruct (_ && _); [apply pres_ret|apply pres_panic]. Qed.

Lemma pres_forEach {A} (xs : list A) body :
  (∀ x, preserves R E (body x)) → preserves R E (forEach xs body).
Proof.
  intros Hb. induction xs as [|x xs IH]; simpl; [apply pres_ret|].
  apply pres_bind; [apply Hb|]. intros _. apply IH.
Qed.

Lemma pres_forRange body i count :
  (∀ j, preserves R E (body j)) → preserves R E (forRange body i count).
Proof.
  intros Hb. revert i. induction count as [|k IH]; intros i; simpl;
    [apply pres_ret|].
  apply pres_bind; [apply Hb|]. intros _. apply IH.
Qed.

End Frames.

(** Walk through a computation with the frame rules; [leaf] proves the
    conditions on the writes and on the effects. *)
Ltac frame_walk leaf :=
  repeat lazymatch goal with
  | |- preserves _ _ (_ ≫= _) => apply pres_bind; [|intros ?]
  | |- preserves _ _ (mret _) => apply pres_ret
  | |- preserves _ _ get => apply pres_get
  | |- preserves _ _ panic => apply pres_panic
  | |- preserves _ _ (when _ _) => apply pres_when
  | |- preserves _ _ (index _ _) => apply pres_index
  | |- preserves _ _ (slice _ _ _ _) => apply pres_slice
  | |- preserves _ _ (forEach _ _) => apply pres_forEach; intros ?
  | |- preserves _ _ (forRange _ _ _) => apply pres_forRange; intros ?
  | |- preserves _ _ (if ?b then _ else _) => destruct b
  | |- preserves _ _ (match ?x with _ => _ end) => destruct x
  | |- preserves _ _ (modify _) => apply pres_modify; intros ?; leaf
  | |- preserves _ _ (emit _) => apply pres_emit; leaf
  | |- preserves _ _ _ => leaf
  end.

#[global] Instance applied_frame : Frame sameApplied noDelivery.
Proof.
  split; unfold sameApplied, noDelivery.
  - done.
  - intros n1 n2 n3 H12 H23. by rewrite H23.
  - done.
  - intros o1 o2 H1 H2. by rewrite delivered_app, H1, H2.
Qed.

#[global] Instance vote_frame c : Frame (voteRule c) anyEffects.
Proof.
  split; unfold voteRule, anyEffects; try done.
  - intros n. by left.
  - intros n1 n2 n3 [[Ht1 Hv1]|H1] [[Ht2 Hv2]|H2]; try tauto.
    + left. split; congruence.
    + right. rewrite Hv2. done.
Qed.

Section LoopFrames.
Context {R : Node → Node → Prop} {E : list Effect → Prop} `{!Frame R E}.

Lemma pres_recoveryScan l rt i : preserves R E (recoveryScan l rt i).
Proof.
  induction i as [|i IH]; simpl; [apply pres_ret|].
  apply pres_bind; [apply pres_index|]. intros e.
  destruct (negb _); [apply pres_ret|apply IH].
Qed.

Lemma pres_lastIndexOfTerm l rt i : preserves R E (lastIndexOfTerm l rt i).
Proof.
  induction i as [|i IH]; simpl; [apply pres_ret|].
  apply pres_bind; [apply pres_index|]. intros e.
  destruct (_ =? _); [apply pres_ret|apply IH].
Qed.

End LoopFrames.

Ltac unfold_ops :=
  unfold RequestVote, AppendEntries, AppendEntries_consistent,
    AppendEntries_accept, AppendEntries_reject, applyMembership,
    lastLogIndexAndTerm, becomeFollower, becomeLeader, persistToStorage,
    startElection, startElection_count, startElection_reply,
    leaderSendAppendEntries_alone, leaderSendAppendEntries_reply,
    commitAloneBody, commitQuorumBody, newLogEntry, appendCommand,
    LeaveCluster, addPeer, removePeer, joinAsPeer, Stop.

Ltac quiet_leaf :=
  idtac; lazymatch goal with
  | |- preserves _ _ (recoveryScan _ _ _) => apply pres_recoveryScan
  | |- preserves _ _ (lastIndexOfTerm _ _ _) => apply pres_lastIndexOfTerm
  | |- preserves _ _ _ => progress unfold_ops
  | |- sameApplied _ _ => reflexivity
  | |- noDelivery _ => reflexivity
  end.

(** Every action but the dispatcher's leaves [lastApplied] alone and sends
    nothing on the commit channel. *)
Lemma perform_quiet a :
  a ≠ DoSendCommit → preserves sameApplied noDelivery (perform a).
Proof.
  intros Ha. destruct a; try done; cbn [perform]; unfold_ops;
    frame_walk quiet_leaf.
Qed.

(** ** Terms and votes *)

Lemma pres_becomeFollower c now t :
  preserves (voteRule c) anyEffects (becomeFollower now t).
Proof. intros n. cbn. split; [|done]. right. by left. Qed.

Ltac unfold_callers :=
  unfold RequestVote, AppendEntries, AppendEntries_consistent,
    AppendEntries_accept, AppendEntries_reject, applyMembership,
    lastLogIndexAndTerm, becomeLeader, persistToStorage,
    startElection_count, startElection_reply,
    leaderSendAppendEntries_alone, leaderSendAppendEntries_reply,
    commitAloneBody, commitQuorumBody, sendCommit, newLogEntry,
    appendCommand, LeaveCluster, addPeer, removePeer, joinAsPeer, Stop.

Ltac vote_leaf :=
  idtac; lazymatch goal with
  | |- preserves _ _ (becomeFollower _ _) => apply pres_becomeFollower
  | |- preserves _ _ (recoveryScan _ _ _) => apply pres_recoveryScan
  | |- preserves _ _ (lastIndexOfTerm _ _ _) => apply pres_lastIndexOfTerm
  | |- preserves _ _ _ => progress unfold_callers
  | |- anyEffects _ => exact I
  | |- voteRule _ _ _ =>
      first [ left; split; reflexivity
            | right; left; reflexivity
            | right; right; reflexivity ]
  end.

(** Apart from [startElection], the code changes [currentTerm] only inside
    [becomeFollower], and writes [votedFor] only there and where
    [RequestVote] grants the vote. *)
Lemma perform_voteRule a :
  match a with
  | DoStartElection _ => True
  | DoRequestVote _ args _ =>
      preserves (voteRule (int64 (RequestVoteArgs.CandidateId args)))
        anyEffects (perform a)
  | _ => preserves (voteRule (-1)) anyEffects (perform a)
  end.
Proof.
  destruct a; try done; cbn [perform]; frame_walk vote_leaf.
Qed.


Lemma wp_forEach_same {A} (xs : list A) (body : A → M unit) n :
  (∀ x, wp (body x) n (λ _ n' _, n' = n)) →
  wp (forEach xs body) n (λ _ n' _, n' = n).
Proof.
  intros Hb. induction xs as [|x xs IH]; simpl; [by apply wp_ret|].
  apply wp_bind. eapply wp_mono; [apply Hb|]. intros _ ? _ ->.
  eapply wp_mono; [apply IH|]. done.
Qed.

Lemma wp_startElection now n :
  wp (startElection now) n (λ _ n' _,
    currentTerm n' = wrap64 (currentTerm n + 1) ∧
    votedFor n' = int64 (id n) ∧ state n' = Candidate).
Proof.
  unfold startElection. wp_run.
  eapply wp_mono.
  { apply wp_forEach_same. intros peer. by apply wp_emit. }
  intros _ ? _ ->. wp_run. done.
Qed.

(** C8, as amended.  [becomeFollower], the step-down on a higher term,
    sets [currentTerm] to the new term and [votedFor] to the sentinel -1;
    [startElection] adds one to [currentTerm] and sets [votedFor] to the
    node's own id, not to the sentinel.  In every action of a node that
    changes [currentTerm], [votedFor] ends at -1, except that
    [startElection] leaves the node's own id and that [RequestVote] may
    grant the vote to the candidate after its step-down. *)
Theorem term_advance_resets_vote :
  (∀ now newTerm n, ∃ n' o,
     becomeFollower now newTerm n = Some (tt, n', o) ∧
     currentTerm n' = newTerm ∧ votedFor n' = -1)
  ∧ (∀ now n, ∃ n' o,
       startElection now n = Some (tt, n', o) ∧
       currentTerm n' = wrap64 (currentTerm n + 1) ∧
       votedFor n' = int64 (id n))
  ∧ (∀ a n n' o,
       perform a n = Some (tt, n', o) →
       currentTerm n' ≠ currentTerm n →
       match a with
       | DoStartElection _ => votedFor n' = int64 (id n)
       | DoRequestVote _ args _ =>
           votedFor n' = -1 ∨
           votedFor n' = int64 (RequestVoteArgs.CandidateId args)
       | _ => votedFor n' = -1
       end).
Proof.
  split_and!.
  - intros now newTerm n. by eexists _, _.
  - intros now n.
    destruct (wp_elim _ _ _ (wp_startElection now n))
      as ([] & n' & o & Hrun & Ht & Hv & _).
    by exists n', o.
  - intros a n n' o Hrun Hne.
    pose proof (perform_voteRule a) as Hrule.
    destruct a;
      try (specialize (Hrule n); rewrite Hrun in Hrule;
           destruct Hrule as [[[? _]|[?|?]] _]; done || auto).
    cbn [perform] in Hrun.
    destruct (wp_elim _ _ _ (wp_startElection now n))
      as ([] & n2 & o2 & Hrun2 & _ & Hv & _).
    congruence.
Qed.

(** ** Client commands and membership changes *)

(** C9.  [newLogEntry] at a node that is not [Leader]: a command that is
    not a [Read] returns [(false, nil, nil)] and leaves the node (with its
    log, [currentTerm] and [votedFor]) as it was; a [Read] returns [true]
    with what [readFromStorage] finds in the local store under the key, at a
    node in any role, and leaves the node as it was. *)
Theorem newLogEntry_not_leader :
  (∀ cmd node,
     state node ≠ Leader → (∀ key, cmd ≠ Read key) →
     newLogEntry cmd node = Some ((false, None, None), node, []))
  ∧ (∀ key node, ∃ value readErr,
       newLogEntry (Read key) node = Some ((true, Some value, readErr), node, []) ∧
       readFromStorage key node = (value, readErr) ∧
       match db node !! key with
       | Some bytes =>
           match gobDecodeInt bytes with
           | Some v => value = v ∧ readErr = None
           | None => value = 0 ∧ readErr = Some DecodeError
           end
       | None => value = 0 ∧ readErr = Some (KeyNotFound key)
       end).
Proof.
  split.
  - intros cmd node Hs Hread. unfold newLogEntry, mbind, M_bind, get.
    rewrite bool_decide_eq_false_2 by done.
    destruct cmd; try done. by destruct (Hread Key).
  - intros key node.
    exists (readFromStorage key node).1, (readFromStorage key node).2.
    split_and!.
    + unfold newLogEntry, mbind, M_bind, get.
      destruct (bool_decide (state node = Leader));
        by destruct (readFromStorage key node).
    + by destruct (readFromStorage key node).
    + unfold readFromStorage, Database.Get.
      destruct (db node !! key) as [bytes|]; [|done].
      by destruct (gobDecodeInt bytes).
Qed.

(** C6, as amended.  A [LeaveCluster] call at the [Leader] whose
    [args.ServerId] is the node's own id returns with [Success = true] and
    leaves the node as it was.  No [RemoveServer] entry for the node's own id
    is appended: the only thing the handler may start is [newLogEntry] on
    that command, and [newLogEntry] on it, in whatever state the node then
    is, returns [false] and leaves the node as it was. *)
Theorem LeaveCluster_self args reply node :
  state node = Leader →
  LeaveClusterArgs.ServerId args = id node →
  ∃ out,
    LeaveCluster args reply node = Some (LeaveClusterReply.mk true, node, out) ∧
    (∀ e, e ∈ out → e = GoNewLogEntry (RemoveServer (id node))) ∧
    (∀ node2, id node2 = id node →
       ∃ value err,
         newLogEntry (RemoveServer (id node)) node2
           = Some ((false, value, err), node2, [])).
Proof.
  intros Hs Hid. unfold LeaveCluster, mbind, M_bind, get.
  rewrite bool_decide_eq_true_2 by done. cbn [negb]. rewrite Hid.
  assert (∀ node2, id node2 = id node →
            ∃ value err,
              newLogEntry (RemoveServer (id node)) node2
                = Some ((false, value, err), node2, [])) as Hlater; last first.
  { destruct (negb (PeerSet.Exists (peerList node) (id node))); cbn.
    - exists []. split_and!; [done| |done]. by intros e ?%elem_of_nil.
    - eexists. split_and!; [done| |done].
      by intros e ->%list_elem_of_singleton. }
  { intros node2 Hid2. unfold newLogEntry, mbind, M_bind, get.
    destruct (bool_decide (state node2 = Leader)); [|by eexists _, _].
    rewrite <- Hid2, Z.eqb_refl, orb_true_r. by eexists _, _. }
Qed.

(** ** The commit dispatcher *)

Lemma forEach_emit (f : CommitEntry.t → Effect) cs n :
  forEach cs (λ c, emit (f c)) n = Some (tt, n, f <$> cs).
Proof.
  induction cs as [|c cs IH]; [done|].
  cbn [forEach]. unfold mbind, M_bind, emit at 1. by rewrite IH.
Qed.

Lemma delivered_SendCommitChan cs : delivered (SendCommitChan <$> cs) = cs.
Proof.
  unfold delivered. induction cs as [|c cs IH]; [done|].
  cbn. by rewrite IH.
Qed.

(** One round of the dispatcher in closed form: it faults only where
    [commitLength] is above the capacity of the log. *)
Lemma sendCommit_eq n :
  sendCommit n =
    if lastApplied n <? commitLength n then
      if (0 <=? lastApplied n)
         && (commitLength n <=? len (log n) + len (logSpare n)) then
        Some (tt, set_lastApplied (commitLength n) n,
              SendCommitChan <$> pendingRecords n)
      else None
    else Some (tt, n, []).
Proof.
  unfold sendCommit, mbind, M_bind, get, pendingRecords.
  destruct (Z.ltb_spec (lastApplied n) (commitLength n)) as [Hlt|Hge].
  - unfold slice.
    rewrite (proj2 (Z.leb_le (lastApplied n) (commitLength n))) by lia.
    rewrite andb_true_r.
    destruct (Z.leb_spec 0 (lastApplied n)) as [Hla|Hla]; [|done].
    rewrite capacity_check by lia. cbn [andb].
    destruct (commitLength n <=? len (log n) + len (logSpare n)); [|done].
    cbn. by rewrite forEach_emit.
  - done.
Qed.

Lemma logAt_app_l l spare i e :
  i ≤ len l → logAt (l ++ spare) i = Some e → logAt l i = Some e.
Proof.
  unfold logAt, len. destruct (Z.leb_spec 1 i); [|done]. intros Hi.
  by rewrite lookup_app_l by lia.
Qed.

Lemma pendingRecords_lookup n k c :
  0 ≤ lastApplied n →
  pendingRecords n !! k = Some c →
  CommitEntry.Index c = lastApplied n + Z.of_nat k + 1 ∧
  CommitEntry.Term c = currentTerm n ∧
  CommitEntry.Index c ≤ commitLength n ∧
  ∃ e, logAt (log n ++ logSpare n) (CommitEntry.Index c) = Some e ∧
       CommitEntry.Command c = LogEntry.Command e.
Proof.
  intros Hla. unfold pendingRecords. rewrite list_lookup_imap.
  intros [e [He ->]]%fmap_Some. cbn.
  apply lookup_take_Some in He as [He Hk]. rewrite lookup_drop in He.
  split_and!; [done..|lia|].
  exists e. split; [|done]. apply logAt_lookup; [lia|].
  rewrite <- He. f_equal. lia.
Qed.

Lemma pendingRecords_indices n :
  0 ≤ lastApplied n →
  lastApplied n < commitLength n ≤ len (log n) + len (logSpare n) →
  CommitEntry.Index <$> pendingRecords n
    = seqZ (lastApplied n + 1) (commitLength n - lastApplied n).
Proof.
  intros Hla Hcl. unfold pendingRecords, len in *. rewrite fmap_imap.
  rewrite (imap_ext _ (λ i _, lastApplied n + Z.of_nat i + 1)) by done.
  rewrite (imap_seq_0 _ (λ i, lastApplied n + Z.of_nat i + 1)).
  rewrite length_take, length_drop, length_app. unfold seqZ.
  replace (Z.to_nat (commitLength n - lastApplied n)
           `min` (length (log n) + length (logSpare n)
                  - Z.to_nat (lastApplied n)))%nat
    with (Z.to_nat (commitLength n - lastApplied n)) by lia.
  apply list_fmap_ext. intros i x _. lia.
Qed.

Lemma step_Some a n r n' o :
  step a n = Some (r, n', o) →
  perform a n = Some (r, n', o) ∧ sendsOnClosed n o = false.
Proof.
  unfold step. destruct (perform a n) as [[[r1 n1] o1]|]; [|done].
  destruct (sendsOnClosed n o1) eqn:E; [done|]. by intros [= <- <- <-].
Qed.

Lemma DoSendCommit_or_not a : a = DoSendCommit ∨ a ≠ DoSendCommit.
Proof. destruct a; (by left) || (by right). Qed.

(** Along a run the indices sent so far are 1, 2, ..., [lastApplied]. *)
Lemma run_indices actions : ∀ n o0 n' o,
  0 ≤ lastApplied n →
  CommitEntry.Index <$> delivered o0 = indicesTo (lastApplied n) →
  run actions n = Some (tt, n', o) →
  0 ≤ lastApplied n' ∧
  CommitEntry.Index <$> delivered (o0 ++ o) = indicesTo (lastApplied n').
Proof.
  unfold run. induction actions as [|a actions IH]; intros n o0 n' o Hla Hinv.
  { intros [= <- <-]. by rewrite app_nil_r. }
  cbn [forEach]. unfold mbind, M_bind.
  destruct (step a n) as [[[[] n1] o1]|] eqn:Hstep; [|done].
  apply step_Some in Hstep as [Hstep _].
  destruct (forEach actions step n1) as [[[[] n2] o2]|] eqn:Hrest; [|done].
  intros [= <- <-]. rewrite app_assoc.
  apply (IH n1 (o0 ++ o1) n2 o2); [| |done].
  - destruct (DoSendCommit_or_not a) as [->|Ha].
    + cbn [perform] in Hstep. rewrite sendCommit_eq in Hstep.
      destruct (Z.ltb_spec (lastApplied n) (commitLength n)); [|by simplify_eq].
      destruct (_ && _); simplify_eq. cbn. lia.
    + pose proof (perform_quiet a Ha n) as Hq. rewrite Hstep in Hq.
      destruct Hq as [-> _]. done.
  - rewrite delivered_app, fmap_app, Hinv.
    destruct (DoSendCommit_or_not a) as [->|Ha].
    + cbn [perform] in Hstep. rewrite sendCommit_eq in Hstep.
      destruct (Z.ltb_spec (lastApplied n) (commitLength n)) as [Hlt|Hge].
      * destruct ((0 <=? lastApplied n)
                  && (commitLength n <=? len (log n) + len (logSpare n)))
          eqn:Hok; [|done].
        apply andb_prop in Hok as [_ Hle%Z.leb_le]. simplify_eq.
        rewrite delivered_SendCommitChan, pendingRecords_indices by lia.
        cbn. unfold indicesTo.
        replace (commitLength n)
          with (lastApplied n + (commitLength n - lastApplied n)) at 2 by lia.
        rewrite seqZ_app by lia. do 2 f_equal. lia.
      * simplify_eq. by rewrite app_nil_r.
    + pose proof (perform_quiet a Ha n) as Hq. rewrite Hstep in Hq.
      destruct Hq as [-> ->]. by rewrite app_nil_r.
Qed.

Lemma restoreFromStorage_frame n n' :
  restoreFromStorage n = Some n' →
  lastApplied n' = lastApplied n ∧ commitLength n' = commitLength n.
Proof.
  unfold restoreFromStorage.
  destruct (Database.Get (db n) "currentTerm" ≫= gobDecodeUint64) as [t|];
    [|done].
  destruct (Database.Get (db n) "votedFor" ≫= gobDecodeInt64) as [v|];
    [|done].
  destruct (Database.Get (db n) "log") as [bytes|]; [|done]. cbn.
  destruct (gobDecodeLog bytes) as [l|]; [|done].
  by intros [= <-].
Qed.

Lemma CreateNode_initial now serverId peers store n0 :
  CreateNode now serverId peers store = Some n0 →
  lastApplied n0 = 0 ∧ commitLength n0 = 0.
Proof.
  unfold CreateNode.
  destruct (Database.HasData store); [|by intros [= <-]].
  by intros ?%restoreFromStorage_frame.
Qed.

(** X30.  A round of the dispatcher returns exactly when [commitLength] is
    within the capacity of the log.  Every record it sends carries as
    [Index] the 1-based position of its cell in the array of the log, as
    command the command of that cell, and as [Term] the [currentTerm] of the
    node when the round ran, whatever the term of the entry; a record whose
    [Index] is within the log is the record of the log entry at that
    position.  From start-up on, the indices sent are 1, 2, 3, ... in this
    order, up to [lastApplied].  The [Term] of a record can differ from the
    term of its entry: it does in the run [exampleTermChange]. *)
Theorem dispatcher_records :
  (∀ n n' o,
     sendCommit n = Some (tt, n', o) →
     ∀ k c, delivered o !! k = Some c →
       CommitEntry.Index c = lastApplied n + Z.of_nat k + 1 ∧
       CommitEntry.Term c = currentTerm n ∧
       ∃ e, logAt (log n ++ logSpare n) (CommitEntry.Index c) = Some e ∧
            CommitEntry.Command c = LogEntry.Command e ∧
            (CommitEntry.Index c ≤ len (log n) →
             logAt (log n) (CommitEntry.Index c) = Some e))
  ∧ (∀ n,
       0 ≤ lastApplied n < commitLength n →
       (commitLength n ≤ len (log n) + len (logSpare n) →
        ∃ n' o,
          sendCommit n = Some (tt, n', o) ∧
          lastApplied n' = commitLength n ∧
          CommitEntry.Index <$> delivered o
            = seqZ (lastApplied n + 1) (commitLength n - lastApplied n))
       ∧ (len (log n) + len (logSpare n) < commitLength n →
          sendCommit n = None))
  ∧ (∀ now serverId peers store n0 actions n o,
       CreateNode now serverId peers store = Some n0 →
       run actions n0 = Some (tt, n, o) →
       CommitEntry.Index <$> delivered o = indicesTo (lastApplied n))
  ∧ (∃ n0 n o c e,
       CreateNode 0 2 {[1; 3]} ∅ = Some n0 ∧
       run exampleTermChange n0 = Some (tt, n, o) ∧
       c ∈ delivered o ∧
       logAt (log n) (CommitEntry.Index c) = Some e ∧
       CommitEntry.Term c ≠ LogEntry.Term e).
Proof.
  split_and!.
  - intros n n' o Hrun k c Hk. rewrite sendCommit_eq in Hrun.
    destruct (Z.ltb_spec (lastApplied n) (commitLength n)) as [Hlt|Hge];
      [|by simplify_eq].
    destruct ((0 <=? lastApplied n)
              && (commitLength n <=? len (log n) + len (logSpare n)))
      eqn:Hok; [|done].
    apply andb_prop in Hok as [Hla%Z.leb_le _]. simplify_eq.
    rewrite delivered_SendCommitChan in Hk.
    destruct (pendingRecords_lookup n k c Hla Hk)
      as (Hi & Ht & _ & e & He & Hc).
    split_and!; [done..|]. exists e. split_and!; [done..|].
    intros Hin. by apply (logAt_app_l _ (logSpare n)).
  - intros n Hla. split.
    + intros Hcl. rewrite sendCommit_eq.
      rewrite (proj2 (Z.ltb_lt _ _)) by lia.
      rewrite (proj2 (Z.leb_le 0 _)), (proj2 (Z.leb_le (commitLength n) _))
        by lia.
      eexists _, _. split; [done|]. split; [done|].
      rewrite delivered_SendCommitChan. apply pendingRecords_indices; lia.
    + intros Hcl. rewrite sendCommit_eq.
      rewrite (proj2 (Z.ltb_lt _ _)) by lia.
      rewrite (proj2 (Z.leb_le 0 _)) by lia.
      by rewrite (proj2 (Z.leb_gt (commitLength n) _)) by lia.
  - intros now serverId peers store n0 actions n o Hinit Hrun.
    apply CreateNode_initial in Hinit as [Hla _].
    apply (run_indices actions n0 [] n o); [lia| |done].
    by rewrite Hla.
  - eexists _, _, _, (CommitEntry.mk (Other "a") 2 1),
      (LogEntry.mk (Other "a") 1).
    split_and!; [reflexivity|vm_compute; reflexivity| |reflexivity|done].
    apply list_elem_of_lookup. by exists 0%nat.
Qed.

(** The dispatcher and the commit loops of the leader keep the order
    [0 <= lastApplied <= commitLength <= len(log)] and lower neither
    counter. *)
Lemma commit_order_kept_by_leader_and_dispatcher n :
  0 ≤ lastApplied n ≤ commitLength n → commitLength n ≤ len (log n) →
  let kept n' :=
    (0 ≤ lastApplied n' ≤ commitLength n' ∧ commitLength n' ≤ len (log n')) ∧
    lastApplied n ≤ lastApplied n' ∧ commitLength n ≤ commitLength n' in
  (∀ n' o, sendCommit n = Some (tt, n', o) → kept n')
  ∧ (∀ now peer leadershipTerm nextIndexSaved entries reply n' o,
       state n = Leader →
       AppendEntriesReply.Term reply = leadershipTerm →
       AppendEntriesReply.Success reply = true →
       commitLength n < 2 ^ 64 - 1 →
       leaderSendAppendEntries_reply now peer leadershipTerm nextIndexSaved
         entries reply n = Some (tt, n', o) →
       kept n')
  ∧ (∀ n' o,
       peerList n = ∅ →
       leaderSendAppendEntries_alone n = Some (tt, n', o) → kept n').
Proof.
  intros Hla Hcl kept. subst kept. cbv beta. split_and!.
  - intros n' o. rewrite sendCommit_eq.
    destruct (Z.ltb_spec (lastApplied n) (commitLength n));
      [|intros [= <- <-]; lia].
    destruct (_ && _); [|done]. intros [= <- <-]. cbn. lia.
  - intros now peer lt saved entries reply n' o Hs Ht Hok Hc Hrun.
    destruct (wp_elim _ _ _ (wp_leaderSendAppendEntries_reply_success
                now peer lt saved entries reply n Hs Ht Hok ltac:(lia)))
      as ([] & n2 & o2 & Hrun2 & _ & c' & -> & Hres).
    rewrite Hrun in Hrun2. injection Hrun2 as -> ->. cbn.
    destruct Hres as [[-> _]|[? _]]; lia.
  - intros n' o Hp Hrun.
    destruct (wp_elim _ _ _ (wp_leaderSendAppendEntries_alone n Hp
                ltac:(lia)))
      as ([] & n2 & o2 & Hrun2 & _ & c' & -> & Hres).
    rewrite Hrun in Hrun2. injection Hrun2 as -> ->. cbn.
    destruct Hres as [[-> _]|[? _]]; lia.
Qed.

(** C7 fails on the code.  In the run [exampleOvertaken] a follower holds
    the log [a, b] with [commitLength = lastApplied = 2] when an overtaken
    request of its leader arrives; [AppendEntries] accepts it and cuts the
    log to [a], so that afterwards [commitLength] and [lastApplied] exceed
    the length of the log. *)
Theorem AppendEntries_truncates_committed :
  ∃ n0 n o,
    CreateNode 0 2 {[1]} ∅ = Some n0 ∧
    run exampleOvertaken n0 = Some (tt, n, o) ∧
    lastApplied n = 2 ∧ commitLength n = 2 ∧ len (log n) = 1 ∧
    ¬ (0 ≤ lastApplied n ≤ commitLength n ∧ commitLength n ≤ len (log n)).
Proof.
  eexists _, _, _.
  split_and!; [reflexivity|vm_compute; reflexivity|reflexivity..|].
  cbn. unfold len. cbn. lia.
Qed.

(** C10 fails on the code.  In the run [exampleLateDispatch] a follower
    holds the log [a, b] with [commitLength = 2] when an overtaken request of
    its leader arrives; [AppendEntries] cuts the log to [a] and leaves
    [commitLength] at 2, and [b] stays in the array behind the log.  The
    dispatcher then takes the slice of the log up to [commitLength], which
    the capacity of the array allows, and sends two records.  The second
    carries [Index] 2 and the command [b]: it is the record of no entry, the
    log has one entry only. *)
Theorem sendCommit_delivers_truncated_entry :
  ∃ n0 n o,
    CreateNode 0 2 {[1]} ∅ = Some n0 ∧
    run exampleLateDispatch n0 = Some (tt, n, o) ∧
    delivered o = [CommitEntry.mk (Other "a") 1 1;
                   CommitEntry.mk (Other "b") 1 2] ∧
    log n = [LogEntry.mk (Other "a") 1] ∧
    commitLength n = 2 ∧ lastApplied n = 2 ∧
    logAt (log n) 2 = None.
Proof.
  eexists _, _, _.
  split_and!; [reflexivity|vm_compute; reflexivity|reflexivity..].
Qed.

End Verification.

(** ** What the leader sends *)

Lemma int64_small x : - 2 ^ 63 ≤ x < 2 ^ 63 → int64 x = x.
Proof. unfold int64. intros Hx. rewrite Z.mod_small; lia. Qed.

Lemma bind_Some {A B} (m : M A) (f : A → M B) n b n2 o :
  (m ≫= f) n = Some (b, n2, o) →
  ∃ a n1 o1 o2, m n = Some (a, n1, o1) ∧ f a n1 = Some (b, n2, o2) ∧
                o = o1 ++ o2.
Proof.
  unfold mbind, M_bind. destruct (m n) as [[[a n1] o1]|]; [|done].
  destruct (f a n1) as [[[b' n2'] o2]|] eqn:Hf; [|done].
  intros [= <- <- <-]. by exists a, n1, o1, o2.
Qed.

(** A request can be built only from a [nextIndex] between 1 and
    [len(log) + 1]; it then carries the entries from that index on, and the
    saved index plus their number is [len(log) + 1]. *)
Lemma leaderSendAppendEntries_args_range peer leadershipTerm n
    nextIndexSaved entries args n' o :
  sliceLen (log n) →
  uint64 (mapGet (nextIndex n) peer) →
  leaderSendAppendEntries_args peer leadershipTerm n
    = Some ((nextIndexSaved, entries, args), n', o) →
  nextIndexSaved = mapGet (nextIndex n) peer ∧
  1 ≤ nextIndexSaved ∧
  nextIndexSaved + len entries = len (log n) + 1 ∧
  entries = drop (Z.to_nat (nextIndexSaved - 1)) (log n) ∧
  AppendEntriesArgs.LastLogIndex args = nextIndexSaved - 1 ∧
  AppendEntriesArgs.Entries args = entries.
Proof.
  unfold sliceLen, uint64. intros Hlen Hnext.
  unfold leaderSendAppendEntries_args.
  intros (? & ? & ? & ? & [= <- <- <-] & Hrun & ->)%bind_Some.
  set (next := mapGet (nextIndex n) peer) in *.
  apply bind_Some in Hrun as (t & n1 & o1 & ? & _ & Hrun & ->).
  apply bind_Some in Hrun as (es & n2 & o2 & ? & Hslice & Hret & ->).
  injection Hret as <- <- <- <- <-.
  unfold slice in Hslice.
  destruct ((0 <=? wrap64 (next - 1)) && (wrap64 (next - 1) <=? len (log n))
            && (Z.to_nat (len (log n))
                <=? length (log n) + length (logSpare n))%nat) eqn:Hok;
    [|done].
  injection Hslice as <- <- <-.
  apply andb_prop in Hok as [[Hlo%Z.leb_le Hhi%Z.leb_le]%andb_prop _].
  rewrite slice_to_len by done.
  assert (1 ≤ next ∧ wrap64 (next - 1) = next - 1) as [H1 Hw].
  { unfold wrap64 in *. destruct (decide (next = 0)) as [E|E].
    - rewrite E in Hhi. change ((0 - 1) mod 2 ^ 64) with (2 ^ 64 - 1) in Hhi.
      lia.
    - rewrite Z.mod_small in * by lia. lia. }
  rewrite Hw in *. cbn.
  assert (int64 (int64 next - 1) = next - 1) as Hi.
  { destruct (decide (next = 2 ^ 63)) as [E|E]; [by rewrite E|].
    rewrite (int64_small next) by lia. apply int64_small. lia. }
  rewrite Hi, ?Hw. unfold len in *.
  rewrite length_drop.
  split_and!; try done; lia.
Qed.

(** ** The theorems at work *)

Section Examples.
#[local] Existing Instance exampleGob.
#[local] Existing Instance exampleRuntime.

Lemma AppendEntries_success_iff_consistent_witness :
  (state exampleFollower ≠ Dead ∧
   AppendEntriesArgs.LeaderId exampleAppend ∈ peerList exampleFollower ∧
   AppendEntriesArgs.Term exampleAppend = currentTerm exampleFollower ∧
   uint64 (AppendEntriesArgs.LastLogIndex exampleAppend)) ∧
  ∃ reply' node' out,
    AppendEntries 5 exampleAppend exampleReply exampleFollower
      = Some (reply', node', out) ∧
    AppendEntriesReply.Success reply' = true ∧
    log node' = [exampleEntry "x" 1; exampleEntry "y" 1; exampleEntry "z" 1].
Proof.
  assert (H1 : state exampleFollower ≠ Dead) by done.
  assert (H2 : AppendEntriesArgs.LeaderId exampleAppend ∈ peerList exampleFollower)
    by (vm_compute; reflexivity).
  assert (H3 : AppendEntriesArgs.Term exampleAppend = currentTerm exampleFollower)
    by reflexivity.
  assert (H4 : uint64 (AppendEntriesArgs.LastLogIndex exampleAppend))
    by (unfold uint64; simpl; lia).
  split; [done|].
  destruct (AppendEntries_success_iff_consistent 5 exampleAppend exampleReply
              exampleFollower H1 H2 H3 H4)
    as (reply' & node' & out & Hrun & Hiff & Hlog).
  assert (Hs : AppendEntriesReply.Success reply' = true).
  { apply Hiff. right. split; [unfold len; simpl; lia|reflexivity]. }
  exists reply', node', out. split; [done|]. split; [done|].
  by rewrite (Hlog Hs).
Defined.

Lemma AppendEntries_recovery_hints_witness :
  (state exampleFollower ≠ Dead ∧
   AppendEntriesArgs.LeaderId exampleConflict ∈ peerList exampleFollower ∧
   AppendEntriesArgs.Term exampleConflict = currentTerm exampleFollower ∧
   uint64 (AppendEntriesArgs.LastLogIndex exampleConflict) ∧
   ¬ (AppendEntriesArgs.LastLogIndex exampleConflict = 0 ∨
      (AppendEntriesArgs.LastLogIndex exampleConflict ≤ len (log exampleFollower) ∧
       termAt (log exampleFollower) (AppendEntriesArgs.LastLogIndex exampleConflict)
         = Some (AppendEntriesArgs.LastLogTerm exampleConflict)))) ∧
  ∃ reply' node' out,
    AppendEntries 5 exampleConflict exampleReply exampleFollower
      = Some (reply', node', out) ∧
    AppendEntriesReply.Success reply' = false ∧
    AppendEntriesReply.RecoveryTerm reply' = 1 ∧
    AppendEntriesReply.RecoveryIndex reply' = 1.
Proof.
  assert (H1 : state exampleFollower ≠ Dead) by done.
  assert (H2 : AppendEntriesArgs.LeaderId exampleConflict ∈ peerList exampleFollower)
    by (vm_compute; reflexivity).
  assert (H3 : AppendEntriesArgs.Term exampleConflict = currentTerm exampleFollower)
    by reflexivity.
  assert (H4 : uint64 (AppendEntriesArgs.LastLogIndex exampleConflict))
    by (unfold uint64; simpl; lia).
  assert (H5 : ¬ (AppendEntriesArgs.LastLogIndex exampleConflict = 0 ∨
      (AppendEntriesArgs.LastLogIndex exampleConflict ≤ len (log exampleFollower) ∧
       termAt (log exampleFollower) (AppendEntriesArgs.LastLogIndex exampleConflict)
         = Some (AppendEntriesArgs.LastLogTerm exampleConflict)))).
  { intros [?|[_ ?]]; done. }
  split; [done|].
  destruct (AppendEntries_recovery_hints 5 exampleConflict exampleReply
              exampleFollower H1 H2 H3 H4 H5)
    as (reply' & node' & out & Hrun & Hf & _ & Hscan).
  exists reply', node', out. split; [done|]. split; [done|].
  destruct Hscan as [Hrt Hri]; [unfold len; simpl; lia|].
  assert (AppendEntriesReply.RecoveryTerm reply' = 1) as Hrt1.
  { by injection Hrt. }
  split; [done|]. rewrite Hrt1 in Hri.
  destruct Hri as [(i & Hi & (t & Ht & Hne) & _ & _)|[_ ?]]; [|done].
  assert (i = 1) as -> by (simpl in Hi; lia). by injection Ht as <-.
Defined.

Lemma RequestVote_grant_iff_witness :
  (state exampleFollower ≠ Dead ∧
   RequestVoteArgs.CandidateId (RequestVoteArgs.mk 1 1 1 1)
     ∈ peerList exampleFollower) ∧
  ∃ reply' node' out,
    RequestVote 5 (RequestVoteArgs.mk 1 1 1 1) (RequestVoteReply.mk 0 false)
      exampleFollower = Some (reply', node', out) ∧
    RequestVoteReply.VoteGranted reply' = true ∧ votedFor node' = 1.
Proof.
  assert (H1 : state exampleFollower ≠ Dead) by done.
  assert (H2 : RequestVoteArgs.CandidateId (RequestVoteArgs.mk 1 1 1 1)
               ∈ peerList exampleFollower) by (vm_compute; reflexivity).
  split; [done|].
  destruct (RequestVote_grant_iff 5 (RequestVoteArgs.mk 1 1 1 1)
              (RequestVoteReply.mk 0 false) exampleFollower H1 H2)
    as (reply' & node' & out & i & t & Hrun & Hlast & _ & _ & Hiff & Hgrant & _).
  injection Hlast as <- <-.
  assert (RequestVoteReply.VoteGranted reply' = true) as Hg.
  { apply Hiff. simpl. split; [done|]. split; [by left|]. right. done. }
  exists reply', node', out. split; [done|]. split; [done|].
  by destruct (Hgrant Hg).
Defined.

(** C2 as stated fails, with the local last log index read as the index of
    the last entry in the numbering from 1: [exampleFollower] holds two
    entries of term 1, and grants its vote to a candidate whose last entry
    has term 1 and whose [LastLogIndex] is 1, below 2. *)
Lemma RequestVote_grants_below_last_index :
  state exampleFollower ≠ Dead ∧
  RequestVoteArgs.CandidateId (RequestVoteArgs.mk 1 1 1 1)
    ∈ peerList exampleFollower ∧
  len (log exampleFollower) = 2 ∧
  termAt (log exampleFollower) 2
    = Some (RequestVoteArgs.LastLogTerm (RequestVoteArgs.mk 1 1 1 1)) ∧
  RequestVoteArgs.LastLogIndex (RequestVoteArgs.mk 1 1 1 1)
    < len (log exampleFollower) ∧
  ∃ reply' node' out,
    RequestVote 5 (RequestVoteArgs.mk 1 1 1 1) (RequestVoteReply.mk 0 false)
      exampleFollower = Some (reply', node', out) ∧
    RequestVoteReply.VoteGranted reply' = true.
Proof.
  split_and!.
  - done.
  - vm_compute; reflexivity.
  - reflexivity.
  - reflexivity.
  - unfold len. simpl. lia.
  - eexists _, _, _. split; [vm_compute; reflexivity|reflexivity].
Qed.

Lemma leader_commit_advancement_witness :
  ((state exampleLeader = Leader ∧
    AppendEntriesReply.Term exampleSuccess = 2 ∧
    AppendEntriesReply.Success exampleSuccess = true ∧
    0 ≤ commitLength exampleLeader < 2 ^ 64 - 1) ∧
   ∃ node' out,
     leaderSendAppendEntries_reply 5 2 2 1 (log exampleLeader) exampleSuccess
       exampleLeader = Some (tt, node', out) ∧
     commitLength node' = 2)
  ∧
  ((peerList exampleAlone = ∅ ∧ 0 ≤ commitLength exampleAlone) ∧
   ∃ node' out,
     leaderSendAppendEntries_alone exampleAlone = Some (tt, node', out) ∧
     commitLength node' = 1).
Proof.
  destruct leader_commit_advancement as [Hreply Halone]. split.
  - assert (H1 : state exampleLeader = Leader) by reflexivity.
    assert (H2 : AppendEntriesReply.Term exampleSuccess = 2) by reflexivity.
    assert (H3 : AppendEntriesReply.Success exampleSuccess = true)
      by reflexivity.
    assert (H4 : 0 ≤ commitLength exampleLeader < 2 ^ 64 - 1)
      by (simpl; lia).
    split; [done|].
    destruct (Hreply 5 2 2 1 (log exampleLeader) exampleSuccess exampleLeader
                H1 H2 H3 H4)
      as (node' & out & Hrun & _ & _ & _ & Hadv & _).
    exists node', out. split; [done|].
    vm_compute in Hrun. by injection Hrun as <- <-.
  - assert (H1 : peerList exampleAlone = ∅) by reflexivity.
    assert (H2 : 0 ≤ commitLength exampleAlone) by (simpl; lia).
    split; [done|].
    destruct (Halone exampleAlone H1 H2)
      as (node' & out & Hrun & _ & _ & _ & Hmax).
    exists node', out. split; [done|].
    vm_compute in Hrun. by injection Hrun as <- <-.
Defined.

Lemma leader_reply_indices_witness :
  ((state exampleLeader = Leader ∧
    AppendEntriesReply.Term exampleSuccess = 2 ∧
    AppendEntriesReply.Success exampleSuccess = true ∧
    0 ≤ commitLength exampleLeader < 2 ^ 64 - 1 ∧
    1 ≤ 1 ∧ 1 + len (log exampleLeader) < 2 ^ 64) ∧
   ∃ node' out,
     leaderSendAppendEntries_reply 5 2 2 1 (log exampleLeader) exampleSuccess
       exampleLeader = Some (tt, node', out) ∧
     mapGet (nextIndex node') 2 = 3 ∧ mapGet (matchedIndex node') 2 = 2)
  ∧
  ((state exampleLeader = Leader ∧
    AppendEntriesReply.Term exampleFailure = 2 ∧
    AppendEntriesReply.Success exampleFailure = false) ∧
   ∃ node' out,
     leaderSendAppendEntries_reply 5 2 2 3 [] exampleFailure exampleLeader
       = Some (tt, node', out) ∧
     mapGet (nextIndex node') 2 = 2).
Proof.
  assert (H1 : state exampleLeader = Leader) by reflexivity.
  split.
  - assert (H2 : AppendEntriesReply.Term exampleSuccess = 2) by reflexivity.
    assert (H3 : AppendEntriesReply.Success exampleSuccess = true)
      by reflexivity.
    assert (H4 : 0 ≤ commitLength exampleLeader < 2 ^ 64 - 1)
      by (simpl; lia).
    assert (H5 : 1 ≤ 1) by lia.
    assert (H6 : 1 + len (log exampleLeader) < 2 ^ 64)
      by (unfold len; simpl; lia).
    split; [done|].
    destruct (proj1 (leader_reply_indices 5 2 2 1 (log exampleLeader)
                       exampleSuccess exampleLeader H1 H2) H3 H4 H5 H6)
      as (node' & out & Hrun & Hnext & Hmatch).
    exists node', out. split; [done|]. rewrite Hmatch, Hnext. done.
  - assert (H2 : AppendEntriesReply.Term exampleFailure = 2) by reflexivity.
    assert (H3 : AppendEntriesReply.Success exampleFailure = false)
      by reflexivity.
    split; [done|].
    destruct (proj2 (leader_reply_indices 5 2 2 3 [] exampleFailure
                       exampleLeader H1 H2) H3)
      as (node' & out & Hrun & _ & Hrt).
    exists node', out. split; [done|].
    destruct (Hrt ltac:(done)) as [Hfound _].
    apply (Hfound 1); [reflexivity|].
    intros j Hj. destruct (decide (j = 2)) as [->|Hne]; [done|].
    unfold termAt, logAt. destruct (Z.leb_spec 1 j); [|done].
    rewrite lookup_ge_None_2; [done|]. simpl. lia.
Defined.

Lemma LeaveCluster_self_witness :
  (state exampleLeader = Leader ∧
   LeaveClusterArgs.ServerId (LeaveClusterArgs.mk 1) = id exampleLeader) ∧
  ∃ out,
    LeaveCluster (LeaveClusterArgs.mk 1) (LeaveClusterReply.mk false)
      exampleLeader = Some (LeaveClusterReply.mk true, exampleLeader, out).
Proof.
  assert (H1 : state exampleLeader = Leader) by reflexivity.
  assert (H2 : LeaveClusterArgs.ServerId (LeaveClusterArgs.mk 1)
               = id exampleLeader) by reflexivity.
  split; [done|].
  destruct (LeaveCluster_self (LeaveClusterArgs.mk 1)
              (LeaveClusterReply.mk false) exampleLeader H1 H2)
    as (out & Hrun & _). by exists out.
Defined.

(** C6 as stated fails: at the leader [exampleLeader], node 1, a
    [LeaveCluster] call for server 1 returns with [Success = true]. *)
Lemma LeaveCluster_self_reports_success :
  state exampleLeader = Leader ∧
  LeaveClusterArgs.ServerId (LeaveClusterArgs.mk 1) = id exampleLeader ∧
  ∃ reply' node' out,
    LeaveCluster (LeaveClusterArgs.mk 1) (LeaveClusterReply.mk false)
      exampleLeader = Some (reply', node', out) ∧
    LeaveClusterReply.Success reply' ≠ false.
Proof.
  split; [done|]. split; [done|]. by eexists _, _, _.
Qed.

Lemma term_advance_resets_vote_witness :
  ∃ n' o,
    (perform (DoAppendEntries 5 (AppendEntriesArgs.mk 3 1 0 0 [] 0) exampleReply)
       exampleFollower = Some (tt, n', o) ∧
     currentTerm n' ≠ currentTerm exampleFollower) ∧
    votedFor n' = -1.
Proof.
  assert (∃ n' o,
    perform (DoAppendEntries 5 (AppendEntriesArgs.mk 3 1 0 0 [] 0) exampleReply)
      exampleFollower = Some (tt, n', o) ∧
    currentTerm n' ≠ currentTerm exampleFollower) as (n' & o & H1 & H2).
  { eexists _, _. split; [vm_compute; reflexivity|]. simpl. lia. }
  exists n', o. split; [done|].
  exact (proj2 (proj2 term_advance_resets_vote) _ _ _ _ H1 H2).
Defined.

(** C8 as stated fails: [startElection] at [exampleFollower], node 2,
    raises [currentTerm] from 1 to 2 and leaves [votedFor] at 2. *)
Lemma startElection_votes_for_self :
  ∃ node' out,
    startElection 5 exampleFollower = Some (tt, node', out) ∧
    currentTerm exampleFollower < currentTerm node' ∧
    votedFor node' = 2 ∧ votedFor node' ≠ -1.
Proof.
  eexists _, _. split; [vm_compute; reflexivity|]. simpl. split_and!; lia.
Qed.

Lemma newLogEntry_not_leader_witness :
  (state exampleFollower ≠ Leader ∧ (∀ key, Write "k" 1 ≠ Read key)) ∧
  newLogEntry (Write "k" 1) exampleFollower
    = Some ((false, None, None), exampleFollower, []).
Proof.
  assert (H1 : state exampleFollower ≠ Leader) by done.
  assert (H2 : ∀ key, Write "k" 1 ≠ Read key) by done.
  split; [done|].
  exact (proj1 newLogEntry_not_leader (Write "k" 1) exampleFollower H1 H2).
Defined.

Lemma dispatcher_records_witness :
  ((sendCommit (set_commitLength 2 exampleFollower)
      = Some (tt, set_lastApplied 2 (set_commitLength 2 exampleFollower),
              [SendCommitChan (CommitEntry.mk (Other "x") 1 1);
               SendCommitChan (CommitEntry.mk (Other "y") 1 2)]) ∧
    delivered [SendCommitChan (CommitEntry.mk (Other "x") 1 1);
               SendCommitChan (CommitEntry.mk (Other "y") 1 2)] !! 1%nat
      = Some (CommitEntry.mk (Other "y") 1 2)) ∧
   CommitEntry.Index (CommitEntry.mk (Other "y") 1 2)
     = lastApplied (set_commitLength 2 exampleFollower) + Z.of_nat 1 + 1)
  ∧
  ((0 ≤ lastApplied (set_commitLength 2 exampleFollower)
      < commitLength (set_commitLength 2 exampleFollower) ∧
    commitLength (set_commitLength 2 exampleFollower)
      ≤ len (log (set_commitLength 2 exampleFollower))
        + len (logSpare (set_commitLength 2 exampleFollower))) ∧
   ∃ n' o,
     sendCommit (set_commitLength 2 exampleFollower) = Some (tt, n', o) ∧
     lastApplied n' = 2 ∧ CommitEntry.Index <$> delivered o = [1; 2])
  ∧
  ((CreateNode 0 2 {[1; 3]} ∅
      = Some (mkNode 2 {[1; 3]} ∅ 0 (-1) [] 0 0 Follower 0 ∅ ∅ [] Open) ∧
    ∃ n o,
      run exampleTermChange (mkNode 2 {[1; 3]} ∅ 0 (-1) [] 0 0 Follower 0 ∅ ∅ [] Open)
        = Some (tt, n, o) ∧ lastApplied n = 2) ∧
   ∃ n o,
     run exampleTermChange (mkNode 2 {[1; 3]} ∅ 0 (-1) [] 0 0 Follower 0 ∅ ∅ [] Open)
       = Some (tt, n, o) ∧
     CommitEntry.Index <$> delivered o = [1; 2]).
Proof.
  destruct dispatcher_records as (Hrecord & Hround & Hrun & _).
  split; [|split].
  - assert (H1 : sendCommit (set_commitLength 2 exampleFollower)
      = Some (tt, set_lastApplied 2 (set_commitLength 2 exampleFollower),
              [SendCommitChan (CommitEntry.mk (Other "x") 1 1);
               SendCommitChan (CommitEntry.mk (Other "y") 1 2)]))
      by (vm_compute; reflexivity).
    assert (H2 : delivered [SendCommitChan (CommitEntry.mk (Other "x") 1 1);
                            SendCommitChan (CommitEntry.mk (Other "y") 1 2)]
                   !! 1%nat
                 = Some (CommitEntry.mk (Other "y") 1 2)) by reflexivity.
    split; [done|]. exact (proj1 (Hrecord _ _ _ H1 _ _ H2)).
  - assert (H1 : 0 ≤ lastApplied (set_commitLength 2 exampleFollower)
                   < commitLength (set_commitLength 2 exampleFollower))
      by (simpl; lia).
    assert (H2 : commitLength (set_commitLength 2 exampleFollower)
                 ≤ len (log (set_commitLength 2 exampleFollower))
                   + len (logSpare (set_commitLength 2 exampleFollower)))
      by (unfold len; simpl; lia).
    split; [done|].
    destruct (proj1 (Hround (set_commitLength 2 exampleFollower) H1) H2)
      as (n' & o & Hsend & Hla & Hidx).
    exists n', o. split; [done|]. split; [done|]. rewrite Hidx. reflexivity.
  - assert (H1 : CreateNode 0 2 {[1; 3]} ∅
                 = Some (mkNode 2 {[1; 3]} ∅ 0 (-1) [] 0 0 Follower 0 ∅ ∅ [] Open))
      by reflexivity.
    assert (H2 : ∃ n o,
      run exampleTermChange (mkNode 2 {[1; 3]} ∅ 0 (-1) [] 0 0 Follower 0 ∅ ∅ [] Open)
        = Some (tt, n, o) ∧ lastApplied n = 2).
    { eexists _, _. split; [vm_compute; reflexivity|reflexivity]. }
    split; [done|]. destruct H2 as (n & o & Hr & Hla).
    exists n, o. split; [done|].
    rewrite (Hrun 0 2 {[1; 3]} ∅ _ exampleTermChange n o H1 Hr), Hla.
    reflexivity.
Defined.

End Examples.

(** * Further properties of the code *)

Section Further.
Context `{codec : Gob} `{Runtime}.

(** ** Calls that are dropped, calls of an old term *)

(** X1.  A node that is [Dead], or that does not have the sender in its
    peer set, drops [AppendEntries] and [RequestVote]: the reply stays as it
    came in (not even [Term] is set), the node and its store do not change,
    nothing is signalled. *)
Theorem rpc_dropped :
  (∀ now args reply n,
     state n = Dead ∨ AppendEntriesArgs.LeaderId args ∉ peerList n →
     AppendEntries now args reply n = Some (reply, n, []))
  ∧ (∀ now args reply n,
       state n = Dead ∨ RequestVoteArgs.CandidateId args ∉ peerList n →
       RequestVote now args reply n = Some (reply, n, [])).
Proof.
  split; intros now args reply n Hdrop.
  - unfold AppendEntries, mbind, M_bind, get, PeerSet.Exists.
    destruct Hdrop as [Hd|Hp].
    + by rewrite bool_decide_eq_true_2.
    + rewrite (bool_decide_eq_false_2 (_ ∈ _)) by done.
      by rewrite orb_true_r.
  - unfold RequestVote, mbind, M_bind, get, PeerSet.Exists.
    destruct Hdrop as [Hd|Hp].
    + by rewrite bool_decide_eq_true_2.
    + rewrite (bool_decide_eq_false_2 (_ ∈ _)) by done.
      by rewrite orb_true_r.
Qed.

Lemma AppendEntries_stale now args reply n :
  state n ≠ Dead → AppendEntriesArgs.LeaderId args ∈ peerList n →
  AppendEntriesArgs.Term args < currentTerm n →
  AppendEntries now args reply n
  = Some (SetReply.AE_Term (currentTerm n) (SetReply.AE_Success false reply),
          set_db (persisted n) n, []).
Proof.
  intros Hd Hp Ht.
  unfold AppendEntries, mbind, M_bind, get, PeerSet.Exists.
  rewrite bool_decide_eq_false_2, bool_decide_eq_true_2 by done.
  cbn [orb negb].
  rewrite (proj2 (Z.ltb_ge _ _)) by lia. cbn [when mret M_ret].
  rewrite (proj2 (Z.eqb_neq _ _)) by lia. done.
Qed.

(** X2.  A call of a term below [currentTerm], at a live node that knows
    the sender, is refused: the reply carries [Success = false]
    ([VoteGranted = false]) and the node's [currentTerm]; nothing of the node
    changes but the store, which is written again. *)
Theorem stale_term_refused :
  (∀ now args reply n,
     state n ≠ Dead → AppendEntriesArgs.LeaderId args ∈ peerList n →
     AppendEntriesArgs.Term args < currentTerm n →
     AppendEntries now args reply n
       = Some (SetReply.AE_Term (currentTerm n) (SetReply.AE_Success false reply),
               set_db (persisted n) n, []))
  ∧ (∀ now args reply n,
       state n ≠ Dead → RequestVoteArgs.CandidateId args ∈ peerList n →
       RequestVoteArgs.Term args < currentTerm n →
       RequestVote now args reply n
         = Some (SetReply.RV_Term (currentTerm n)
                   (SetReply.RV_VoteGranted false reply),
                 set_db (persisted n) n, [])).
Proof.
  split; intros now args reply n Hd Hp Ht.
  - by apply AppendEntries_stale.
  - unfold RequestVote, mbind, M_bind, get, PeerSet.Exists.
    rewrite bool_decide_eq_false_2, bool_decide_eq_true_2 by done.
    cbn [orb negb].
    destruct (wp_elim _ _ _ (wp_lastLogIndexAndTerm n))
      as ([i t] & ? & ? & -> & -> & -> & _).
    rewrite (proj2 (Z.ltb_ge _ _)) by lia. cbn [when mret M_ret].
    rewrite (proj2 (Z.eqb_neq _ _)) by lia. done.
Qed.

(** ** What [AppendEntries] does to the follower *)

Lemma removedBy_cons self e es :
  removedBy self (e :: es)
  = match LogEntry.Command e with
    | RemoveServer sid => if sid =? self then ∅ else {[sid]}
    | _ => ∅
    end ∪ removedBy self es.
Proof.
  unfold removedBy. cbn [omap list_omap].
  destruct (LogEntry.Command e) as [| | |sid| | |]; cbn;
    try (by rewrite union_empty_l_L).
  destruct (sid =? self); cbn; [by rewrite union_empty_l_L|done].
Qed.

Lemma set_peerList_twice p q n : set_peerList p (set_peerList q n) = set_peerList p n.
Proof. done. Qed.

Lemma wp_applyMembership_peers es n :
  wp (forEach es applyMembership) n (λ _ n' o,
    n' = set_peerList (peerList n ∖ removedBy (id n) es) n ∧
    o = connectsOf (id n) es).
Proof.
  revert n. induction es as [|e es IH]; intros n.
  { simpl. apply wp_ret. split; [|done].
    unfold removedBy. cbn. rewrite difference_empty_L. by destruct n. }
  assert (Hk : ∀ n1 (r : gset Z) o1,
            n1 = set_peerList (peerList n ∖ r) n →
            removedBy (id n) (e :: es) = r ∪ removedBy (id n) es →
            connectsOf (id n) (e :: es) = o1 ++ connectsOf (id n) es →
            wp (forEach es applyMembership) n1
              (λ _ n2 o2,
                n2 = set_peerList (peerList n ∖ removedBy (id n) (e :: es)) n ∧
                o1 ++ o2 = connectsOf (id n) (e :: es))).
  { intros n1 r o1 -> Hr Ho1. eapply wp_mono; [apply IH|].
    intros _ n2 o2 [-> ->]. cbn [peerList id set_peerList].
    split; [|by rewrite Ho1].
    rewrite set_peerList_twice, Hr. f_equal.
    apply difference_difference_l_L. }
  assert (Hsame : n = set_peerList (peerList n ∖ ∅) n).
  { rewrite difference_empty_L. by destruct n. }
  cbn [forEach]. apply wp_bind. unfold applyMembership. wp_step. wp_step.
  pose proof (removedBy_cons (id n) e es) as Hcons.
  assert (connectsOf (id n) (e :: es) =
          match LogEntry.Command e with
          | AddServer sid addr =>
              if id n =? sid then [] else [ConnectToPeer sid addr]
          | _ => []
          end ++ connectsOf (id n) es) as Hconn.
  { unfold connectsOf. cbn. destruct (LogEntry.Command e); try done.
    by destruct (_ =? _). }
  destruct (LogEntry.Command e) as [| |sid addr|sid| | |];
    try (wp_step; by apply (Hk n ∅ [])).
  - destruct (Z.eqb_spec (id n) sid) as [E|E]; cbn [negb when].
    + wp_step. by apply (Hk n ∅ []).
    + wp_step. by apply (Hk n ∅ [ConnectToPeer sid addr]).
  - destruct (Z.eqb_spec (id n) sid) as [E|E]; cbn [negb andb when].
    + wp_step. rewrite (proj2 (Z.eqb_eq sid (id n))) in Hcons by done.
      by apply (Hk n ∅ []).
    + rewrite (proj2 (Z.eqb_neq sid (id n))) in Hcons by done.
      unfold PeerSet.Exists, PeerSet.Remove.
      case_bool_decide as Hin; cbn [andb when].
      * wp_step. by apply (Hk _ {[sid]} []).
      * wp_step. apply (Hk n {[sid]} []); [|done..].
        rewrite difference_disjoint_L by (by apply disjoint_singleton_r).
        by destruct n.
Qed.

Lemma wp_AppendEntries_accept_full args reply n :
  wp (AppendEntries_accept args reply) n (λ r n' o,
    r = SetReply.AE_Success true reply ∧ n' = accepted args n ∧
    o = connectsOf (id n) (AppendEntriesArgs.Entries args) ++
        (if commitLength n <? AppendEntriesArgs.LeaderCommit args
         then [SendNewCommitReady] else [])).
Proof.
  unfold AppendEntries_accept. wp_step. wp_step. wp_step.
  eapply wp_mono; [apply wp_applyMembership_peers|].
  intros _ ? o1 [-> ->]. wp_step. wp_step. wp_step.
  cbn [commitLength set_peerList set_log set_logSpare log peerList id].
  unfold accepted, acceptedCommit, acceptedLog, acceptedSpare.
  destruct (commitLength n <? AppendEntriesArgs.LeaderCommit args);
    cbn [when]; wp_run; (split; [done|]); (split; [by destruct n|]);
    cbn; by rewrite ?app_nil_r.
Qed.

(** The handler in closed form, for a call that is not dropped and whose
    term is not stale. *)
Lemma wp_AppendEntries_closed now args reply n :
  state n ≠ Dead →
  AppendEntriesArgs.LeaderId args ∈ peerList n →
  currentTerm n ≤ AppendEntriesArgs.Term args →
  uint64 (AppendEntriesArgs.LastLogIndex args) →
  let n2 := adoptLeader now (AppendEntriesArgs.Term args) n in
  let timer := if stepsDown (AppendEntriesArgs.Term args) n
               then [GoRunElectionTimer] else [] in
  wp (AppendEntries now args reply) n (λ r n' o,
    (consistentWith (log n) (AppendEntriesArgs.LastLogIndex args)
       (AppendEntriesArgs.LastLogTerm args) →
     r = SetReply.AE_Term (AppendEntriesArgs.Term args)
           (SetReply.AE_Success true (SetReply.AE_Success false reply)) ∧
     n' = set_db (persisted (accepted args n2)) (accepted args n2) ∧
     o = timer ++ connectsOf (id n) (AppendEntriesArgs.Entries args) ++
         (if commitLength n <? AppendEntriesArgs.LeaderCommit args
          then [SendNewCommitReady] else [])) ∧
    (¬ consistentWith (log n) (AppendEntriesArgs.LastLogIndex args)
         (AppendEntriesArgs.LastLogTerm args) →
     AppendEntriesReply.Success r = false ∧
     AppendEntriesReply.Term r = AppendEntriesArgs.Term args ∧
     n' = set_db (persisted n2) n2 ∧ o = timer)).
Proof.
  intros Hd Hp Ht Hi n2 timer. unfold AppendEntries. wp_step. wp_step.
  rewrite bool_decide_eq_false_2 by done.
  unfold PeerSet.Exists. rewrite bool_decide_eq_true_2 by done.
  cbn [orb negb]. wp_step.
  set (T := AppendEntriesArgs.Term args) in *.
  set (F := λ m, set_electionResetEvent now (set_votedFor (-1)
                   (set_currentTerm T (set_state Follower m)))).
  set (n1 := if currentTerm n <? T then F n else n).
  apply (wp_mono _ _ (λ _ n' o,
           n' = n1 ∧ o = if currentTerm n <? T then [GoRunElectionTimer] else [])).
  { subst n1. apply wp_when; intros ->; [|done].
    unfold becomeFollower. wp_run. done. }
  intros _ ? ? [-> ->]. wp_step. wp_step. wp_step.
  assert (currentTerm n1 = T) as Ht1.
  { subst n1 F. destruct (Z.ltb_spec (currentTerm n) T); cbn; [done|lia]. }
  rewrite Ht1, Z.eqb_refl. wp_step.
  set (n1' := if negb (bool_decide (state n1 = Follower)) then F n1 else n1).
  apply (wp_mono _ _ (λ _ n' o,
           n' = n1' ∧ o = if negb (bool_decide (state n1 = Follower))
                          then [GoRunElectionTimer] else [])).
  { subst n1'. apply wp_when; intros ->; [|done].
    unfold becomeFollower. wp_run. done. }
  intros _ ? ? [-> ->]. wp_step. wp_step. wp_step.
  assert (set_electionResetEvent now n1' = n2 ∧
          (if currentTerm n <? T then [GoRunElectionTimer] else [])
          ++ (if negb (bool_decide (state n1 = Follower))
              then [GoRunElectionTimer] else []) = timer) as [Hn2 Htimer].
  { subst n1' n1 n2 timer F. unfold adoptLeader, stepsDown. fold T.
    destruct (currentTerm n <? T); cbn.
    - done.
    - destruct (bool_decide (state n = Follower)); cbn; [done|].
      by destruct n. }
  rewrite Hn2.
  assert (log n2 = log n ∧ commitLength n2 = commitLength n ∧ id n2 = id n)
    as (Hl2 & Hc2 & Hid2).
  { subst n2. unfold adoptLeader. by destruct (stepsDown _ _). }
  assert (currentTerm n2 = T) as Ht2.
  { rewrite <- Hn2. subst n1'. cbn. by destruct (negb _). }
  eapply wp_mono; [by apply wp_AppendEntries_consistent|].
  rewrite Hl2. intros ok ? ? (-> & -> & Hok).
  destruct ok.
  - eapply wp_mono; [apply wp_AppendEntries_accept_full|].
    intros r ? o3 (-> & -> & ->).
    wp_step. wp_step. unfold persistToStorage. wp_run.
    split; [|intros Hno; destruct Hno; by apply Hok].
    intros _. split_and!.
    + f_equal. exact Ht2.
    + done.
    + rewrite Hc2, Hid2.
      rewrite !app_nil_r, !app_nil_l, !app_assoc. by rewrite Htimer.
  - eapply wp_mono; [apply wp_AppendEntries_reject; [done|]|].
    { rewrite Hl2. intros Hc. by apply Hok in Hc. }
    intros r ? ? (-> & -> & Hsr & Htr & Hh).
    wp_step. wp_step. unfold persistToStorage. wp_run.
    split; [intros Hc; by apply Hok in Hc|].
    intros _. cbn. split_and!; [done| |done|].
    + exact Ht2.
    + rewrite !app_nil_r. exact Htimer.
Qed.

Lemma elem_of_removedBy self es p :
  p ∈ removedBy self es ↔
  p ≠ self ∧ ∃ e, e ∈ es ∧ LogEntry.Command e = RemoveServer p.
Proof.
  unfold removedBy. rewrite elem_of_list_to_set, list_elem_of_omap. split.
  - intros (e & He & Hc).
    destruct (LogEntry.Command e) as [| | |sid| | |] eqn:E; try done.
    destruct (Z.eqb_spec sid self); [done|].
    injection Hc as <-. eauto.
  - intros (Hp & e & He & Hc). exists e. split; [done|]. rewrite Hc.
    destruct (Z.eqb_spec p self); done.
Qed.

Lemma adoptLeader_fields now term n :
  currentTerm n ≤ term →
  let n2 := adoptLeader now term n in
  state n2 = Follower ∧ currentTerm n2 = term ∧ electionResetEvent n2 = now ∧
  votedFor n2 = (if stepsDown term n then -1 else votedFor n) ∧
  id n2 = id n ∧ peerList n2 = peerList n ∧ log n2 = log n ∧
  commitLength n2 = commitLength n ∧ lastApplied n2 = lastApplied n ∧
  nextIndex n2 = nextIndex n ∧ matchedIndex n2 = matchedIndex n ∧
  db n2 = db n.
Proof.
  intros Ht. unfold adoptLeader, stepsDown.
  destruct (Z.ltb_spec (currentTerm n) term); cbn; [done|].
  case_bool_decide; cbn; [|done]. split_and!; try done. lia.
Qed.

Lemma elem_of_connectsOf self es x :
  x ∈ connectsOf self es ↔
  ∃ p a, x = ConnectToPeer p a ∧ p ≠ self ∧
         ∃ e, e ∈ es ∧ LogEntry.Command e = AddServer p a.
Proof.
  unfold connectsOf. rewrite list_elem_of_omap. split.
  - intros (e & He & Hc).
    destruct (LogEntry.Command e) as [| |sid addr| | | |] eqn:E; try done.
    destruct (Z.eqb_spec self sid); [done|].
    injection Hc as <-. exists sid, addr. eauto.
  - intros (p & a & -> & Hp & e & He & Hc). exists e. split; [done|].
    rewrite Hc. destruct (Z.eqb_spec self p); done.
Qed.

Lemma not_elem_of_timer (b : bool) x :
  x ≠ GoRunElectionTimer → x ∉ (if b then [GoRunElectionTimer] else []).
Proof.
  intros Hx Hin. destruct b; [|by apply elem_of_nil in Hin].
  by apply list_elem_of_singleton in Hin.
Qed.

(** X3. A live node that receives [AppendEntries] from a known peer with a
    term that is not stale ends as a follower of that term with its election
    timer reset, whether the entries are accepted or not.  It forgets its
    vote and starts a new election timer exactly when the term is new or it
    was not a follower; its identity, [lastApplied] and the leader indices
    are not touched. *)
Theorem AppendEntries_adopts_leader now args reply n :
  state n ≠ Dead →
  AppendEntriesArgs.LeaderId args ∈ peerList n →
  currentTerm n ≤ AppendEntriesArgs.Term args →
  uint64 (AppendEntriesArgs.LastLogIndex args) →
  ∃ r n' o, AppendEntries now args reply n = Some (r, n', o) ∧
    state n' = Follower ∧
    currentTerm n' = AppendEntriesArgs.Term args ∧
    AppendEntriesReply.Term r = AppendEntriesArgs.Term args ∧
    electionResetEvent n' = now ∧
    votedFor n' = (if stepsDown (AppendEntriesArgs.Term args) n
                   then -1 else votedFor n) ∧
    (GoRunElectionTimer ∈ o ↔ stepsDown (AppendEntriesArgs.Term args) n = true) ∧
    id n' = id n ∧ lastApplied n' = lastApplied n ∧
    nextIndex n' = nextIndex n ∧ matchedIndex n' = matchedIndex n.
Proof.
  intros Hd Hp Ht Hi.
  destruct (wp_elim _ _ _ (wp_AppendEntries_closed now args reply n Hd Hp Ht Hi))
    as (r & n' & o & Hrun & Hyes & Hno).
  exists r, n', o. split; [done|].
  destruct (adoptLeader_fields now _ n Ht)
    as (Hs & Hc & He & Hv & Hid & _ & _ & _ & Hla & Hni & Hmi & _).
  destruct (classic_consistent (log n) (AppendEntriesArgs.LastLogIndex args)
              (AppendEntriesArgs.LastLogTerm args)) as [Hcons|Hcons].
  - destruct (Hyes Hcons) as (-> & -> & ->).
    cbn. split_and!; try done.
    rewrite !elem_of_app. split.
    + intros [Hin|[Hin|Hin]].
      * by destruct (stepsDown _ _); [|apply elem_of_nil in Hin].
      * by apply elem_of_connectsOf in Hin as (? & ? & ? & _).
      * destruct (_ <? _); [|by apply elem_of_nil in Hin].
        by apply list_elem_of_singleton in Hin.
    + intros ->. left. by apply list_elem_of_singleton.
  - destruct (Hno Hcons) as (Hsr & Htr & -> & ->).
    cbn. split_and!; try done.
    destruct (stepsDown _ _); [by rewrite list_elem_of_singleton|].
    by rewrite elem_of_nil.
Qed.

(** X4. The entries of an accepted [AppendEntries] request change the
    follower's membership in one way only: a peer stays exactly when it was a
    peer and no received entry is a [RemoveServer] of it, the node's own id
    apart.  An [AddServer] entry adds nobody to the peer set: the node asks
    its server for a connection to every added server but itself, and for
    no other connection. *)
Theorem AppendEntries_membership now args reply n :
  state n ≠ Dead →
  AppendEntriesArgs.LeaderId args ∈ peerList n →
  currentTerm n ≤ AppendEntriesArgs.Term args →
  uint64 (AppendEntriesArgs.LastLogIndex args) →
  consistentWith (log n) (AppendEntriesArgs.LastLogIndex args)
    (AppendEntriesArgs.LastLogTerm args) →
  ∃ r n' o, AppendEntries now args reply n = Some (r, n', o) ∧
    (∀ p, p ∈ peerList n' ↔
          p ∈ peerList n ∧
          (p = id n ∨ ∀ e, e ∈ AppendEntriesArgs.Entries args →
                           LogEntry.Command e ≠ RemoveServer p)) ∧
    (∀ p a, ConnectToPeer p a ∈ o ↔
            p ≠ id n ∧
            ∃ e, e ∈ AppendEntriesArgs.Entries args ∧
                 LogEntry.Command e = AddServer p a).
Proof.
  intros Hd Hp Ht Hi Hcons.
  destruct (wp_elim _ _ _ (wp_AppendEntries_closed now args reply n Hd Hp Ht Hi))
    as (r & n' & o & Hrun & Hyes & _).
  exists r, n', o. split; [done|].
  destruct (adoptLeader_fields now _ n Ht)
    as (_ & _ & _ & _ & Hid & Hpl & _).
  destruct (Hyes Hcons) as (-> & -> & ->). cbn [peerList set_db accepted
    set_commitLength set_peerList set_log id].
  rewrite Hid, Hpl. split.
  - intros p. rewrite elem_of_difference, elem_of_removedBy. split.
    + intros [Hin Hnot]. split; [done|].
      destruct (decide (p = id n)) as [|Hne]; [by left|right].
      intros e He Hc. apply Hnot. eauto.
    + intros [Hin Hk]. split; [done|].
      intros (Hne & e & He & Hc). destruct Hk as [|Hk]; [done|].
      by apply (Hk e).
  - intros p a. rewrite !elem_of_app, elem_of_connectsOf. split.
    + intros [Hin|[(p' & a' & [= -> ->] & Hne & He)|Hin]]; [| done |].
      * by destruct (stepsDown _ _);
          [apply list_elem_of_singleton in Hin|apply elem_of_nil in Hin].
      * by destruct (_ <? _);
          [apply list_elem_of_singleton in Hin|apply elem_of_nil in Hin].
    + intros [Hne He]. right; left. by exists p, a.
Qed.

(** X5. An [AppendEntries] request that fails the consistency check leaves
    the follower's log, [commitLength] and peer set as they were; it sends
    nothing to the commit dispatcher and asks for no connection. *)
Theorem AppendEntries_refusal_keeps_log now args reply n :
  state n ≠ Dead →
  AppendEntriesArgs.LeaderId args ∈ peerList n →
  currentTerm n ≤ AppendEntriesArgs.Term args →
  uint64 (AppendEntriesArgs.LastLogIndex args) →
  ¬ consistentWith (log n) (AppendEntriesArgs.LastLogIndex args)
      (AppendEntriesArgs.LastLogTerm args) →
  ∃ r n' o, AppendEntries now args reply n = Some (r, n', o) ∧
    AppendEntriesReply.Success r = false ∧
    log n' = log n ∧ commitLength n' = commitLength n ∧
    peerList n' = peerList n ∧
    (SendNewCommitReady ∉ o) ∧ (∀ p a, ConnectToPeer p a ∉ o).
Proof.
  intros Hd Hp Ht Hi Hcons.
  destruct (wp_elim _ _ _ (wp_AppendEntries_closed now args reply n Hd Hp Ht Hi))
    as (r & n' & o & Hrun & _ & Hno).
  exists r, n', o. split; [done|].
  destruct (adoptLeader_fields now _ n Ht)
    as (_ & _ & _ & _ & _ & Hpl & Hl & Hc & _).
  destruct (Hno Hcons) as (Hsr & _ & -> & ->).
  cbn. split_and!; try done.
  - by apply not_elem_of_timer.
  - intros p a. by apply not_elem_of_timer.
Qed.

(** X6. An accepted [AppendEntries] request moves the follower's
    [commitLength] only when the leader's is larger: then it becomes the
    smaller of the leader's [commitLength] and the length of the new log
    (both below [2^53], where the conversion to [float64] is exact) and the
    commit dispatcher is signalled once; otherwise [commitLength] stays and
    no signal is sent. *)
Theorem AppendEntries_commit_update now args reply n :
  state n ≠ Dead →
  AppendEntriesArgs.LeaderId args ∈ peerList n →
  currentTerm n ≤ AppendEntriesArgs.Term args →
  uint64 (AppendEntriesArgs.LastLogIndex args) →
  consistentWith (log n) (AppendEntriesArgs.LastLogIndex args)
    (AppendEntriesArgs.LastLogTerm args) →
  AppendEntriesArgs.LeaderCommit args < 2 ^ 53 →
  AppendEntriesArgs.LastLogIndex args
    + len (AppendEntriesArgs.Entries args) < 2 ^ 53 →
  ∃ r n' o, AppendEntries now args reply n = Some (r, n', o) ∧
    len (log n') = AppendEntriesArgs.LastLogIndex args
                   + len (AppendEntriesArgs.Entries args) ∧
    (commitLength n < AppendEntriesArgs.LeaderCommit args →
     commitLength n' = Z.min (AppendEntriesArgs.LeaderCommit args)
                             (len (log n')) ∧
     ∃ o1, o = o1 ++ [SendNewCommitReady] ∧ SendNewCommitReady ∉ o1) ∧
    (AppendEntriesArgs.LeaderCommit args ≤ commitLength n →
     commitLength n' = commitLength n ∧ SendNewCommitReady ∉ o).
Proof.
  intros Hd Hp Ht Hi Hcons Hlc Hlen.
  destruct (wp_elim _ _ _ (wp_AppendEntries_closed now args reply n Hd Hp Ht Hi))
    as (r & n' & o & Hrun & Hyes & _).
  exists r, n', o. split; [done|].
  destruct (adoptLeader_fields now _ n Ht)
    as (_ & _ & _ & _ & _ & _ & Hl & Hc & _).
  destruct (Hyes Hcons) as (-> & -> & ->).
  cbn [log commitLength set_db accepted set_commitLength set_peerList
    set_logSpare set_log].
  unfold acceptedCommit, acceptedLog. rewrite Hl, Hc.
  assert (len (take (Z.to_nat (AppendEntriesArgs.LastLogIndex args)) (log n)
               ++ AppendEntriesArgs.Entries args)
          = AppendEntriesArgs.LastLogIndex args
            + len (AppendEntriesArgs.Entries args)) as Hnew.
  { unfold len in *. rewrite length_app, length_take. destruct Hi as [Hi _].
    destruct Hcons as [->|[Hle _]]; unfold len in *; lia. }
  rewrite Hnew. split; [done|].
  assert (∀ x, x ∈ (if stepsDown (AppendEntriesArgs.Term args) n
                    then [GoRunElectionTimer] else [])
                   ++ connectsOf (id n) (AppendEntriesArgs.Entries args) →
               x ≠ SendNewCommitReady) as Hpre.
  { intros x [Hin|Hin]%elem_of_app ->.
    - by apply not_elem_of_timer in Hin.
    - by apply elem_of_connectsOf in Hin as (? & ? & ? & _). }
  split.
  - intros Hlt. rewrite (proj2 (Z.ltb_lt _ _)) by done.
    unfold float64. rewrite !(proj2 (Z.ltb_lt _ (2 ^ 53))) by done.
    split; [done|]. eexists. rewrite app_assoc. split; [done|].
    intros Hin. by apply Hpre in Hin.
  - intros Hle. rewrite (proj2 (Z.ltb_ge _ _)) by done.
    split; [done|]. rewrite app_nil_r. intros Hin. by apply Hpre in Hin.
Qed.

(** ** What [RequestVote] does to the voter *)

Lemma wp_eq {A} (m : M A) n v :
  wp m n (λ a n' o, (a, n', o) = v) → m n = Some v.
Proof. intros (a & n' & o & -> & <-)%wp_elim. done. Qed.

Lemma wp_becomeFollower now term n :
  wp (becomeFollower now term) n (λ _ n' o,
    n' = follower now term n ∧ o = [GoRunElectionTimer]).
Proof. unfold becomeFollower. wp_run. done. Qed.

(** The handler in closed form, for a call that is not dropped. *)
Lemma wp_RequestVote_closed now args reply n :
  state n ≠ Dead →
  RequestVoteArgs.CandidateId args ∈ peerList n →
  ∃ i t, lastOf (log n) i t ∧
  let higher := currentTerm n <? RequestVoteArgs.Term args in
  let n1 := if higher then follower now (RequestVoteArgs.Term args) n else n in
  let grant :=
    (RequestVoteArgs.Term args =? currentTerm n1)
    && ((votedFor n1 =? -1)
        || (votedFor n1 =? int64 (RequestVoteArgs.CandidateId args)))
    && ((t <? RequestVoteArgs.LastLogTerm args)
        || ((RequestVoteArgs.LastLogTerm args =? t)
            && (i <=? RequestVoteArgs.LastLogIndex args))) in
  let n2 := if grant
            then set_electionResetEvent now
                   (set_votedFor (int64 (RequestVoteArgs.CandidateId args)) n1)
            else n1 in
  RequestVote now args reply n
  = Some (SetReply.RV_Term (currentTerm n1) (SetReply.RV_VoteGranted grant reply),
          set_db (persisted n2) n2,
          if higher then [GoRunElectionTimer] else []).
Proof.
  intros Hd Hp.
  destruct (wp_elim _ _ _ (wp_lastLogIndexAndTerm n))
    as ([i t] & ? & ? & Hlast & -> & -> & Hof). cbn [fst snd] in Hof.
  exists i, t. split; [done|]. cbv zeta.
  apply wp_eq. unfold RequestVote. wp_step. wp_step.
  rewrite bool_decide_eq_false_2 by done.
  unfold PeerSet.Exists. rewrite bool_decide_eq_true_2 by done.
  cbn [orb negb]. wp_step.
  apply (wp_intro _ _ _ _ _ _ Hlast). wp_step.
  destruct (currentTerm n <? RequestVoteArgs.Term args); cbn [when].
  - eapply wp_mono; [apply wp_becomeFollower|]. intros _ ? ? [-> ->].
    wp_step. wp_step. wp_step.
    destruct (_ && _ && _); unfold persistToStorage; wp_run; done.
  - wp_step. wp_step. wp_step. wp_step.
    destruct (_ && _ && _); unfold persistToStorage; wp_run; done.
Qed.

(** X7. [RequestVote], at a live node that knows the candidate, never
    touches the log, [commitLength], [lastApplied] or the peer set.  A higher
    term makes the node a follower of that term and starts an election
    timer, whether or not the vote is granted; otherwise the role stays.  A
    refused request leaves [votedFor] as it was ([-1] after a step-down), and
    the election timer is reset exactly when the vote is granted or the node
    stepped down. *)
Theorem RequestVote_effect now args reply n :
  state n ≠ Dead →
  RequestVoteArgs.CandidateId args ∈ peerList n →
  let higher := currentTerm n <? RequestVoteArgs.Term args in
  ∃ r n' o, RequestVote now args reply n = Some (r, n', o) ∧
    log n' = log n ∧ commitLength n' = commitLength n ∧
    lastApplied n' = lastApplied n ∧ peerList n' = peerList n ∧
    state n' = (if higher then Follower else state n) ∧
    currentTerm n' = Z.max (currentTerm n) (RequestVoteArgs.Term args) ∧
    o = (if higher then [GoRunElectionTimer] else []) ∧
    (RequestVoteReply.VoteGranted r = false →
     votedFor n' = (if higher then -1 else votedFor n)) ∧
    electionResetEvent n' =
      (if higher || RequestVoteReply.VoteGranted r then now
       else electionResetEvent n).
Proof.
  intros Hd Hp higher.
  destruct (wp_RequestVote_closed now args reply n Hd Hp) as (i & t & _ & Hrun).
  cbv zeta in Hrun. fold higher in Hrun. rewrite Hrun. clear Hrun.
  eexists _, _, _. split; [done|]. cbn.
  subst higher.
  destruct (Z.ltb_spec (currentTerm n) (RequestVoteArgs.Term args));
    destruct (_ && _ && _); cbn; split_and!; try done; lia.
Qed.

Lemma lastOf_fun l i t i' t' : lastOf l i t → lastOf l i' t' → i = i' ∧ t = t'.
Proof.
  unfold lastOf. destruct (last l); intros [-> ->] [-> ->]; done.
Qed.

(** X8. The vote of a node in a term.  Once a node has granted its vote to
    a candidate, a request of another candidate in the same term that comes
    next is refused and the vote stays, whatever the logs are.  The vote is
    not kept for the term, though: [becomeFollower] clears [votedFor] also
    when the term stays.  When the reply to an [AppendEntries] request that
    the node sent as leader of an earlier term arrives after the grant and
    carries the term of the vote, the node is left without a vote in that
    term, and a rival whose log ends where that of the first candidate ends
    is granted a second vote in the same term; so it is in the run
    [exampleVotedAgain].  (Ids are below [2^63], so that the stored [int64]
    tells two candidates apart and is never the sentinel [-1].) *)
Theorem second_vote_in_a_term now now' now'' args args' reply reply' n r n1 o :
  RequestVote now args reply n = Some (r, n1, o) →
  RequestVoteReply.VoteGranted r = true →
  state n ≠ Dead →
  RequestVoteArgs.CandidateId args ∈ peerList n →
  RequestVoteArgs.CandidateId args' ∈ peerList n →
  RequestVoteArgs.Term args' = RequestVoteArgs.Term args →
  0 ≤ RequestVoteArgs.CandidateId args < 2 ^ 63 →
  0 ≤ RequestVoteArgs.CandidateId args' < 2 ^ 63 →
  RequestVoteArgs.CandidateId args' ≠ RequestVoteArgs.CandidateId args →
  (∃ r' n2 o', RequestVote now' args' reply' n1 = Some (r', n2, o') ∧
     RequestVoteReply.VoteGranted r' = false ∧
     votedFor n2 = RequestVoteArgs.CandidateId args ∧
     currentTerm n2 = RequestVoteArgs.Term args)
  ∧ (∀ peer leadershipTerm nextIndexSaved entries areply,
       leadershipTerm < RequestVoteArgs.Term args →
       AppendEntriesReply.Term areply = RequestVoteArgs.Term args →
       RequestVoteArgs.LastLogIndex args' = RequestVoteArgs.LastLogIndex args →
       RequestVoteArgs.LastLogTerm args' = RequestVoteArgs.LastLogTerm args →
       ∃ n2 r' n3 o',
         leaderSendAppendEntries_reply now' peer leadershipTerm nextIndexSaved
           entries areply n1 = Some (tt, n2, [GoRunElectionTimer]) ∧
         currentTerm n2 = RequestVoteArgs.Term args ∧ votedFor n2 = -1 ∧
         RequestVote now'' args' reply' n2 = Some (r', n3, o') ∧
         RequestVoteReply.VoteGranted r' = true ∧
         votedFor n3 = RequestVoteArgs.CandidateId args' ∧
         currentTerm n3 = RequestVoteArgs.Term args)
  ∧ (∃ n0 na oa nb ob,
       CreateNode 0 1 {[2; 3]} ∅ = Some n0 ∧
       run exampleVoted n0 = Some (tt, na, oa) ∧
       currentTerm na = 2 ∧ votedFor na = 2 ∧
       run exampleVotedAgain n0 = Some (tt, nb, ob) ∧
       currentTerm nb = 2 ∧ votedFor nb = 3).
Proof.
  assert (∃ n0 na oa nb ob,
            CreateNode 0 1 {[2; 3]} ∅ = Some n0 ∧
            run exampleVoted n0 = Some (tt, na, oa) ∧
            currentTerm na = 2 ∧ votedFor na = 2 ∧
            run exampleVotedAgain n0 = Some (tt, nb, ob) ∧
            currentTerm nb = 2 ∧ votedFor nb = 3) as Hex.
  { eexists _, _, _, _, _.
    split_and!; [reflexivity|vm_compute; reflexivity|reflexivity|reflexivity
                 |vm_compute; reflexivity|reflexivity|reflexivity]. }
  intros Hrun Hg Hd Hp Hp' Ht Hc Hc' Hne.
  destruct (wp_RequestVote_closed now args reply n Hd Hp) as (i & t & Hl & Hrun1).
  cbv zeta in Hrun1. rewrite Hrun1 in Hrun. clear Hrun1.
  injection Hrun as <- <- <-. cbn in Hg. rewrite Hg.
  apply andb_prop in Hg as [[Hterm%Z.eqb_eq _]%andb_prop Hlog].
  set (n0 := if currentTerm n <? RequestVoteArgs.Term args
             then follower now (RequestVoteArgs.Term args) n else n) in *.
  set (n1 := set_db _ _).
  assert (state n1 ≠ Dead ∧ peerList n1 = peerList n ∧
          currentTerm n1 = RequestVoteArgs.Term args ∧
          votedFor n1 = RequestVoteArgs.CandidateId args ∧
          log n1 = log n) as (Hd1 & Hp1 & Ht1 & Hv1 & Hl1).
  { subst n1. cbn. rewrite int64_small by lia. subst n0.
    destruct (_ <? _); cbn in *; done. }
  assert (RequestVoteArgs.CandidateId args' ∈ peerList n1) as Hp1'
    by by rewrite Hp1.
  split_and!.
  - destruct (wp_RequestVote_closed now' args' reply' n1 Hd1 Hp1')
      as (i' & t' & _ & Hrun2).
    cbv zeta in Hrun2. rewrite Hrun2. clear Hrun2.
    eexists _, _, _. split; [done|].
    rewrite Ht, Ht1, Z.ltb_irrefl. cbv iota.
    rewrite Ht1, Z.eqb_refl, Hv1, (int64_small (_ args')) by lia.
    rewrite (proj2 (Z.eqb_neq _ (-1))) by lia.
    rewrite (proj2 (Z.eqb_neq (RequestVoteArgs.CandidateId args) _)) by done.
    cbn. done.
  - intros peer lt nis es areply Hlt Hat Hli Hlt'.
    set (n2 := follower now' (RequestVoteArgs.Term args) n1).
    assert (state n2 ≠ Dead) as Hd2 by done.
    assert (RequestVoteArgs.CandidateId args' ∈ peerList n2) as Hp2 by done.
    destruct (wp_RequestVote_closed now'' args' reply' n2 Hd2 Hp2)
      as (i' & t' & Hl' & Hrun2).
    cbv zeta in Hrun2.
    change (log n2) with (log n1) in Hl'. rewrite Hl1 in Hl'.
    destruct (lastOf_fun _ _ _ _ _ Hl Hl') as [<- <-].
    exists n2. eexists _, _, _. split_and!.
    + unfold leaderSendAppendEntries_reply, mbind at 1, M_bind at 1, get at 1.
      rewrite Hat, (proj2 (Z.ltb_lt _ _)) by done. done.
    + done.
    + done.
    + exact Hrun2.
    + change (currentTerm n2) with (RequestVoteArgs.Term args).
      rewrite Ht, Z.ltb_irrefl. cbv iota.
      change (currentTerm n2) with (RequestVoteArgs.Term args).
      change (votedFor n2) with (-1).
      rewrite Z.eqb_refl, Hli, Hlt', Hlog. done.
    + change (currentTerm n2) with (RequestVoteArgs.Term args).
      rewrite Ht, Z.ltb_irrefl. cbv iota.
      change (currentTerm n2) with (RequestVoteArgs.Term args).
      change (votedFor n2) with (-1).
      rewrite Z.eqb_refl, Hli, Hlt', Hlog. cbn. apply int64_small. lia.
    + change (currentTerm n2) with (RequestVoteArgs.Term args).
      rewrite Ht, Z.ltb_irrefl. cbv iota.
      change (currentTerm n2) with (RequestVoteArgs.Term args).
      change (votedFor n2) with (-1).
      rewrite Z.eqb_refl, Hli, Hlt', Hlog. done.
  - exact Hex.
Qed.

(** ** The store *)

Lemma stored_persisted n : stored (set_db (persisted n) n).
Proof.
  unfold stored, persisted. cbn. split_and!.
  - rewrite lookup_insert_ne, lookup_insert_ne by done.
    by rewrite lookup_insert_eq.
  - rewrite lookup_insert_ne by done. by rewrite lookup_insert_eq.
  - by rewrite lookup_insert_eq.
Qed.

Lemma CreateNode_of_stored now serverId peers n :
  roundTrips codec → stored n →
  CreateNode now serverId peers (db n)
  = Some (mkNode serverId peers (db n) (currentTerm n) (votedFor n) (log n)
            0 0 Follower now ∅ ∅
            (gobDecodeLogSpare [] (gobEncodeLog (log n))) Open).
Proof.
  intros (Ht & Hv & Hl) (Hst & Hsv & Hsl). unfold CreateNode, Database.HasData.
  rewrite bool_decide_eq_false_2.
  2:{ intros E. rewrite E in Hst. by rewrite lookup_empty in Hst. }
  cbn [negb]. unfold restoreFromStorage, Database.Get. cbn [db].
  rewrite Hst, Hsv, Hsl. cbn. by rewrite Ht, Hv, Hl.
Qed.

(** X9. What a node writes with [persistToStorage] is what a node started
    on that store comes up with: [CreateNode] restores [currentTerm],
    [votedFor] and the log, for a codec that decodes what it encoded.
    Nothing else survives: the restarted node is a [Follower] with
    [commitLength] and [lastApplied] at 0 and empty leader indices. *)
Theorem restart_recovers_persistent_state now serverId peers n :
  roundTrips codec →
  ∃ n', persistToStorage n = Some (tt, n', []) ∧
    CreateNode now serverId peers (db n')
    = Some (mkNode serverId peers (db n') (currentTerm n) (votedFor n) (log n)
              0 0 Follower now ∅ ∅
              (gobDecodeLogSpare [] (gobEncodeLog (log n))) Open).
Proof.
  intros Hrt. exists (set_db (persisted n) n). split; [done|].
  by rewrite (CreateNode_of_stored now serverId peers _ Hrt (stored_persisted n)).
Qed.

(** X10. A node is not created on a store that has data but lacks one of
    the three blobs, or holds one that does not decode: [CreateNode] ends
    the process.  On the empty store it gives the initial node: term 0, no
    vote, an empty log. *)
Theorem CreateNode_store_edges now serverId peers :
  CreateNode now serverId peers ∅
  = Some (mkNode serverId peers ∅ 0 (-1) [] 0 0 Follower now ∅ ∅ [] Open)
  ∧ ∀ store,
      store ≠ ∅ →
      (store !! "currentTerm" ≫= gobDecodeUint64) = None
      ∨ (store !! "votedFor" ≫= gobDecodeInt64) = None
      ∨ (store !! "log" ≫= gobDecodeLog) = None →
      CreateNode now serverId peers store = None.
Proof.
  split; [done|]. intros store Hne Hmiss.
  unfold CreateNode, Database.HasData. rewrite bool_decide_eq_false_2 by done.
  cbn [negb]. unfold restoreFromStorage, Database.Get. cbn [db].
  destruct Hmiss as [->|[Hm|Hm]]; [done| |].
  - destruct (store !! "currentTerm" ≫= gobDecodeUint64); [|done].
    cbn. by rewrite Hm.
  - destruct (store !! "currentTerm" ≫= gobDecodeUint64); [|done].
    destruct (store !! "votedFor" ≫= gobDecodeInt64); [|done].
    cbn. destruct (store !! "log") as [bytes|]; [|done].
    cbn in Hm |- *. by rewrite Hm.
Qed.

(** X11. Every [AppendEntries] and [RequestVote] call that a live node does
    not drop ends with the store holding the node's [currentTerm],
    [votedFor] and log as they are when the handler returns; a node started
    on that store comes up with exactly these three. *)
Theorem handlers_persist_before_reply now now' peers' :
  roundTrips codec →
  (∀ args reply n,
     state n ≠ Dead → AppendEntriesArgs.LeaderId args ∈ peerList n →
     uint64 (AppendEntriesArgs.LastLogIndex args) →
     ∃ r n' o, AppendEntries now args reply n = Some (r, n', o) ∧
       stored n' ∧
       CreateNode now' (id n') peers' (db n')
       = Some (mkNode (id n') peers' (db n') (currentTerm n') (votedFor n')
                 (log n') 0 0 Follower now' ∅ ∅
                 (gobDecodeLogSpare [] (gobEncodeLog (log n'))) Open))
  ∧ (∀ args reply n,
       state n ≠ Dead → RequestVoteArgs.CandidateId args ∈ peerList n →
       ∃ r n' o, RequestVote now args reply n = Some (r, n', o) ∧
         stored n' ∧
         CreateNode now' (id n') peers' (db n')
         = Some (mkNode (id n') peers' (db n') (currentTerm n') (votedFor n')
                   (log n') 0 0 Follower now' ∅ ∅
                   (gobDecodeLogSpare [] (gobEncodeLog (log n'))) Open)).
Proof.
  intros Hrt.
  assert (∀ m, stored (set_db (persisted m) m) ∧
               CreateNode now' (id (set_db (persisted m) m)) peers'
                 (db (set_db (persisted m) m))
               = Some (mkNode (id (set_db (persisted m) m)) peers'
                         (db (set_db (persisted m) m))
                         (currentTerm (set_db (persisted m) m))
                         (votedFor (set_db (persisted m) m))
                         (log (set_db (persisted m) m))
                         0 0 Follower now' ∅ ∅
                         (gobDecodeLogSpare []
                            (gobEncodeLog (log (set_db (persisted m) m))))
                         Open)) as Hst.
  { intros m. split; [apply stored_persisted|].
    apply CreateNode_of_stored; [done|apply stored_persisted]. }
  split.
  - intros args reply n Hd Hp Hi.
    destruct (Z.lt_ge_cases (AppendEntriesArgs.Term args) (currentTerm n))
      as [Hlt|Hge].
    + rewrite AppendEntries_stale by done. eexists _, _, _. split; [done|].
      apply Hst.
    + destruct (wp_elim _ _ _
        (wp_AppendEntries_closed now args reply n Hd Hp Hge Hi))
        as (r & n' & o & Hrun & Hyes & Hno).
      exists r, n', o. split; [done|].
      destruct (classic_consistent (log n) (AppendEntriesArgs.LastLogIndex args)
                  (AppendEntriesArgs.LastLogTerm args)) as [Hc|Hc].
      * destruct (Hyes Hc) as (_ & -> & _). apply Hst.
      * destruct (Hno Hc) as (_ & _ & -> & _). apply Hst.
  - intros args reply n Hd Hp.
    destruct (wp_RequestVote_closed now args reply n Hd Hp)
      as (i & t & _ & Hrun).
    cbv zeta in Hrun. rewrite Hrun. eexists _, _, _. split; [done|].
    apply Hst.
Qed.

(** ** Commands at the leader *)

(** X12. At the leader, [newLogEntry] on a command that is no [Read]
    appends one entry with the command and the current term to the end of
    the log, writes the store and triggers replication once; the entries
    already in the log, the term, the vote and [commitLength] stay.  The peer
    set changes only for [RemoveServer], which takes its server out at once;
    [AddServer] adds nobody here.  A [RemoveServer] of the leader itself or
    of a server that is no peer is refused with an error and changes
    nothing. *)
Theorem newLogEntry_at_leader cmd n :
  state n = Leader →
  (∀ key, cmd ≠ Read key) →
  (∀ sid, cmd = RemoveServer sid → sid ∈ peerList n ∧ sid ≠ id n) →
  (∃ n', newLogEntry cmd n = Some ((true, None, None), n', [SendTrigger]) ∧
     log n' = log n ++ [LogEntry.mk cmd (currentTerm n)] ∧
     peerList n' = match cmd with
                   | RemoveServer sid => peerList n ∖ {[sid]}
                   | _ => peerList n
                   end ∧
     stored n' ∧
     currentTerm n' = currentTerm n ∧ votedFor n' = votedFor n ∧
     commitLength n' = commitLength n ∧ state n' = Leader)
  ∧ (∀ sid, sid ∉ peerList n ∨ sid = id n →
       newLogEntry (RemoveServer sid) n
       = Some ((false, None, Some (CannotBeRemoved sid (id n))), n, [])).
Proof.
  intros Hs Hread Hrem. split.
  - assert (∀ m, stored (set_db (persisted m) m)) as Hst
      by apply stored_persisted.
    unfold newLogEntry, mbind at 1, M_bind at 1, get at 1.
    rewrite bool_decide_eq_true_2 by done.
    destruct cmd as [k v|k|sid addr|sid|ids|tag|].
    + eexists. split; [done|]. cbn. split_and!; try done. apply Hst.
    + by destruct (Hread k).
    + eexists. split; [done|]. cbn. split_and!; try done. apply Hst.
    + destruct (Hrem sid eq_refl) as [Hin Hne].
      unfold PeerSet.Exists. rewrite bool_decide_eq_true_2 by done.
      rewrite (proj2 (Z.eqb_neq (id n) sid)) by done. cbn [negb orb].
      eexists. split; [done|]. cbn. split_and!; try done. apply Hst.
    + eexists. split; [done|]. cbn. split_and!; try done. apply Hst.
    + eexists. split; [done|]. cbn. split_and!; try done. apply Hst.
    + eexists. split; [done|]. cbn. split_and!; try done. apply Hst.
  - intros sid Hbad. unfold newLogEntry, mbind, M_bind, get, PeerSet.Exists.
    rewrite bool_decide_eq_true_2 by done.
    destruct Hbad as [Hout| ->].
    + by rewrite (bool_decide_eq_false_2 (_ ∈ _)).
    + by rewrite Z.eqb_refl, orb_true_r.
Qed.

(** ** Elections *)

Lemma forEach_emits {A} (f : A → Effect) xs n :
  forEach xs (λ x, emit (f x)) n = Some (tt, n, f <$> xs).
Proof.
  induction xs as [|x xs IH]; [done|].
  cbn [forEach]. unfold mbind, M_bind, emit at 1. by rewrite IH.
Qed.

Lemma startElection_closed now n :
  startElection now n
  = Some (tt, candidate now n,
          GoCountVotes 1
          :: ((λ p, GoRequestVote p (wrap64 (currentTerm n + 1)))
                <$> elements (peerList n))
          ++ [GoRunElectionTimer]).
Proof.
  apply wp_eq. unfold startElection. wp_run.
  apply (wp_intro _ _ _ _ _ _ (forEach_emits _ _ _)). wp_run.
  done.
Qed.

Lemma foldl_insert_lookup (v : Z) (ps : list Z) (m : gmap Z Z) p :
  foldl (λ acc q, <[q := v]> acc) m ps !! p
  = if bool_decide (p ∈ ps) then Some v else m !! p.
Proof.
  revert m. induction ps as [|q ps IH]; intros m; cbn [foldl].
  { by rewrite bool_decide_eq_false_2 by apply not_elem_of_nil. }
  rewrite IH. destruct (decide (p ∈ ps)) as [Hin|Hout].
  - rewrite !bool_decide_eq_true_2; [done|by right|done].
  - rewrite (bool_decide_eq_false_2 (p ∈ ps)) by done.
    destruct (decide (p = q)) as [->|Hne].
    + rewrite lookup_insert_eq. by rewrite bool_decide_eq_true_2 by left.
    + rewrite lookup_insert_ne by done.
      rewrite bool_decide_eq_false_2; [done|].
      intros [?|?]%elem_of_cons; done.
Qed.

Lemma foldl_insert_gset (v : Z) (X : gset Z) (m : gmap Z Z) :
  foldl (λ acc q, <[q := v]> acc) m (elements X) = gset_to_gmap v X ∪ m.
Proof.
  apply map_eq. intros p. rewrite foldl_insert_lookup.
  destruct (decide (p ∈ X)) as [Hin|Hout].
  - rewrite bool_decide_eq_true_2 by by apply elem_of_elements.
    symmetry. apply lookup_union_Some_l. by apply lookup_gset_to_gmap_Some.
  - rewrite bool_decide_eq_false_2 by by rewrite elem_of_elements.
    symmetry. rewrite lookup_union_r; [done|].
    apply lookup_gset_to_gmap_None. done.
Qed.

Lemma becomeLeader_loop ps n :
  forEach ps (λ peer,
    modify (λ n, set_nextIndex (<[peer := len (log n) + 1]> (nextIndex n)) n) ;;
    modify (λ n, set_matchedIndex (<[peer := 0]> (matchedIndex n)) n)) n
  = Some (tt,
          set_matchedIndex (foldl (λ acc q, <[q := 0]> acc) (matchedIndex n) ps)
            (set_nextIndex
               (foldl (λ acc q, <[q := len (log n) + 1]> acc) (nextIndex n) ps)
               n),
          []).
Proof.
  revert n. induction ps as [|p ps IH]; intros n; [by destruct n|].
  cbn [forEach foldl]. unfold mbind at 1, M_bind at 1.
  unfold mbind at 1, M_bind at 1, modify at 1 2. rewrite IH. done.
Qed.

Lemma becomeLeader_closed n :
  becomeLeader n = Some (tt, leader n, [GoHeartbeat]).
Proof.
  apply wp_eq. unfold becomeLeader. wp_step. wp_step. wp_step. wp_step.
  wp_step. cbn [peerList set_state].
  eapply wp_intro; [apply becomeLeader_loop|].
  wp_step. unfold leader. cbn [log set_state nextIndex matchedIndex].
  rewrite !foldl_insert_gset. done.
Qed.

(** X13. A new leader starts every peer at [nextIndex = len(log) + 1] and
    [matchedIndex = 0] and starts its heartbeat loop; entries of these two
    maps for servers that are no peers stay as they were, and nothing else of
    the node changes. *)
Theorem becomeLeader_indices n :
  ∃ n', becomeLeader n = Some (tt, n', [GoHeartbeat]) ∧
    state n' = Leader ∧
    (∀ p, p ∈ peerList n →
          nextIndex n' !! p = Some (len (log n) + 1) ∧
          matchedIndex n' !! p = Some 0) ∧
    (∀ p, p ∉ peerList n →
          nextIndex n' !! p = nextIndex n !! p ∧
          matchedIndex n' !! p = matchedIndex n !! p) ∧
    n' = set_matchedIndex (matchedIndex n')
           (set_nextIndex (nextIndex n') (set_state Leader n)).
Proof.
  exists (leader n). split; [apply becomeLeader_closed|].
  split; [done|]. cbn. split_and!; [| |done].
  - intros p Hp. split; apply lookup_union_Some_l;
      by apply lookup_gset_to_gmap_Some.
  - intros p Hp. split; (rewrite lookup_union_r; [done|]);
      by apply lookup_gset_to_gmap_None.
Qed.

(** X14. A candidate counts a [RequestVote] reply exactly when the reply
    carries the term of the candidacy and grants the vote, and it becomes
    leader on that reply exactly when the votes, this one included, are more
    than half of the cluster (the peers and itself).  Until then nothing of
    the node changes; a node that is no longer a candidate ignores the
    reply. *)
Theorem vote_reply_counts now candidacyTerm reply votes n :
  RequestVoteReply.Term reply ≤ candidacyTerm →
  let counted :=
    bool_decide (state n = Candidate)
    && (RequestVoteReply.Term reply =? candidacyTerm)
    && RequestVoteReply.VoteGranted reply in
  ∃ n' o,
    startElection_reply now candidacyTerm reply votes n
    = Some (if counted then votes + 1 else votes, n', o) ∧
    (state n' = Leader ∧ state n ≠ Leader ↔
     counted = true ∧ PeerSet.Size (peerList n) + 1 < 2 * (votes + 1)) ∧
    (state n' = Leader ∧ state n ≠ Leader →
     o = [GoHeartbeat] ∧ currentTerm n' = currentTerm n ∧
     ∀ p, p ∈ peerList n → nextIndex n' !! p = Some (len (log n) + 1)) ∧
    (¬ (state n' = Leader ∧ state n ≠ Leader) → n' = n ∧ o = []).
Proof.
  intros Ht counted. subst counted.
  unfold startElection_reply, mbind at 1, M_bind at 1, get at 1.
  destruct (decide (state n = Candidate)) as [Hs|Hs].
  2:{ rewrite (bool_decide_eq_false_2 _ Hs). cbn [negb andb].
      exists n, []. split; [done|]. split_and!.
      - split; [|by intros [[=] _]]. intros [Hl Hnl]. done.
      - intros [Hl Hnl]. done.
      - done. }
  rewrite (bool_decide_eq_true_2 _ Hs). cbn [negb andb].
  rewrite (proj2 (Z.ltb_ge _ _)) by done.
  destruct ((RequestVoteReply.Term reply =? candidacyTerm)
            && RequestVoteReply.VoteGranted reply) eqn:Hc.
  2:{ exists n, []. split; [done|]. rewrite Hs. split_and!.
      - split; [by intros [[=] _]|by intros [[=] _]].
      - by intros [[=] _].
      - done. }
  destruct (Z.ltb_spec (PeerSet.Size (peerList n) + 1) ((votes + 1) * 2))
    as [Hq|Hq]; cbn [when].
  - unfold mbind, M_bind. rewrite becomeLeader_closed. cbn [mret M_ret].
    eexists _, _. split; [done|]. rewrite Hs. split_and!.
    + split; [intros _; split; [done|lia]|done].
    + intros _. split_and!; [done..|]. intros p Hp. cbn.
      apply lookup_union_Some_l. by apply lookup_gset_to_gmap_Some.
    + intros Hno. destruct Hno. done.
  - exists n, []. split; [done|]. rewrite Hs. split_and!.
    + split; [by intros [[=] _]|]. intros [_ ?]. lia.
    + by intros [[=] _].
    + done.
Qed.

(** X15. A reply that carries a term above the one the request went out
    with makes the node a follower of the reply's term, with no vote and a
    new election timer.  The leader's replication path does so in whatever
    state the node is, a stopped node included; the candidate's path does so
    only while the node is a candidate.  The log, [commitLength] and the
    peer set stay. *)
Theorem higher_term_reply_steps_down now reply_term n :
  (∀ peer leadershipTerm nextIndexSaved entries reply,
     AppendEntriesReply.Term reply = reply_term →
     leadershipTerm < reply_term →
     ∃ n', leaderSendAppendEntries_reply now peer leadershipTerm nextIndexSaved
             entries reply n = Some (tt, n', [GoRunElectionTimer]) ∧
       state n' = Follower ∧ currentTerm n' = reply_term ∧ votedFor n' = -1 ∧
       electionResetEvent n' = now ∧
       log n' = log n ∧ commitLength n' = commitLength n ∧
       peerList n' = peerList n)
  ∧ (∀ candidacyTerm reply votes,
       RequestVoteReply.Term reply = reply_term →
       state n = Candidate → candidacyTerm < reply_term →
       ∃ n', startElection_reply now candidacyTerm reply votes n
             = Some (votes, n', [GoRunElectionTimer]) ∧
         state n' = Follower ∧ currentTerm n' = reply_term ∧ votedFor n' = -1 ∧
         electionResetEvent n' = now ∧
         log n' = log n ∧ commitLength n' = commitLength n ∧
         peerList n' = peerList n).
Proof.
  split.
  - intros peer lt nis es reply <- Hlt.
    exists (follower now (AppendEntriesReply.Term reply) n).
    unfold leaderSendAppendEntries_reply, mbind at 1, M_bind at 1, get at 1.
    rewrite (proj2 (Z.ltb_lt _ _)) by done. done.
  - intros ct reply votes <- Hs Hlt.
    exists (follower now (RequestVoteReply.Term reply) n).
    unfold startElection_reply, mbind at 1, M_bind at 1, get at 1.
    rewrite (bool_decide_eq_true_2 _ Hs). cbn [negb].
    rewrite (proj2 (Z.ltb_lt _ _)) by done. done.
Qed.

(** X16. An election, as a timer that fires starts it: the node becomes
    a candidate of the next term with a vote for itself and sends a
    [RequestVote] to every peer and to nobody else.  The store is not
    written.  When the vote counter is then read with the node's own vote, a
    node without peers is leader at once, and a node with peers stays
    candidate. *)
Theorem election_of_one now n :
  currentTerm n + 1 < 2 ^ 64 → 0 ≤ currentTerm n →
  ∃ n' o, (startElection now ;; startElection_count 1) n = Some (tt, n', o) ∧
    currentTerm n' = currentTerm n + 1 ∧
    votedFor n' = int64 (id n) ∧
    db n' = db n ∧ log n' = log n ∧
    (∀ p t, GoRequestVote p t ∈ o ↔ p ∈ peerList n ∧ t = currentTerm n + 1) ∧
    (peerList n = ∅ → state n' = Leader) ∧
    (peerList n ≠ ∅ → state n' = Candidate).
Proof.
  intros Hw H0. unfold mbind at 1, M_bind at 1. rewrite startElection_closed.
  rewrite (wrap64_small (currentTerm n + 1)) by lia.
  unfold startElection_count, mbind at 1, M_bind at 1, get at 1.
  assert (state (candidate now n) = Candidate) as Hs by done.
  rewrite (bool_decide_eq_true_2 _ Hs). cbn [andb].
  assert (∀ (o2 : list Effect) p t,
            (∀ q u, GoRequestVote q u ∉ o2) →
            GoRequestVote p t
              ∈ (GoCountVotes 1
                 :: ((λ p, GoRequestVote p (currentTerm n + 1))
                       <$> elements (peerList n))
                 ++ [GoRunElectionTimer]) ++ o2
            ↔ p ∈ peerList n ∧ t = currentTerm n + 1) as Hreq.
  { intros o2 p t Ho2.
    rewrite elem_of_app, elem_of_cons, elem_of_app, list_elem_of_fmap,
      list_elem_of_singleton.
    split.
    - intros [[?|[(q & [= -> ->] & Hq%elem_of_elements)|?]]|Hin]; try done.
      by apply Ho2 in Hin.
    - intros [Hp ->]. left. right. left. exists p.
      split; [done|]. by apply elem_of_elements. }
  destruct (decide (peerList n = ∅)) as [He|Hne].
  - assert ((PeerSet.Size (peerList (candidate now n)) + 1 <? 1 * 2) = true)
      as ->.
    { cbn. rewrite He. done. }
    cbn [when]. rewrite becomeLeader_closed. eexists _, _. split; [done|].
    cbn [currentTerm votedFor db log state leader candidate set_votedFor
         set_electionResetEvent set_currentTerm set_state set_matchedIndex
         set_nextIndex].
    rewrite (wrap64_small (currentTerm n + 1)) by lia.
    split_and!; try done.
    intros p t. apply Hreq. intros q u Hin.
    by apply list_elem_of_singleton in Hin.
  - assert ((PeerSet.Size (peerList (candidate now n)) + 1 <? 1 * 2) = false)
      as ->.
    { apply Z.ltb_ge. cbn. unfold PeerSet.Size.
      assert (size (peerList n) ≠ 0%nat).
      { intros E%size_empty_iff. apply Hne. by apply leibniz_equiv. }
      lia. }
    cbn [when mret M_ret]. eexists _, _. split; [done|].
    cbn [currentTerm votedFor db log state candidate set_votedFor
         set_electionResetEvent set_currentTerm set_state].
    rewrite (wrap64_small (currentTerm n + 1)) by lia.
    split_and!; try done.
    intros p t. apply Hreq. intros q u Hin. by apply elem_of_nil in Hin.
Qed.

(** ** Replication *)

Lemma leaderSendAppendEntries_args_closed peer leadershipTerm n :
  sliceLen (log n) →
  1 ≤ mapGet (nextIndex n) peer ≤ len (log n) + 1 →
  let next := mapGet (nextIndex n) peer in
  let entries := drop (Z.to_nat (next - 1)) (log n) in
  leaderSendAppendEntries_args peer leadershipTerm n
  = Some ((next, entries,
           AppendEntriesArgs.mk leadershipTerm (id n) (next - 1)
             (default 0 (termAt (log n) (next - 1))) entries (commitLength n)),
          n, []).
Proof.
  intros Hlen Hnext next entries. subst entries.
  unfold sliceLen in Hlen. fold next in Hnext.
  assert (int64 (int64 next - 1) = next - 1) as Hi.
  { destruct (decide (next = 2 ^ 63)) as [E|E]; [by rewrite E|].
    rewrite (int64_small next) by lia. apply int64_small. lia. }
  assert (wrap64 (next - 1) = next - 1) as Hw by (apply wrap64_small; lia).
  apply wp_eq. unfold leaderSendAppendEntries_args. wp_step. wp_step.
  fold next. rewrite Hi, Hw. wp_step.
  assert (wp (slice (log n) (logSpare n) (next - 1) (len (log n))) n
            (λ es n' o,
               es = drop (Z.to_nat (next - 1)) (log n) ∧ n' = n ∧ o = []))
    as Hslice.
  { apply wp_slice; [lia|unfold len; lia|]. split_and!; [|done..].
    apply slice_to_len. lia. }
  destruct (Z.ltb_spec 0 (next - 1)) as [Hpos|Hzero].
  - wp_step. apply wp_index; [lia|]. intros e He. wp_step. wp_step.
    eapply wp_mono; [apply Hslice|]. intros es ? ? (-> & -> & ->). wp_step.
    apply termAt_lookup in He; [|lia]. by rewrite He.
  - wp_step. wp_step.
    eapply wp_mono; [apply Hslice|]. intros es ? ? (-> & -> & ->). wp_step.
    replace (next - 1) with 0 by lia. done.
Qed.

(** X17. The request a leader builds for a peer from [nextIndex]: with
    [nextIndex] between 1 and [len(log) + 1] it names the leader and carries
    the term the round started with, the index before [nextIndex] and the
    term of the entry there (0 for index 0), all entries from [nextIndex]
    on, and the leader's [commitLength]; the node is not changed.  With any
    other [nextIndex] the goroutine faults on the log. *)
Theorem leader_request_for_peer peer leadershipTerm n :
  sliceLen (log n) →
  uint64 (mapGet (nextIndex n) peer) →
  let next := mapGet (nextIndex n) peer in
  (1 ≤ next ≤ len (log n) + 1 →
   ∃ args,
     leaderSendAppendEntries_args peer leadershipTerm n
     = Some ((next, AppendEntriesArgs.Entries args, args), n, []) ∧
     AppendEntriesArgs.Term args = leadershipTerm ∧
     AppendEntriesArgs.LeaderId args = id n ∧
     AppendEntriesArgs.LastLogIndex args = next - 1 ∧
     (next = 1 → AppendEntriesArgs.LastLogTerm args = 0) ∧
     (1 < next →
      termAt (log n) (next - 1) = Some (AppendEntriesArgs.LastLogTerm args)) ∧
     AppendEntriesArgs.Entries args = drop (Z.to_nat (next - 1)) (log n) ∧
     AppendEntriesArgs.LeaderCommit args = commitLength n)
  ∧ (¬ 1 ≤ next ≤ len (log n) + 1 →
     leaderSendAppendEntries_args peer leadershipTerm n = None).
Proof.
  intros Hlen Hu next. split.
  - intros Hr.
    exists (AppendEntriesArgs.mk leadershipTerm (id n) (next - 1)
              (default 0 (termAt (log n) (next - 1)))
              (drop (Z.to_nat (next - 1)) (log n)) (commitLength n)).
    split.
    { by apply leaderSendAppendEntries_args_closed. }
    cbn. split_and!; try done.
    + by intros ->.
    + intros Hgt. unfold termAt, logAt.
      rewrite (proj2 (Z.leb_le 1 (next - 1))) by lia.
      destruct (lookup_lt_is_Some_2 (log n) (Z.to_nat (next - 1 - 1)))
        as [e He]; [unfold len in *; lia|].
      by rewrite He.
  - intros Hout.
    destruct (leaderSendAppendEntries_args peer leadershipTerm n)
      as [[[[[nis es] args] n'] o]|] eqn:Hrun; [|done].
    destruct (leaderSendAppendEntries_args_range _ _ _ _ _ _ _ _ Hlen Hu Hrun)
      as (-> & H1 & Hsum & _).
    destruct Hout. fold next in Hsum, H1. unfold len in *. lia.
Qed.

(** X18. One round of replication.  A leader sends a peer the request built
    from its [nextIndex]; a live follower that knows the leader, is not
    ahead in term and agrees with the leader's log below [nextIndex] accepts
    it and then holds the leader's log; on the reply the leader records the
    whole log as matched for that peer: [matchedIndex = len(log)] and
    [nextIndex = len(log) + 1]. *)
Theorem replication_round now now' peer reply0 L F :
  state L = Leader →
  sliceLen (log L) →
  0 ≤ commitLength L < 2 ^ 64 - 1 →
  let next := mapGet (nextIndex L) peer in
  1 ≤ next ≤ len (log L) + 1 →
  state F ≠ Dead → id L ∈ peerList F → currentTerm F ≤ currentTerm L →
  take (Z.to_nat (next - 1)) (log F) = take (Z.to_nat (next - 1)) (log L) →
  ∃ entries args reply F' o L' o',
    leaderSendAppendEntries_args peer (currentTerm L) L
      = Some ((next, entries, args), L, []) ∧
    AppendEntries now args reply0 F = Some (reply, F', o) ∧
    AppendEntriesReply.Success reply = true ∧
    log F' = log L ∧ currentTerm F' = currentTerm L ∧
    leaderSendAppendEntries_reply now' peer (currentTerm L) next entries reply L
      = Some (tt, L', o') ∧
    nextIndex L' !! peer = Some (len (log L) + 1) ∧
    matchedIndex L' !! peer = Some (len (log L)) ∧
    log L' = log L.
Proof.
  intros Hs Hlen Hc next Hnext Hd Hp Ht Hpre.
  assert (next - 1 ≤ len (log F)) as Hle.
  { apply (f_equal length) in Hpre. rewrite !length_take in Hpre.
    unfold len in *. lia. }
  pose proof (leaderSendAppendEntries_args_closed peer (currentTerm L) L
                Hlen Hnext) as Hargs.
  cbv zeta in Hargs. fold next in Hargs.
  set (entries := drop (Z.to_nat (next - 1)) (log L)) in *.
  set (args := AppendEntriesArgs.mk _ _ _ _ _ _) in *.
  assert (uint64 (AppendEntriesArgs.LastLogIndex args)) as Hu.
  { unfold uint64, sliceLen in *. cbn. lia. }
  assert (consistentWith (log F) (AppendEntriesArgs.LastLogIndex args)
            (AppendEntriesArgs.LastLogTerm args)) as Hcons.
  { unfold consistentWith. cbn.
    destruct (decide (next = 1)) as [E|E]; [left; lia|right].
    split; [done|]. unfold termAt, logAt.
    rewrite (proj2 (Z.leb_le 1 (next - 1))) by lia.
    assert (log F !! Z.to_nat (next - 1 - 1)
            = log L !! Z.to_nat (next - 1 - 1)) as ->.
    { rewrite <- (lookup_take_lt (log F) (Z.to_nat (next - 1))) by lia.
      rewrite <- (lookup_take_lt (log L) (Z.to_nat (next - 1))) by lia.
      by rewrite Hpre. }
    destruct (lookup_lt_is_Some_2 (log L) (Z.to_nat (next - 1 - 1)))
      as [e He]; [unfold len in *; lia|].
    by rewrite He. }
  destruct (wp_elim _ _ _ (wp_AppendEntries_closed now args reply0 F Hd Hp Ht Hu))
    as (reply & F' & o & Hrun & Hyes & _).
  destruct (Hyes Hcons) as (Hr & HF' & _).
  assert (0 ≤ len (log L) < 2 ^ 63) as Hl by (unfold sliceLen, len in *; lia).
  assert (len entries = len (log L) - (next - 1)) as Hes.
  { subst entries. unfold len in *. rewrite length_drop. lia. }
  destruct (wp_elim _ _ _
    (wp_leaderSendAppendEntries_reply_success now' peer (currentTerm L) next
       entries reply L Hs ltac:(by rewrite Hr) ltac:(by rewrite Hr) Hc))
    as ([] & L' & o' & Hrun' & _ & c' & HL' & _).
  exists entries, args, reply, F', o, L', o'.
  split_and!; try done.
  - by rewrite Hr.
  - rewrite HF'. cbn [log set_db accepted set_commitLength set_peerList
    set_logSpare set_log].
    unfold acceptedLog. cbn [AppendEntriesArgs.LastLogIndex
      AppendEntriesArgs.Entries args].
    destruct (adoptLeader_fields now (AppendEntriesArgs.Term args) F Ht)
      as (_ & _ & _ & _ & _ & _ & -> & _).
    rewrite Hpre. subst entries. apply take_drop.
  - rewrite HF'. cbn [currentTerm set_db accepted set_commitLength
      set_peerList set_logSpare set_log].
    by destruct (adoptLeader_fields now (AppendEntriesArgs.Term args) F Ht)
      as (_ & -> & _).
  - rewrite HL'. cbn. rewrite lookup_insert_eq. f_equal.
    rewrite Hes. rewrite wrap64_small by lia. lia.
  - rewrite HL'. cbn. rewrite lookup_insert_eq. f_equal.
    rewrite Hes.
    rewrite (wrap64_small (next + _)) by lia. rewrite wrap64_small by lia. lia.
  - by rewrite HL'.
Qed.

(** ** The peer set *)

Lemma joinAsPeer_loop self ps n :
  forEach ps (λ peerId,
    when (negb (peerId =? self))
      (modify (λ n, set_peerList (PeerSet.Add (peerList n) peerId) n))) n
  = Some (tt,
          set_peerList (list_to_set (filter (λ p, p ≠ self) ps) ∪ peerList n) n,
          []).
Proof.
  revert n. induction ps as [|p ps IH]; intros n.
  { cbn. rewrite union_empty_l_L. by destruct n. }
  cbn [forEach]. unfold mbind, M_bind.
  destruct (Z.eqb_spec p self) as [->|Hne]; cbn [negb when mret M_ret].
  - rewrite IH. rewrite filter_cons_False by (by intros ?). done.
  - unfold modify at 1. rewrite IH. rewrite filter_cons_True by done.
    cbn [peerList set_peerList]. rewrite set_peerList_twice.
    unfold PeerSet.Add. rewrite list_to_set_cons.
    do 3 f_equal. f_equal.
    rewrite (union_comm_L {[p]} (list_to_set _)), <- union_assoc_L. done.
Qed.

(** X19. [addPeer] puts a server into the peer set and starts its leader
    indices at [len(log) + 1] and 0; [removePeer] takes a server out of the
    peer set, and does nothing for a server that is no peer.  [removePeer]
    leaves the leader indices of the server in the two maps, so removing a
    server just added restores the peer set but not the maps. *)
Theorem addPeer_removePeer peerId n :
  (∃ n1, addPeer peerId n = Some (tt, n1, []) ∧
     peerList n1 = {[peerId]} ∪ peerList n ∧
     nextIndex n1 = <[peerId := len (log n) + 1]> (nextIndex n) ∧
     matchedIndex n1 = <[peerId := 0]> (matchedIndex n) ∧
     ∃ n2, removePeer peerId n1 = Some (tt, n2, []) ∧
       peerList n2 = peerList n ∖ {[peerId]} ∧
       nextIndex n2 !! peerId = Some (len (log n) + 1) ∧
       matchedIndex n2 !! peerId = Some 0)
  ∧ (∃ n3, removePeer peerId n = Some (tt, n3, []) ∧
       peerList n3 = peerList n ∖ {[peerId]} ∧
       nextIndex n3 = nextIndex n ∧ matchedIndex n3 = matchedIndex n ∧
       (peerId ∉ peerList n → n3 = n)).
Proof.
  split.
  - eexists. split; [done|]. cbn. split_and!; try done.
    unfold removePeer, mbind, M_bind, get, PeerSet.Exists, PeerSet.Add.
    cbn [peerList set_peerList set_nextIndex set_matchedIndex].
    rewrite bool_decide_eq_true_2 by (apply elem_of_union_l; by apply elem_of_singleton).
    cbn [when]. eexists. split; [done|]. cbn.
    rewrite !lookup_insert_eq. split_and!; try done.
    unfold PeerSet.Remove. apply set_eq. intros x.
    rewrite !elem_of_difference, elem_of_union, elem_of_singleton. tauto.
  - unfold removePeer, mbind, M_bind, get, PeerSet.Exists, PeerSet.Remove.
    case_bool_decide as Hin; cbn [when mret M_ret].
    + eexists. split; [done|]. cbn. done.
    + exists n. split; [done|]. split_and!; try done.
      symmetry. apply difference_disjoint_L. by apply disjoint_singleton_r.
Qed.

Lemma joinAsPeer_closed now leaderId term peerSet n :
  joinAsPeer now leaderId term peerSet n
  = Some (tt,
          set_peerList ({[leaderId]} ∪ peerList n ∪ (peerSet ∖ {[id n]}))
            (follower now term n),
          [GoRunElectionTimer]).
Proof.
  set (n1 := follower now term
               (set_peerList (PeerSet.Add (peerList n) leaderId) n)).
  assert (list_to_set (filter (λ p, p ≠ id n) (elements peerSet))
            ∪ peerList n1
          = {[leaderId]} ∪ peerList n ∪ (peerSet ∖ {[id n]})) as Hpeers.
  { apply set_eq. intros x. subst n1. cbn. unfold PeerSet.Add.
    rewrite !elem_of_union, elem_of_list_to_set, list_elem_of_filter,
      elem_of_elements, elem_of_difference, !elem_of_singleton. tauto. }
  rewrite <- Hpeers.
  apply wp_eq. unfold joinAsPeer. wp_step. wp_step. wp_step.
  eapply wp_mono; [apply wp_becomeFollower|]. intros _ ? ? [-> ->].
  wp_step. wp_step.
  eapply wp_intro; [apply (joinAsPeer_loop (id n))|]. done.
Qed.

(** X20. [joinAsPeer] makes the node a follower of the given term, without
    a vote, and its peers are from then on the leader, the peers it had and
    the servers of the leader's list, the node itself excepted: the node's
    own id never comes in from the list. *)
Theorem joinAsPeer_peers now leaderId term peerSet n :
  ∃ n', joinAsPeer now leaderId term peerSet n
        = Some (tt, n', [GoRunElectionTimer]) ∧
    peerList n' = {[leaderId]} ∪ peerList n ∪ (peerSet ∖ {[id n]}) ∧
    state n' = Follower ∧ currentTerm n' = term ∧ votedFor n' = -1 ∧
    electionResetEvent n' = now ∧
    log n' = log n ∧ commitLength n' = commitLength n ∧
    (id n ∈ peerList n' ↔ id n ∈ peerList n ∨ id n = leaderId).
Proof.
  eexists. split; [apply joinAsPeer_closed|]. cbn [peerList set_peerList].
  split_and!; try done.
  rewrite !elem_of_union, elem_of_difference, !elem_of_singleton. tauto.
Qed.

(** ** The election timer *)

(** X21. The election timeout lies between 1500 ms and 3000 ms.  On a tick
    the timer goes on exactly when the node is a candidate or a follower,
    still in the term the timer started in, and less than the timeout has
    passed since the last reset; it then changes nothing.  It starts an
    election exactly when the node is such and the timeout has passed.  In
    every other case, for a leader, a stopped node or after a change of
    term, it ends without a trace. *)
Theorem election_timer forced r3 r1500 termStarted now n :
  0 ≤ r1500 < 1500 →
  let timeoutDuration := electionTimeout forced r3 r1500 in
  let waiting :=
    (state n = Candidate ∨ state n = Follower) ∧ termStarted = currentTerm n in
  let elapsed := now - electionResetEvent n in
  1500 ≤ timeoutDuration < 3000 ∧
  ∃ goes_on n' o,
    runElectionTimer_tick timeoutDuration termStarted now n
    = Some (goes_on, n', o) ∧
    (goes_on = true ↔ waiting ∧ elapsed < timeoutDuration) ∧
    (waiting ∧ timeoutDuration ≤ elapsed →
     startElection now n = Some (tt, n', o)) ∧
    (¬ (waiting ∧ timeoutDuration ≤ elapsed) → n' = n ∧ o = []).
Proof.
  intros Hr timeoutDuration waiting elapsed.
  assert (1500 ≤ timeoutDuration < 3000) as Hrange.
  { subst timeoutDuration. unfold electionTimeout.
    destruct (forced && (0 <? r3)); lia. }
  split; [done|]. subst waiting elapsed.
  unfold runElectionTimer_tick, mbind at 1, M_bind at 1, get at 1.
  destruct (decide (state n = Candidate)) as [Hc|Hc];
    [rewrite (bool_decide_eq_true_2 _ Hc)
    |rewrite (bool_decide_eq_false_2 _ Hc)]; cbn [negb andb].
  2: destruct (decide (state n = Follower)) as [Hf|Hf];
    [rewrite (bool_decide_eq_true_2 _ Hf)
    |rewrite (bool_decide_eq_false_2 _ Hf)]; cbn [negb andb].
  3:{ exists false, n, []. split; [done|]. split_and!.
      - split; [done|]. intros [[[?|?] _] _]; done.
      - intros [[[?|?] _] _]; done.
      - done. }
  all: destruct (Z.eqb_spec termStarted (currentTerm n)) as [Et|Et];
    cbn [negb].
  2,4: exists false, n, []; (split; [done|]); split_and!;
    [split; [done|]; by intros [[_ ?] _]|by intros [[_ ?] _]|done].
  all: destruct (Z.leb_spec timeoutDuration (now - electionResetEvent n))
    as [Hdue|Hnot].
  1,3: unfold mbind, M_bind; rewrite startElection_closed; cbn [mret M_ret];
    eexists false, _, _; (split; [by rewrite app_nil_r|]); split_and!;
    [split; [done|]; intros [_ ?]; lia|done|intros Hno; destruct Hno; auto].
  all: exists true, n, []; (split; [done|]); split_and!;
    [split; [auto|done]|intros [_ ?]; lia|done].
Qed.

(** X22. A heartbeat holds the election back.  After an [AppendEntries]
    call of a term that is not stale, received at time [now] by a live node
    from a known peer, no tick of an election timer within 1500 ms of [now]
    starts an election: the timer of the node's new term goes on waiting,
    and a timer of an earlier term ends. *)
Theorem heartbeat_defers_election now args reply n r n' o
    forced r3 r1500 termStarted now' :
  AppendEntries now args reply n = Some (r, n', o) →
  state n ≠ Dead →
  AppendEntriesArgs.LeaderId args ∈ peerList n →
  currentTerm n ≤ AppendEntriesArgs.Term args →
  uint64 (AppendEntriesArgs.LastLogIndex args) →
  0 ≤ r1500 → now' - now < 1500 →
  ∃ goes_on,
    runElectionTimer_tick (electionTimeout forced r3 r1500) termStarted now' n'
    = Some (goes_on, n', []) ∧
    (goes_on = true ↔ termStarted = AppendEntriesArgs.Term args).
Proof.
  intros Hrun Hd Hp Ht Hi Hr Hnow.
  destruct (wp_elim _ _ _ (wp_AppendEntries_closed now args reply n Hd Hp Ht Hi))
    as (r0 & n0 & o0 & Hrun0 & Hyes & Hno).
  rewrite Hrun in Hrun0. injection Hrun0 as <- <- <-.
  destruct (adoptLeader_fields now _ n Ht) as (Hs & Hc & He & _).
  assert (state n' = Follower ∧ currentTerm n' = AppendEntriesArgs.Term args ∧
          electionResetEvent n' = now) as (Hs' & Hc' & He').
  { destruct (classic_consistent (log n) (AppendEntriesArgs.LastLogIndex args)
                (AppendEntriesArgs.LastLogTerm args)) as [Hcons|Hcons].
    - by destruct (Hyes Hcons) as (_ & -> & _).
    - by destruct (Hno Hcons) as (_ & _ & -> & _). }
  unfold runElectionTimer_tick, mbind at 1, M_bind at 1, get at 1.
  rewrite Hs', Hc', He'.
  rewrite (bool_decide_eq_true_2 (Follower = Follower)) by done.
  rewrite andb_false_r.
  destruct (Z.eqb_spec termStarted (AppendEntriesArgs.Term args)) as [Et|Et];
    cbn [negb].
  - assert ((electionTimeout forced r3 r1500 <=? now' - now) = false) as ->.
    { apply Z.leb_gt. unfold electionTimeout.
      destruct (forced && (0 <? r3)); lia. }
    by exists true.
  - exists false. split; [done|]. split; [done|]. by intros ?.
Qed.

(** ** The commit dispatcher *)

(** X23. [lastApplied] moves in the dispatcher and nowhere else, and
    nothing else sends on the commit channel: every other operation of the
    node leaves [lastApplied] as it is and delivers no record.  A round of
    the dispatcher with [lastApplied <= commitLength <= len(log)] delivers
    [commitLength - lastApplied] records and moves [lastApplied] up to
    [commitLength]; a round right after it delivers nothing. *)
Theorem lastApplied_moves_in_dispatcher n :
  (∀ a n' o,
     a ≠ DoSendCommit → perform a n = Some (tt, n', o) →
     lastApplied n' = lastApplied n ∧ delivered o = [])
  ∧ (0 ≤ lastApplied n ≤ commitLength n → commitLength n ≤ len (log n) →
     ∃ n' o, sendCommit n = Some (tt, n', o) ∧
       lastApplied n' = commitLength n ∧
       n' = set_lastApplied (commitLength n) n ∧
       Z.of_nat (length (delivered o)) = commitLength n - lastApplied n ∧
       sendCommit n' = Some (tt, n', [])).
Proof.
  split.
  - intros a n' o Ha Hrun. pose proof (perform_quiet a Ha n) as Hq.
    rewrite Hrun in Hq. done.
  - intros [H0 Hle] Hlen. rewrite sendCommit_eq.
    destruct (Z.ltb_spec (lastApplied n) (commitLength n)) as [Hlt|Hge].
    + rewrite (proj2 (Z.leb_le 0 _)), (proj2 (Z.leb_le (commitLength n) _))
        by (unfold len in *; lia).
      cbn [andb]. eexists _, _. split; [done|]. split_and!; try done.
      * rewrite delivered_SendCommitChan. unfold pendingRecords.
        rewrite length_imap, length_take, length_drop, length_app.
        unfold len in *. lia.
      * rewrite sendCommit_eq. cbn. by rewrite Z.ltb_irrefl.
    + assert (commitLength n = lastApplied n) as E by lia.
      exists n, []. split; [done|]. split_and!; try done.
      * rewrite E. by destruct n.
      * change (delivered []) with (@nil CommitEntry.t). cbn. lia.
      * rewrite sendCommit_eq. by rewrite (proj2 (Z.ltb_ge _ _)) by lia.
Qed.

(** ** A stopped node *)

(** X24. [Stop] on a node whose channel [newCommitReady] is open makes the
    node [Dead] and closes the channel; [Stop] on a node whose channel is
    closed, so a second [Stop], is a panic.  A [Dead] node drops
    [AppendEntries] and [RequestVote] without filling in a reply, refuses
    every command but a [Read], starts no election on a tick, counts no vote
    and answers [LeaveCluster] with [Success = false]; none of these changes
    the node, so that a run of such calls leaves the stopped node as it is.
    [Dead] is not final, though: the reply to an [AppendEntries] request
    that the node sent before it was stopped, with a term above that of the
    request, makes the stopped node a [Follower] of that term with the
    channel still closed.  The node then handles [AppendEntries] again, and
    a request that moves [commitLength] sends on the closed channel, which
    is a panic: so it is after the run [exampleRevived]. *)
Theorem Stop_silences n :
  newCommitReady n = Open →
  ∃ d, Stop n = Some (tt, d, [CloseNewCommitReady]) ∧
    d = set_newCommitReady Closed (set_state Dead n) ∧
    (∀ m, newCommitReady m = Closed → Stop m = None) ∧
    (∀ m, state m = Dead →
       (∀ now args reply, AppendEntries now args reply m = Some (reply, m, [])) ∧
       (∀ now args reply, RequestVote now args reply m = Some (reply, m, [])) ∧
       (∀ cmd, (∀ key, cmd ≠ Read key) →
               newLogEntry cmd m = Some ((false, None, None), m, [])) ∧
       (∀ timeoutDuration termStarted now,
          runElectionTimer_tick timeoutDuration termStarted now m
          = Some (false, m, [])) ∧
       (∀ now candidacyTerm reply votes,
          startElection_reply now candidacyTerm reply votes m
          = Some (votes, m, [])) ∧
       (∀ votes, startElection_count votes m = Some (tt, m, [])) ∧
       (∀ args reply,
          LeaveCluster args reply m = Some (LeaveClusterReply.mk false, m, [])) ∧
       (∀ actions, forallb droppedWhenDead actions = true →
                   run actions m = Some (tt, m, []))) ∧
    (∀ now peer leadershipTerm nextIndexSaved entries reply,
       leadershipTerm < AppendEntriesReply.Term reply →
       ∃ f, leaderSendAppendEntries_reply now peer leadershipTerm
              nextIndexSaved entries reply d
            = Some (tt, f, [GoRunElectionTimer]) ∧
         state f = Follower ∧ newCommitReady f = Closed ∧
         currentTerm f = AppendEntriesReply.Term reply) ∧
    (∃ n0 f o r f' o',
       CreateNode 0 1 {[2]} ∅ = Some n0 ∧
       run exampleRevived n0 = Some (tt, f, o) ∧
       CloseNewCommitReady ∈ o ∧
       state f = Follower ∧ newCommitReady f = Closed ∧
       AppendEntries 3 exampleRevivedAppend exampleReply f = Some (r, f', o') ∧
       AppendEntriesReply.Success r = true ∧ SendNewCommitReady ∈ o' ∧
       run (exampleRevived ++ [DoAppendEntries 3 exampleRevivedAppend exampleReply])
         n0 = None).
Proof.
  intros Hopen. exists (set_newCommitReady Closed (set_state Dead n)).
  assert (∀ m, state m = Dead →
            (∀ now args reply, AppendEntries now args reply m = Some (reply, m, [])) ∧
            (∀ now args reply, RequestVote now args reply m = Some (reply, m, [])) ∧
            (∀ cmd, newLogEntry cmd m
                    = Some (match cmd with
                            | Read key =>
                                let '(value, readErr) := readFromStorage key m in
                                (true, Some value, readErr)
                            | _ => (false, None, None)
                            end, m, [])) ∧
            (∀ now candidacyTerm reply votes,
               startElection_reply now candidacyTerm reply votes m
               = Some (votes, m, [])) ∧
            (∀ votes, startElection_count votes m = Some (tt, m, [])) ∧
            (∀ args reply,
               LeaveCluster args reply m
               = Some (LeaveClusterReply.mk false, m, []))) as Hdead.
  { intros m Hm. split_and!.
    - intros now args reply. unfold AppendEntries, mbind, M_bind, get.
      by rewrite (bool_decide_eq_true_2 _ Hm).
    - intros now args reply. unfold RequestVote, mbind, M_bind, get.
      by rewrite (bool_decide_eq_true_2 _ Hm).
    - intros cmd. unfold newLogEntry, mbind, M_bind, get.
      rewrite bool_decide_eq_false_2 by (by rewrite Hm).
      destruct cmd; try done. by destruct (readFromStorage _ _).
    - intros now ct reply votes.
      unfold startElection_reply, mbind, M_bind, get.
      by rewrite bool_decide_eq_false_2 by (by rewrite Hm).
    - intros votes. unfold startElection_count, mbind, M_bind, get.
      by rewrite bool_decide_eq_false_2 by (by rewrite Hm).
    - intros args reply. unfold LeaveCluster, mbind, M_bind, get.
      by rewrite bool_decide_eq_false_2 by (by rewrite Hm). }
  split_and!.
  - unfold Stop, mbind, M_bind, modify, get. cbn [newCommitReady set_state].
    by rewrite Hopen.
  - done.
  - intros m Hm. unfold Stop, mbind, M_bind, modify, get.
    cbn [newCommitReady set_state]. by rewrite Hm.
  - intros m Hm.
    destruct (Hdead m Hm) as (Hae & Hrv & Hcmd & Hvr & Hvc & Hlc).
    split_and!; try done.
    + intros cmd Hread. rewrite Hcmd. destruct cmd; try done.
      by destruct (Hread Key).
    + intros td ts now. unfold runElectionTimer_tick, mbind, M_bind, get.
      rewrite (bool_decide_eq_false_2 (state m = Candidate))
        by (by rewrite Hm).
      by rewrite (bool_decide_eq_false_2 (state m = Follower))
        by (by rewrite Hm).
    + intros actions. unfold run.
      induction actions as [|a actions IH]; [done|].
      cbn [forallb]. intros [Ha Hrest]%andb_prop.
      cbn [forEach]. unfold mbind at 1, M_bind at 1.
      assert (step a m = Some (tt, m, [])) as ->.
      { unfold step. destruct a; try done; cbn [perform];
          unfold mbind, M_bind;
          rewrite ?Hae, ?Hrv, ?Hcmd, ?Hvr, ?Hvc, ?Hlc; cbn;
          unfold sendsOnClosed; by destruct (newCommitReady m). }
      by rewrite (IH Hrest).
  - intros now peer lt nis es reply Hlt.
    exists (follower now (AppendEntriesReply.Term reply)
              (set_newCommitReady Closed (set_state Dead n))).
    unfold leaderSendAppendEntries_reply, mbind at 1, M_bind at 1, get at 1.
    rewrite (proj2 (Z.ltb_lt _ _)) by done. done.
  - eexists _, _, _, _, _, _.
    split_and!; [reflexivity|vm_compute; reflexivity| |reflexivity|reflexivity
                 |vm_compute; reflexivity|reflexivity| |vm_compute; reflexivity].
    + apply list_elem_of_lookup. by exists 4%nat.
    + apply list_elem_of_lookup. by exists 0%nat.
Qed.

(** X25. [LeaveCluster] at the leader, for a peer other than the leader
    itself, reports success and hands a [RemoveServer] entry to
    [newLogEntry]; that call appends the entry and takes the peer out of the
    peer set.  Asked again, or asked for a server that is no peer,
    [LeaveCluster] still reports success and does nothing. *)
Theorem LeaveCluster_removes_peer args reply n :
  state n = Leader →
  let sid := LeaveClusterArgs.ServerId args in
  (sid ∈ peerList n → sid ≠ id n →
   LeaveCluster args reply n
   = Some (LeaveClusterReply.mk true, n, [GoNewLogEntry (RemoveServer sid)]) ∧
   ∃ n', newLogEntry (RemoveServer sid) n
         = Some ((true, None, None), n', [SendTrigger]) ∧
     peerList n' = peerList n ∖ {[sid]} ∧
     log n' = log n ++ [LogEntry.mk (RemoveServer sid) (currentTerm n)] ∧
     LeaveCluster args reply n' = Some (LeaveClusterReply.mk true, n', []))
  ∧ (sid ∉ peerList n →
     LeaveCluster args reply n = Some (LeaveClusterReply.mk true, n, [])).
Proof.
  intros Hs sid. split.
  - intros Hin Hne. split.
    + unfold LeaveCluster, mbind, M_bind, get, PeerSet.Exists.
      rewrite (bool_decide_eq_true_2 _ Hs). fold sid.
      by rewrite (bool_decide_eq_true_2 _ Hin).
    + unfold newLogEntry, mbind at 1, M_bind at 1, get at 1, PeerSet.Exists.
      rewrite (bool_decide_eq_true_2 _ Hs), (bool_decide_eq_true_2 _ Hin).
      rewrite (proj2 (Z.eqb_neq (id n) sid)) by done. cbn [negb orb].
      eexists. split; [done|]. cbn. split_and!; try done.
      unfold LeaveCluster, mbind, M_bind, get, PeerSet.Exists, PeerSet.Remove.
      cbn [state peerList set_db set_peerList set_log].
      rewrite (bool_decide_eq_true_2 _ Hs). fold sid.
      rewrite bool_decide_eq_false_2; [done|].
      rewrite elem_of_difference, elem_of_singleton. tauto.
  - intros Hout. unfold LeaveCluster, mbind, M_bind, get, PeerSet.Exists.
    rewrite (bool_decide_eq_true_2 _ Hs). fold sid.
    by rewrite (bool_decide_eq_false_2 _ Hout).
Qed.

End Further.

(** * The server and the join protocol *)

(** X26. [JoinCluster] admits a server exactly at the leader and when the
    connection to the server can be made: only then is [Success] true, the
    server connected and its address recorded, and an [AddServer] entry
    handed to [newLogEntry].  In every case the reply carries the node's
    term and the node itself is not changed: joining makes the new server
    no peer of the leader.  A node that is not leader names leader 0, keeps
    the server as it is and returns an error; so does a leader whose dial
    fails, naming itself. *)
Theorem JoinCluster_admission dial args reply srv n :
  ∃ r err srv' o,
    JoinCluster dial args reply srv n = Some ((r, err, srv'), n, o) ∧
    JoinClusterReply.Term r = currentTerm n ∧
    (JoinClusterReply.Success r = true ↔ state n = Leader ∧ is_Some dial) ∧
    (∀ client, state n = Leader → dial = Some client →
       err = None ∧ JoinClusterReply.LeaderId r = id n ∧
       o = [GoNewLogEntry (AddServer (JoinClusterArgs.ServerId args)
                             (JoinClusterArgs.ServerAddr args))] ∧
       Server.RPC (JoinClusterArgs.ServerId args) srv' = inl client ∧
       Server.getPeerAddress srv' !! JoinClusterArgs.ServerId args
       = Some (JoinClusterArgs.ServerAddr args)) ∧
    (state n ≠ Leader →
       err = Some (NotLeader (id n) (currentTerm n)) ∧
       JoinClusterReply.LeaderId r = 0 ∧ srv' = srv ∧ o = []) ∧
    (state n = Leader → dial = None →
       err = Some (ConnectFailed (JoinClusterArgs.ServerId args)) ∧
       JoinClusterReply.LeaderId r = id n ∧ srv' = srv ∧ o = []).
Proof.
  unfold JoinCluster, mbind at 1, M_bind at 1, get at 1.
  destruct (decide (state n = Leader)) as [Hs|Hs].
  - rewrite (bool_decide_eq_true_2 _ Hs). cbn [negb].
    destruct dial as [client|]; cbn [Server.ConnectToPeer].
    + eexists _, _, _, _. split; [done|]. cbn. split_and!; try done.
      intros c _ [= <-]. split_and!; try done.
      * unfold Server.RPC, Server.peer. cbn. by rewrite lookup_insert_eq.
      * unfold Server.getPeerAddress. cbn. by rewrite lookup_insert_eq.
    + eexists _, _, _, _. split; [done|]. cbn. split_and!; try done.
      split; [done|]. by intros [_ [? [=]]].
  - rewrite (bool_decide_eq_false_2 _ Hs). cbn [negb].
    eexists _, _, _, _. split; [done|]. cbn. split_and!; try done.
    split; [done|]. by intros [? _].
Qed.

(** X27. [FetchPeerList] answers with the peer set of the node and the
    addresses its server holds exactly when the node is leader in the term
    asked for; otherwise it reports failure and leaves the two maps of the
    reply as they came.  Either way the reply carries the node's term and
    the node is not changed. *)
Theorem FetchPeerList_answer args reply srv n :
  ∃ r, FetchPeerList args reply srv n = Some (r, n, []) ∧
    FetchPeerListReply.Term r = currentTerm n ∧
    (FetchPeerListReply.Success r = true ↔
     state n = Leader ∧ FetchPeerListArgs.Term args = currentTerm n) ∧
    (FetchPeerListReply.Success r = true →
     FetchPeerListReply.PeerSet r = Some (peerList n) ∧
     FetchPeerListReply.PeerAddress r = Some (Server.peerAddress srv)) ∧
    (FetchPeerListReply.Success r = false →
     FetchPeerListReply.PeerSet r = FetchPeerListReply.PeerSet reply ∧
     FetchPeerListReply.PeerAddress r = FetchPeerListReply.PeerAddress reply).
Proof.
  unfold FetchPeerList, mbind, M_bind, get.
  destruct (Z.eqb_spec (currentTerm n) (FetchPeerListArgs.Term args)) as [Et|Et];
    cbn [andb].
  - case_bool_decide as Hs; eexists; (split; [done|]); cbn;
      split_and!; try done.
    split; [done|]. by intros [? _].
  - eexists. split; [done|]. cbn. split_and!; try done.
    split; [done|]. by intros [_ ?].
Qed.

Lemma JoinCluster_closed client args reply srv n :
  state n = Leader →
  ∃ srv1,
    JoinCluster (Some client) args reply srv n
    = Some ((JoinClusterReply.mk true (id n) (currentTerm n), None, srv1), n,
            [GoNewLogEntry (AddServer (JoinClusterArgs.ServerId args)
                              (JoinClusterArgs.ServerAddr args))]) ∧
    Server.peerAddress srv1 !! JoinClusterArgs.ServerId args
    = Some (JoinClusterArgs.ServerAddr args).
Proof.
  intros Hs. unfold JoinCluster, mbind at 1, M_bind at 1, get at 1.
  rewrite (bool_decide_eq_true_2 _ Hs). cbn [negb Server.ConnectToPeer].
  eexists. split; [done|]. cbn. by rewrite lookup_insert_eq.
Qed.

(** X28. The hand-off of a join.  At a leader whose server reaches the new
    server, [JoinCluster] succeeds, and [FetchPeerList] asked with the term
    of that reply succeeds too and lists the leader's peers and, among the
    addresses, the one the new server gave.  [joinAsPeer] with the leader and
    the term of the replies and that list makes the new server a follower of
    the leader's term whose peers are the leader, the peers it had, and the
    leader's peers but itself.  The leader's node is the same after both
    calls. *)
Theorem join_handoff now client addr reply1 reply2 srv L J :
  state L = Leader →
  ∃ r1 srv1 r2 J',
    JoinCluster (Some client) (JoinClusterArgs.mk (id J) addr) reply1 srv L
    = Some ((r1, None, srv1), L, [GoNewLogEntry (AddServer (id J) addr)]) ∧
    JoinClusterReply.Success r1 = true ∧
    FetchPeerList (FetchPeerListArgs.mk (JoinClusterReply.Term r1)) reply2 srv1 L
    = Some (r2, L, []) ∧
    FetchPeerListReply.Success r2 = true ∧
    FetchPeerListReply.PeerSet r2 = Some (peerList L) ∧
    (∃ addrs, FetchPeerListReply.PeerAddress r2 = Some addrs ∧
              addrs !! id J = Some addr) ∧
    joinAsPeer now (JoinClusterReply.LeaderId r1) (FetchPeerListReply.Term r2)
      (peerList L) J
    = Some (tt, J', [GoRunElectionTimer]) ∧
    peerList J' = {[id L]} ∪ peerList J ∪ (peerList L ∖ {[id J]}) ∧
    state J' = Follower ∧ currentTerm J' = currentTerm L.
Proof.
  intros Hs.
  destruct (JoinCluster_closed client (JoinClusterArgs.mk (id J) addr)
              reply1 srv L Hs) as [srv1 [Hjoin Haddr]].
  pose proof (joinAsPeer_closed now (id L) (currentTerm L) (peerList L) J)
    as Hrun.
  eexists _, srv1, _, _. split; [exact Hjoin|]. split; [done|].
  cbn [JoinClusterReply.Term JoinClusterReply.LeaderId].
  unfold FetchPeerList, mbind, M_bind, get.
  cbn [FetchPeerListArgs.Term]. rewrite Z.eqb_refl.
  rewrite (bool_decide_eq_true_2 _ Hs). cbn [andb mret M_ret].
  split; [done|]. cbn. split_and!; try done.
  by exists (Server.peerAddress srv1).
Qed.

(** X29. The connections of a server.  A dial that fails changes nothing
    and is the error of [ConnectToPeer]; a dial that succeeds makes [RPC] to
    that peer go out on the new client and records the address, and touches
    no other peer.  [DisconnectPeer] of a connected peer returns what
    closing returned; [RPC] to the peer then fails and its address is the
    empty string.  A second [DisconnectPeer] does nothing and returns no
    error.  After [DisconnectAll] every [RPC] fails, and the addresses are
    kept. *)
Theorem Server_connections s p addr client closed :
  Server.ConnectToPeer None p addr s = (s, Some DialError) ∧
  ∃ s1, Server.ConnectToPeer (Some client) p addr s = (s1, None) ∧
    Server.RPC p s1 = inl client ∧
    Server.getPeerAddress s1 !! p = Some addr ∧
    (∀ q, q ≠ p → Server.RPC q s1 = Server.RPC q s ∧
                  Server.getPeerAddress s1 !! q = Server.getPeerAddress s !! q) ∧
    ∃ s2, Server.DisconnectPeer closed p s1 = (s2, closed) ∧
      Server.RPC p s2 = inr (PeerClosed (Server.id s) p) ∧
      Server.getPeerAddress s2 !! p = Some String.EmptyString ∧
      (∀ q, q ≠ p → Server.RPC q s2 = Server.RPC q s) ∧
      Server.DisconnectPeer closed p s2 = (s2, None) ∧
      (∀ q, Server.RPC q (Server.DisconnectAll s1)
            = inr (PeerClosed (Server.id s) q)) ∧
      Server.getPeerAddress (Server.DisconnectAll s1)
      = Server.getPeerAddress s1.
Proof.
  split; [done|]. eexists. split; [done|].
  unfold Server.DisconnectPeer, Server.RPC, Server.peer, Server.getPeerAddress.
  cbn. rewrite !lookup_insert_eq. cbn. split_and!; try done.
  { intros q Hq. by rewrite !lookup_insert_ne by done. }
  eexists. split; [done|]. cbn. rewrite !lookup_insert_eq. cbn.
  split_and!; try done.
  - intros q Hq. by rewrite !lookup_insert_ne by done.
  - intros q. rewrite lookup_fmap.
    by destruct (<[p:=Some client]> (Server.peers s) !! q).
Qed.

(** ** The codec of the examples *)

Lemma positiveOfBytes_bytesOfPositive p :
  positiveOfBytes (bytesOfPositive p) = Some p.
Proof. induction p as [p IH|p IH|]; cbn; by rewrite ?IH. Qed.

Lemma bitDecode_bitEncode {A} `{Countable A} (x : A) :
  bitDecode (bitEncode x) = Some x.
Proof.
  unfold bitDecode, bitEncode. rewrite positiveOfBytes_bytesOfPositive.
  cbn. apply decode_encode.
Qed.

Lemma bitGob_roundTrips : roundTrips bitGob.
Proof. split_and!; intros x; apply bitDecode_bitEncode. Qed.

(** ** The further properties at work *)

Section FurtherExamples.
#[local] Existing Instance exampleGob.
#[local] Existing Instance exampleRuntime.

Lemma rpc_dropped_witness :
  (state exampleFollower = Dead
   ∨ AppendEntriesArgs.LeaderId exampleHeartbeat ∉ peerList exampleFollower) ∧
  AppendEntries 5 exampleHeartbeat exampleReply exampleFollower
  = Some (exampleReply, exampleFollower, []).
Proof.
  assert (H1 : state exampleFollower = Dead
               ∨ AppendEntriesArgs.LeaderId exampleHeartbeat
                 ∉ peerList exampleFollower).
  { right. apply (proj1 (bool_decide_eq_false _)). vm_compute. reflexivity. }
  split; [done|].
  exact (proj1 rpc_dropped 5 exampleHeartbeat exampleReply exampleFollower H1).
Defined.

Lemma stale_term_refused_witness :
  (state exampleCandidate ≠ Dead ∧
   AppendEntriesArgs.LeaderId exampleStale ∈ peerList exampleCandidate ∧
   AppendEntriesArgs.Term exampleStale < currentTerm exampleCandidate) ∧
  ∃ n',
    AppendEntries 5 exampleStale exampleReply exampleCandidate
    = Some (AppendEntriesReply.mk 3 false 0 0, n', []) ∧
    state n' = Candidate ∧ log n' = log exampleCandidate.
Proof.
  assert (H1 : state exampleCandidate ≠ Dead) by done.
  assert (H2 : AppendEntriesArgs.LeaderId exampleStale
               ∈ peerList exampleCandidate)
    by (apply (bool_decide_unpack _); vm_compute; exact I).
  assert (H3 : AppendEntriesArgs.Term exampleStale
               < currentTerm exampleCandidate) by (simpl; lia).
  split; [done|].
  rewrite (proj1 stale_term_refused 5 exampleStale exampleReply
             exampleCandidate H1 H2 H3).
  eexists. split; [reflexivity|]. split; reflexivity.
Defined.

Lemma AppendEntries_adopts_leader_witness :
  (state exampleCandidate ≠ Dead ∧
   AppendEntriesArgs.LeaderId exampleHeartbeat ∈ peerList exampleCandidate ∧
   currentTerm exampleCandidate ≤ AppendEntriesArgs.Term exampleHeartbeat ∧
   uint64 (AppendEntriesArgs.LastLogIndex exampleHeartbeat)) ∧
  ∃ r n' o,
    AppendEntries 5 exampleHeartbeat exampleReply exampleCandidate
    = Some (r, n', o) ∧
    state n' = Follower ∧ votedFor n' = -1 ∧ electionResetEvent n' = 5.
Proof.
  assert (H1 : state exampleCandidate ≠ Dead) by done.
  assert (H2 : AppendEntriesArgs.LeaderId exampleHeartbeat
               ∈ peerList exampleCandidate)
    by (apply (bool_decide_unpack _); vm_compute; exact I).
  assert (H3 : currentTerm exampleCandidate
               ≤ AppendEntriesArgs.Term exampleHeartbeat) by (simpl; lia).
  assert (H4 : uint64 (AppendEntriesArgs.LastLogIndex exampleHeartbeat))
    by (unfold uint64; simpl; lia).
  split; [done|].
  destruct (AppendEntries_adopts_leader 5 exampleHeartbeat exampleReply
              exampleCandidate H1 H2 H3 H4)
    as (r & n' & o & Hrun & Hs & _ & _ & He & Hv & _).
  exists r, n', o. split; [done|]. split; [done|]. split; [exact Hv|done].
Defined.

Lemma AppendEntries_membership_witness :
  (state exampleMember ≠ Dead ∧
   AppendEntriesArgs.LeaderId exampleMembership ∈ peerList exampleMember ∧
   currentTerm exampleMember ≤ AppendEntriesArgs.Term exampleMembership ∧
   uint64 (AppendEntriesArgs.LastLogIndex exampleMembership) ∧
   consistentWith (log exampleMember)
     (AppendEntriesArgs.LastLogIndex exampleMembership)
     (AppendEntriesArgs.LastLogTerm exampleMembership)) ∧
  ∃ r n' o,
    AppendEntries 5 exampleMembership exampleReply exampleMember
    = Some (r, n', o) ∧
    1 ∈ peerList n' ∧ (3 ∉ peerList n') ∧ (4 ∉ peerList n') ∧
    ConnectToPeer 4 "d" ∈ o.
Proof.
  assert (H1 : state exampleMember ≠ Dead) by done.
  assert (H2 : AppendEntriesArgs.LeaderId exampleMembership
               ∈ peerList exampleMember)
    by (apply (bool_decide_unpack _); vm_compute; exact I).
  assert (H3 : currentTerm exampleMember
               ≤ AppendEntriesArgs.Term exampleMembership) by (simpl; lia).
  assert (H4 : uint64 (AppendEntriesArgs.LastLogIndex exampleMembership))
    by (unfold uint64; simpl; lia).
  assert (H5 : consistentWith (log exampleMember)
                 (AppendEntriesArgs.LastLogIndex exampleMembership)
                 (AppendEntriesArgs.LastLogTerm exampleMembership)).
  { right. split; [unfold len; simpl; lia|reflexivity]. }
  split; [done|].
  destruct (AppendEntries_membership 5 exampleMembership exampleReply
              exampleMember H1 H2 H3 H4 H5)
    as (r & n' & o & Hrun & Hpeers & Hconn).
  exists r, n', o. split; [done|]. split_and!.
  - apply Hpeers. split; [exact H2|]. right. intros e He.
    apply elem_of_cons in He as [->|He]; [done|].
    apply list_elem_of_singleton in He as ->. done.
  - intros [_ [Hid|Hall]]%Hpeers; [done|].
    apply (Hall (LogEntry.mk (RemoveServer 3) 1)); [|done].
    apply elem_of_cons. right. by apply list_elem_of_singleton.
  - intros [Hin _]%Hpeers. revert Hin.
    apply (proj1 (bool_decide_eq_false _)). vm_compute. reflexivity.
  - apply Hconn. split; [done|].
    exists (LogEntry.mk (AddServer 4 "d") 1). split; [|done].
    apply elem_of_cons. by left.
Defined.

Lemma AppendEntries_refusal_keeps_log_witness :
  (state exampleFollower ≠ Dead ∧
   AppendEntriesArgs.LeaderId exampleConflict ∈ peerList exampleFollower ∧
   currentTerm exampleFollower ≤ AppendEntriesArgs.Term exampleConflict ∧
   uint64 (AppendEntriesArgs.LastLogIndex exampleConflict) ∧
   ¬ consistentWith (log exampleFollower)
       (AppendEntriesArgs.LastLogIndex exampleConflict)
       (AppendEntriesArgs.LastLogTerm exampleConflict)) ∧
  ∃ r n' o,
    AppendEntries 5 exampleConflict exampleReply exampleFollower
    = Some (r, n', o) ∧
    AppendEntriesReply.Success r = false ∧
    log n' = [exampleEntry "x" 1; exampleEntry "y" 1].
Proof.
  assert (H1 : state exampleFollower ≠ Dead) by done.
  assert (H2 : AppendEntriesArgs.LeaderId exampleConflict
               ∈ peerList exampleFollower)
    by (apply (bool_decide_unpack _); vm_compute; exact I).
  assert (H3 : currentTerm exampleFollower
               ≤ AppendEntriesArgs.Term exampleConflict) by (simpl; lia).
  assert (H4 : uint64 (AppendEntriesArgs.LastLogIndex exampleConflict))
    by (unfold uint64; simpl; lia).
  assert (H5 : ¬ consistentWith (log exampleFollower)
                   (AppendEntriesArgs.LastLogIndex exampleConflict)
                   (AppendEntriesArgs.LastLogTerm exampleConflict)).
  { intros [E|[_ E]]; [simpl in E; lia|]. vm_compute in E. congruence. }
  split; [done|].
  destruct (AppendEntries_refusal_keeps_log 5 exampleConflict exampleReply
              exampleFollower H1 H2 H3 H4 H5)
    as (r & n' & o & Hrun & Hs & Hl & _).
  exists r, n', o. split; [done|]. split; [done|]. exact Hl.
Defined.

Lemma AppendEntries_commit_update_witness :
  (state exampleFollower ≠ Dead ∧
   AppendEntriesArgs.LeaderId exampleCommit ∈ peerList exampleFollower ∧
   currentTerm exampleFollower ≤ AppendEntriesArgs.Term exampleCommit ∧
   uint64 (AppendEntriesArgs.LastLogIndex exampleCommit) ∧
   consistentWith (log exampleFollower)
     (AppendEntriesArgs.LastLogIndex exampleCommit)
     (AppendEntriesArgs.LastLogTerm exampleCommit) ∧
   AppendEntriesArgs.LeaderCommit exampleCommit < 2 ^ 53 ∧
   AppendEntriesArgs.LastLogIndex exampleCommit
     + len (AppendEntriesArgs.Entries exampleCommit) < 2 ^ 53) ∧
  ∃ r n' o,
    AppendEntries 5 exampleCommit exampleReply exampleFollower
    = Some (r, n', o) ∧
    len (log n') = 3 ∧ commitLength n' = 2.
Proof.
  assert (H1 : state exampleFollower ≠ Dead) by done.
  assert (H2 : AppendEntriesArgs.LeaderId exampleCommit
               ∈ peerList exampleFollower)
    by (apply (bool_decide_unpack _); vm_compute; exact I).
  assert (H3 : currentTerm exampleFollower
               ≤ AppendEntriesArgs.Term exampleCommit) by (simpl; lia).
  assert (H4 : uint64 (AppendEntriesArgs.LastLogIndex exampleCommit))
    by (unfold uint64; simpl; lia).
  assert (H5 : consistentWith (log exampleFollower)
                 (AppendEntriesArgs.LastLogIndex exampleCommit)
                 (AppendEntriesArgs.LastLogTerm exampleCommit)).
  { right. split; [unfold len; simpl; lia|reflexivity]. }
  assert (H6 : AppendEntriesArgs.LeaderCommit exampleCommit < 2 ^ 53)
    by (simpl; lia).
  assert (H7 : AppendEntriesArgs.LastLogIndex exampleCommit
               + len (AppendEntriesArgs.Entries exampleCommit) < 2 ^ 53)
    by (unfold len; simpl; lia).
  split; [done|].
  destruct (AppendEntries_commit_update 5 exampleCommit exampleReply
              exampleFollower H1 H2 H3 H4 H5 H6 H7)
    as (r & n' & o & Hrun & Hlen & Hup & _).
  exists r, n', o. split; [done|].
  assert (commitLength exampleFollower
          < AppendEntriesArgs.LeaderCommit exampleCommit) as Hlt
    by (simpl; lia).
  destruct (Hup Hlt) as [Hc _]. rewrite Hc, Hlen.
  split; [unfold len; simpl; lia|unfold len; simpl; lia].
Defined.

Lemma RequestVote_effect_witness :
  (state exampleLeader ≠ Dead ∧
   RequestVoteArgs.CandidateId exampleVote ∈ peerList exampleLeader) ∧
  ∃ r n' o,
    RequestVote 5 exampleVote (RequestVoteReply.mk 0 false) exampleLeader
    = Some (r, n', o) ∧
    state n' = Follower ∧ currentTerm n' = 3 ∧ log n' = log exampleLeader ∧
    o = [GoRunElectionTimer].
Proof.
  assert (H1 : state exampleLeader ≠ Dead) by done.
  assert (H2 : RequestVoteArgs.CandidateId exampleVote ∈ peerList exampleLeader)
    by (apply (bool_decide_unpack _); vm_compute; exact I).
  split; [done|].
  destruct (RequestVote_effect 5 exampleVote (RequestVoteReply.mk 0 false)
              exampleLeader H1 H2)
    as (r & n' & o & Hrun & Hl & _ & _ & _ & Hs & Ht & Ho & _).
  exists r, n', o. split; [done|]. split; [exact Hs|].
  split; [exact Ht|]. split; [exact Hl|exact Ho].
Defined.

Lemma second_vote_in_a_term_witness :
  ∃ r n1 o,
    RequestVote 5 exampleVote (RequestVoteReply.mk 0 false) exampleLeader
    = Some (r, n1, o) ∧
    RequestVoteReply.VoteGranted r = true ∧
    (state exampleLeader ≠ Dead ∧
     RequestVoteArgs.CandidateId exampleVote ∈ peerList exampleLeader ∧
     RequestVoteArgs.CandidateId exampleRival ∈ peerList exampleLeader ∧
     RequestVoteArgs.Term exampleRival = RequestVoteArgs.Term exampleVote ∧
     0 ≤ RequestVoteArgs.CandidateId exampleVote < 2 ^ 63 ∧
     0 ≤ RequestVoteArgs.CandidateId exampleRival < 2 ^ 63 ∧
     RequestVoteArgs.CandidateId exampleRival
     ≠ RequestVoteArgs.CandidateId exampleVote) ∧
    (∃ r' n2 o',
       RequestVote 6 exampleRival (RequestVoteReply.mk 0 false) n1
       = Some (r', n2, o') ∧
       RequestVoteReply.VoteGranted r' = false ∧ votedFor n2 = 2) ∧
    ((2 < RequestVoteArgs.Term exampleVote ∧
      AppendEntriesReply.Term (AppendEntriesReply.mk 3 false 0 0)
      = RequestVoteArgs.Term exampleVote ∧
      RequestVoteArgs.LastLogIndex exampleRival
      = RequestVoteArgs.LastLogIndex exampleVote ∧
      RequestVoteArgs.LastLogTerm exampleRival
      = RequestVoteArgs.LastLogTerm exampleVote) ∧
     ∃ n2 r' n3 o',
       leaderSendAppendEntries_reply 6 3 2 1 []
         (AppendEntriesReply.mk 3 false 0 0) n1
       = Some (tt, n2, [GoRunElectionTimer]) ∧
       currentTerm n2 = 3 ∧ votedFor n2 = -1 ∧
       RequestVote 7 exampleRival (RequestVoteReply.mk 0 false) n2
       = Some (r', n3, o') ∧
       RequestVoteReply.VoteGranted r' = true ∧
       votedFor n3 = 3 ∧ currentTerm n3 = 3).
Proof.
  assert (∃ r n1 o,
            RequestVote 5 exampleVote (RequestVoteReply.mk 0 false) exampleLeader
            = Some (r, n1, o) ∧ RequestVoteReply.VoteGranted r = true)
    as (r & n1 & o & Hrun & Hg)
    by (eexists _, _, _; split; [vm_compute; reflexivity|reflexivity]).
  assert (H1 : state exampleLeader ≠ Dead) by done.
  assert (H2 : RequestVoteArgs.CandidateId exampleVote ∈ peerList exampleLeader)
    by (apply (bool_decide_unpack _); vm_compute; exact I).
  assert (H3 : RequestVoteArgs.CandidateId exampleRival ∈ peerList exampleLeader)
    by (apply (bool_decide_unpack _); vm_compute; exact I).
  assert (H4 : RequestVoteArgs.Term exampleRival = RequestVoteArgs.Term exampleVote)
    by reflexivity.
  assert (H5 : 0 ≤ RequestVoteArgs.CandidateId exampleVote < 2 ^ 63)
    by (simpl; lia).
  assert (H6 : 0 ≤ RequestVoteArgs.CandidateId exampleRival < 2 ^ 63)
    by (simpl; lia).
  assert (H7 : RequestVoteArgs.CandidateId exampleRival
               ≠ RequestVoteArgs.CandidateId exampleVote) by done.
  assert (H8 : 2 < RequestVoteArgs.Term exampleVote) by (simpl; lia).
  assert (H9 : AppendEntriesReply.Term (AppendEntriesReply.mk 3 false 0 0)
               = RequestVoteArgs.Term exampleVote) by reflexivity.
  assert (H10 : RequestVoteArgs.LastLogIndex exampleRival
                = RequestVoteArgs.LastLogIndex exampleVote) by reflexivity.
  assert (H11 : RequestVoteArgs.LastLogTerm exampleRival
                = RequestVoteArgs.LastLogTerm exampleVote) by reflexivity.
  exists r, n1, o. split; [done|]. split; [done|]. split; [done|].
  destruct (second_vote_in_a_term 5 6 7 exampleVote exampleRival
              (RequestVoteReply.mk 0 false) (RequestVoteReply.mk 0 false)
              exampleLeader r n1 o Hrun Hg H1 H2 H3 H4 H5 H6 H7)
    as ((r' & n2 & o' & Hrun' & Hg' & Hv & _) & Hlate & _).
  split.
  - exists r', n2, o'. split; [done|]. split; [done|exact Hv].
  - split; [done|].
    destruct (Hlate 3 2 1 [] (AppendEntriesReply.mk 3 false 0 0) H8 H9 H10 H11)
      as (m2 & q & m3 & p & Hreply & Ht2 & Hv2 & Hrun2 & Hg2 & Hv3 & Ht3).
    exists m2, q, m3, p. split_and!; done.
Defined.

Lemma restart_recovers_persistent_state_witness :
  roundTrips bitGob ∧
  ∃ n', @persistToStorage bitGob exampleFollower = Some (tt, n', []) ∧
    @CreateNode bitGob 7 2 {[1]} (db n')
    = Some (mkNode 2 {[1]} (db n') 1 (-1)
              [exampleEntry "x" 1; exampleEntry "y" 1] 0 0 Follower 7 ∅ ∅
              [] Open).
Proof.
  split; [exact bitGob_roundTrips|].
  exact (@restart_recovers_persistent_state bitGob 7 2 {[1]} exampleFollower
           bitGob_roundTrips).
Defined.

Lemma handlers_persist_before_reply_witness :
  roundTrips bitGob ∧
  (state exampleFollower ≠ Dead ∧
   AppendEntriesArgs.LeaderId exampleAppend ∈ peerList exampleFollower ∧
   uint64 (AppendEntriesArgs.LastLogIndex exampleAppend)) ∧
  ∃ r n' o,
    @AppendEntries bitGob exampleRuntime 5 exampleAppend exampleReply exampleFollower
    = Some (r, n', o) ∧
    @CreateNode bitGob 9 (id n') {[1]} (db n')
    = Some (mkNode (id n') {[1]} (db n') (currentTerm n') (votedFor n') (log n')
              0 0 Follower 9 ∅ ∅ [] Open).
Proof.
  assert (H1 : state exampleFollower ≠ Dead) by done.
  assert (H2 : AppendEntriesArgs.LeaderId exampleAppend ∈ peerList exampleFollower)
    by (apply (bool_decide_unpack _); vm_compute; exact I).
  assert (H3 : uint64 (AppendEntriesArgs.LastLogIndex exampleAppend))
    by (unfold uint64; simpl; lia).
  split; [exact bitGob_roundTrips|]. split; [done|].
  destruct (proj1 (@handlers_persist_before_reply bitGob exampleRuntime 5 9 {[1]}
                     bitGob_roundTrips)
              exampleAppend exampleReply exampleFollower H1 H2 H3)
    as (r & n' & o & Hrun & _ & Hnew).
  exists r, n', o. split; [exact Hrun|exact Hnew].
Defined.

Lemma newLogEntry_at_leader_witness :
  (state exampleLeader = Leader ∧
   (∀ key, RemoveServer 2 ≠ Read key) ∧
   (∀ sid, RemoveServer 2 = RemoveServer sid →
           sid ∈ peerList exampleLeader ∧ sid ≠ id exampleLeader)) ∧
  ∃ n',
    newLogEntry (RemoveServer 2) exampleLeader
    = Some ((true, None, None), n', [SendTrigger]) ∧
    log n' = [exampleEntry "x" 1; exampleEntry "y" 2;
              LogEntry.mk (RemoveServer 2) 2] ∧
    peerList n' = peerList exampleLeader ∖ {[2]}.
Proof.
  assert (H1 : state exampleLeader = Leader) by reflexivity.
  assert (H2 : ∀ key, RemoveServer 2 ≠ Read key) by done.
  assert (H3 : ∀ sid, RemoveServer 2 = RemoveServer sid →
                      sid ∈ peerList exampleLeader ∧ sid ≠ id exampleLeader).
  { intros sid [= <-]. split; [|done].
    apply (bool_decide_unpack _). vm_compute. exact I. }
  split; [done|].
  destruct (proj1 (newLogEntry_at_leader (RemoveServer 2) exampleLeader
                     H1 H2 H3))
    as (n' & Hrun & Hlog & Hpeers & _).
  exists n'. split; [exact Hrun|]. split; [exact Hlog|exact Hpeers].
Defined.

Lemma vote_reply_counts_witness :
  RequestVoteReply.Term (RequestVoteReply.mk 3 true) ≤ 3 ∧
  ∃ n' o,
    startElection_reply 5 3 (RequestVoteReply.mk 3 true) 1 exampleCandidate
    = Some (2, n', o) ∧
    state n' = Leader.
Proof.
  assert (H1 : RequestVoteReply.Term (RequestVoteReply.mk 3 true) ≤ 3)
    by (simpl; lia).
  split; [done|].
  destruct (vote_reply_counts 5 3 (RequestVoteReply.mk 3 true) 1
              exampleCandidate H1)
    as (n' & o & Hrun & Hiff & _).
  exists n', o. split; [exact Hrun|].
  apply Hiff. split; [reflexivity|]. vm_compute. reflexivity.
Defined.

Lemma higher_term_reply_steps_down_witness :
  (AppendEntriesReply.Term (AppendEntriesReply.mk 3 false 0 0) = 3 ∧ 2 < 3) ∧
  ∃ n',
    leaderSendAppendEntries_reply 5 2 2 1 [] (AppendEntriesReply.mk 3 false 0 0)
      (set_state Dead exampleLeader)
    = Some (tt, n', [GoRunElectionTimer]) ∧
    state n' = Follower ∧ currentTerm n' = 3.
Proof.
  assert (H1 : AppendEntriesReply.Term (AppendEntriesReply.mk 3 false 0 0) = 3)
    by reflexivity.
  assert (H2 : 2 < 3) by lia.
  split; [done|].
  destruct (proj1 (higher_term_reply_steps_down 5 3
                     (set_state Dead exampleLeader))
              2 2 1 [] (AppendEntriesReply.mk 3 false 0 0) H1 H2)
    as (n' & Hrun & Hs & Ht & _).
  exists n'. split; [exact Hrun|]. split; [exact Hs|exact Ht].
Defined.

Lemma election_of_one_witness :
  (currentTerm exampleAlone + 1 < 2 ^ 64 ∧ 0 ≤ currentTerm exampleAlone) ∧
  ∃ n' o,
    (startElection 5 ;; startElection_count 1) exampleAlone = Some (tt, n', o) ∧
    currentTerm n' = 2 ∧ state n' = Leader.
Proof.
  assert (H1 : currentTerm exampleAlone + 1 < 2 ^ 64) by (simpl; lia).
  assert (H2 : 0 ≤ currentTerm exampleAlone) by (simpl; lia).
  split; [done|].
  destruct (election_of_one 5 exampleAlone H1 H2)
    as (n' & o & Hrun & Ht & _ & _ & _ & _ & Hl & _).
  exists n', o. split; [exact Hrun|]. split; [exact Ht|].
  apply Hl. reflexivity.
Defined.

Lemma leader_request_for_peer_witness :
  (sliceLen (log exampleLeader) ∧ uint64 (mapGet (nextIndex exampleLeader) 2) ∧
   1 ≤ mapGet (nextIndex exampleLeader) 2 ≤ len (log exampleLeader) + 1) ∧
  ∃ args,
    leaderSendAppendEntries_args 2 2 exampleLeader
    = Some ((mapGet (nextIndex exampleLeader) 2,
             AppendEntriesArgs.Entries args, args), exampleLeader, []) ∧
    AppendEntriesArgs.Entries args = log exampleLeader ∧
    AppendEntriesArgs.LastLogTerm args = 0.
Proof.
  assert (H0 : mapGet (nextIndex exampleLeader) 2 = 1)
    by (vm_compute; reflexivity).
  assert (H1 : sliceLen (log exampleLeader))
    by (unfold sliceLen, len; simpl; lia).
  assert (H2 : uint64 (mapGet (nextIndex exampleLeader) 2))
    by (rewrite H0; unfold uint64; lia).
  assert (H3 : 1 ≤ mapGet (nextIndex exampleLeader) 2
               ≤ len (log exampleLeader) + 1)
    by (rewrite H0; unfold len; simpl; lia).
  split; [done|].
  destruct (proj1 (leader_request_for_peer 2 2 exampleLeader H1 H2) H3)
    as (args & Hrun & _ & _ & _ & Hfirst & _ & Hes & _).
  exists args. split; [exact Hrun|]. split.
  - rewrite Hes, H0. reflexivity.
  - apply Hfirst. exact H0.
Defined.

Lemma replication_round_witness :
  (state exampleLeader = Leader ∧ sliceLen (log exampleLeader) ∧
   0 ≤ commitLength exampleLeader < 2 ^ 64 - 1 ∧
   1 ≤ mapGet (nextIndex exampleLeader) 2 ≤ len (log exampleLeader) + 1 ∧
   state exampleFollower ≠ Dead ∧ id exampleLeader ∈ peerList exampleFollower ∧
   currentTerm exampleFollower ≤ currentTerm exampleLeader ∧
   take (Z.to_nat (mapGet (nextIndex exampleLeader) 2 - 1)) (log exampleFollower)
   = take (Z.to_nat (mapGet (nextIndex exampleLeader) 2 - 1))
       (log exampleLeader)) ∧
  ∃ args reply F' o L' o',
    AppendEntries 5 args exampleReply exampleFollower = Some (reply, F', o) ∧
    log F' = [exampleEntry "x" 1; exampleEntry "y" 2] ∧
    leaderSendAppendEntries_reply 6 2 2 1 (AppendEntriesArgs.Entries args)
      reply exampleLeader = Some (tt, L', o') ∧
    matchedIndex L' !! 2 = Some 2.
Proof.
  assert (H0 : mapGet (nextIndex exampleLeader) 2 = 1)
    by (vm_compute; reflexivity).
  assert (H1 : state exampleLeader = Leader) by reflexivity.
  assert (H2 : sliceLen (log exampleLeader))
    by (unfold sliceLen, len; simpl; lia).
  assert (H3 : 0 ≤ commitLength exampleLeader < 2 ^ 64 - 1) by (simpl; lia).
  assert (H4 : 1 ≤ mapGet (nextIndex exampleLeader) 2
               ≤ len (log exampleLeader) + 1)
    by (rewrite H0; unfold len; simpl; lia).
  assert (H5 : state exampleFollower ≠ Dead) by done.
  assert (H6 : id exampleLeader ∈ peerList exampleFollower)
    by (apply (bool_decide_unpack _); vm_compute; exact I).
  assert (H7 : currentTerm exampleFollower ≤ currentTerm exampleLeader)
    by (simpl; lia).
  assert (H8 : take (Z.to_nat (mapGet (nextIndex exampleLeader) 2 - 1))
                 (log exampleFollower)
               = take (Z.to_nat (mapGet (nextIndex exampleLeader) 2 - 1))
                   (log exampleLeader))
    by (rewrite H0; reflexivity).
  split; [done|].
  destruct (replication_round 5 6 2 exampleReply exampleLeader exampleFollower
              H1 H2 H3 H4 H5 H6 H7 H8)
    as (entries & args & reply & F' & o & L' & o' & Hargs & Hrun & _ & Hlog & _
        & Hrun' & _ & Hm & _).
  exists args, reply, F', o, L', o'. split; [exact Hrun|].
  split; [exact Hlog|]. split; [|exact Hm].
  rewrite H0 in Hrun'.
  assert (AppendEntriesArgs.Entries args = entries) as ->; [|exact Hrun'].
  rewrite (leaderSendAppendEntries_args_closed 2 (currentTerm exampleLeader)
             exampleLeader H2 H4) in Hargs.
  injection Hargs as He Ha. rewrite <- Ha, <- He. reflexivity.
Defined.

Lemma election_timer_witness :
  0 ≤ 100 < 1500 ∧
  1500 ≤ electionTimeout false 0 100 < 3000 ∧
  ∃ n' o,
    runElectionTimer_tick (electionTimeout false 0 100) 1 2000 exampleFollower
    = Some (false, n', o) ∧
    startElection 2000 exampleFollower = Some (tt, n', o).
Proof.
  assert (H1 : 0 ≤ 100 < 1500) by lia.
  split; [done|].
  destruct (election_timer false 0 100 1 2000 exampleFollower H1)
    as (Hrange & b & n' & o & Hrun & Hb & Hstart & _).
  split; [exact Hrange|]. exists n', o.
  assert ((state exampleFollower = Candidate ∨ state exampleFollower = Follower)
          ∧ 1 = currentTerm exampleFollower) as Hw by (split; [by right|done]).
  assert (electionTimeout false 0 100 ≤ 2000 - electionResetEvent exampleFollower)
    as Hdue by (vm_compute; discriminate).
  split; [|by apply Hstart].
  destruct b; [|exact Hrun].
  destruct (proj1 Hb eq_refl) as [_ Hlt]. lia.
Defined.

Lemma heartbeat_defers_election_witness :
  ∃ r n' o,
    AppendEntries 5 exampleAppend exampleReply exampleFollower
    = Some (r, n', o) ∧
    (state exampleFollower ≠ Dead ∧
     AppendEntriesArgs.LeaderId exampleAppend ∈ peerList exampleFollower ∧
     currentTerm exampleFollower ≤ AppendEntriesArgs.Term exampleAppend ∧
     uint64 (AppendEntriesArgs.LastLogIndex exampleAppend) ∧
     0 ≤ 0 ∧ 1000 - 5 < 1500) ∧
    runElectionTimer_tick (electionTimeout true 1 0) 1 1000 n'
    = Some (true, n', []).
Proof.
  assert (∃ r n' o,
            AppendEntries 5 exampleAppend exampleReply exampleFollower
            = Some (r, n', o))
    as (r & n' & o & Hrun)
    by (eexists _, _, _; vm_compute; reflexivity).
  assert (H1 : state exampleFollower ≠ Dead) by done.
  assert (H2 : AppendEntriesArgs.LeaderId exampleAppend ∈ peerList exampleFollower)
    by (apply (bool_decide_unpack _); vm_compute; exact I).
  assert (H3 : currentTerm exampleFollower ≤ AppendEntriesArgs.Term exampleAppend)
    by (simpl; lia).
  assert (H4 : uint64 (AppendEntriesArgs.LastLogIndex exampleAppend))
    by (unfold uint64; simpl; lia).
  assert (H5 : 0 ≤ 0) by lia.
  assert (H6 : 1000 - 5 < 1500) by lia.
  exists r, n', o. split; [exact Hrun|]. split; [done|].
  destruct (heartbeat_defers_election 5 exampleAppend exampleReply
              exampleFollower r n' o true 1 0 1 1000 Hrun H1 H2 H3 H4 H5 H6)
    as (b & Htick & Hb).
  rewrite Htick. rewrite (proj2 Hb); reflexivity.
Defined.

Lemma Stop_silences_witness :
  newCommitReady exampleFollower = Open ∧
  ∃ d, Stop exampleFollower = Some (tt, d, [CloseNewCommitReady]) ∧
    state d = Dead ∧ newCommitReady d = Closed ∧
    Stop d = None ∧
    AppendEntries 5 exampleAppend exampleReply d = Some (exampleReply, d, []) ∧
    run [DoAppendEntries 5 exampleAppend exampleReply;
         DoRequestVote 6 exampleVote (RequestVoteReply.mk 0 false)] d
    = Some (tt, d, []).
Proof.
  assert (H1 : newCommitReady exampleFollower = Open) by reflexivity.
  split; [done|].
  destruct (Stop_silences exampleFollower H1)
    as (d & Hstop & -> & Hagain & Hdead & _).
  exists (set_newCommitReady Closed (set_state Dead exampleFollower)).
  destruct (Hdead (set_newCommitReady Closed (set_state Dead exampleFollower))
              eq_refl) as (Hae & _ & _ & _ & _ & _ & _ & Hrun).
  split_and!; [done|reflexivity|reflexivity| | |].
  - by apply Hagain.
  - apply Hae.
  - by apply Hrun.
Defined.

Lemma LeaveCluster_removes_peer_witness :
  (state exampleLeader = Leader ∧
   LeaveClusterArgs.ServerId (LeaveClusterArgs.mk 3) ∈ peerList exampleLeader ∧
   LeaveClusterArgs.ServerId (LeaveClusterArgs.mk 3) ≠ id exampleLeader) ∧
  ∃ n',
    newLogEntry (RemoveServer 3) exampleLeader
    = Some ((true, None, None), n', [SendTrigger]) ∧
    peerList n' = peerList exampleLeader ∖ {[3]} ∧
    LeaveCluster (LeaveClusterArgs.mk 3) (LeaveClusterReply.mk false) n'
    = Some (LeaveClusterReply.mk true, n', []).
Proof.
  assert (H1 : state exampleLeader = Leader) by reflexivity.
  assert (H2 : LeaveClusterArgs.ServerId (LeaveClusterArgs.mk 3)
               ∈ peerList exampleLeader)
    by (apply (bool_decide_unpack _); vm_compute; exact I).
  assert (H3 : LeaveClusterArgs.ServerId (LeaveClusterArgs.mk 3)
               ≠ id exampleLeader) by done.
  split; [done|].
  destruct (proj1 (LeaveCluster_removes_peer (LeaveClusterArgs.mk 3)
                     (LeaveClusterReply.mk false) exampleLeader H1) H2 H3)
    as (_ & n' & Hrun & Hpeers & _ & Hagain).
  exists n'. split; [exact Hrun|]. split; [exact Hpeers|exact Hagain].
Defined.

End FurtherExamples.

Lemma join_handoff_witness :
  state exampleLeader = Leader ∧
  ∃ r1 r2 J',
    joinAsPeer 5 (JoinClusterReply.LeaderId r1) (FetchPeerListReply.Term r2)
      (peerList exampleLeader) exampleJoiner
    = Some (tt, J', [GoRunElectionTimer]) ∧
    currentTerm J' = 2 ∧ state J' = Follower ∧
    FetchPeerListReply.Success r2 = true.
Proof.
  assert (H1 : state exampleLeader = Leader) by reflexivity.
  split; [done|].
  destruct (join_handoff 5 7 "d" (JoinClusterReply.mk false 0 0)
              (FetchPeerListReply.mk false 0 None None) exampleServer
              exampleLeader exampleJoiner H1)
    as (r1 & srv1 & r2 & J' & _ & _ & _ & Hs2 & _ & _ & Hjoin & _ & HsJ & HtJ).
  exists r1, r2, J'. split; [exact Hjoin|]. split; [exact HtJ|].
  split; [exact HsJ|exact Hs2].
Defined.
